(** * Rule-based DDoS log analysis

    A shallow embedding of the ingestion, windowing and scoring code of the
    network scanner (analyzeLogs.js, streamProcessor.js, config.js), and the
    properties of it that the specification states.

    Conventions of the embedding.
    - JavaScript strings are [string]; [toLowerCase], [toUpperCase] and [trim]
      act on the ASCII letters and the ASCII white space.
    - Integer-valued numbers (packet counts, request totals, risk scores,
      epoch milliseconds) are [Z]; [NaN] is [None].  A count that is read
      ([parseInt]) or added up ([+=]) is rounded to the nearest IEEE double
      ([JS.toDouble], [JS.add]): exact up to 2^53, rounded beyond; the
      infinities are left out.
    - An error of the file stream, which the program does not listen to, ends
      the process: the normalizers have no result then, and [main] ends in
      [App.crash].
    - The request frequency, a quotient of an integer by the window size, is an
      exact rational [Q].
    - The two float columns a record merely carries are primitive floats.
    - A JavaScript object used as a map, and a [Set], are lists in insertion
      order: the order is observable through [Object.values] and [forEach]. *)

From Stdlib Require Import ZArith QArith List String Ascii Bool Lia.
From Stdlib Require Import Permutation Sorted DecimalString PrimFloat.
From Stdlib Require Uint63 DecimalPos DecimalZ.
Import ListNotations.

Local Open Scope string_scope.
Local Open Scope Z_scope.

(** ** JavaScript primitives used by the program *)

Module JS.

Definition code (c : ascii) : Z := Z.of_nat (nat_of_ascii c).

(** White space removed by [String.prototype.trim] and skipped by [parseInt]:
    TAB, LF, VT, FF, CR and SPACE. *)
Definition isWhiteSpace (c : ascii) : bool :=
  ((9 <=? code c) && (code c <=? 13)) || (code c =? 32).

Fixpoint trimStart (s : string) : string :=
  match s with
  | String c s' => if isWhiteSpace c then trimStart s' else s
  | EmptyString => EmptyString
  end.

Fixpoint trimEnd (s : string) : string :=
  match s with
  | EmptyString => EmptyString
  | String c s' =>
      match trimEnd s' with
      | EmptyString => if isWhiteSpace c then EmptyString else String c EmptyString
      | t => String c t
      end
  end.

Definition trim (s : string) : string := trimEnd (trimStart s).

Fixpoint mapString (f : ascii -> ascii) (s : string) : string :=
  match s with
  | EmptyString => EmptyString
  | String c s' => String (f c) (mapString f s')
  end.

Definition lowerChar (c : ascii) : ascii :=
  if (65 <=? code c) && (code c <=? 90)
  then ascii_of_nat (nat_of_ascii c + 32) else c.

Definition upperChar (c : ascii) : ascii :=
  if (97 <=? code c) && (code c <=? 122)
  then ascii_of_nat (nat_of_ascii c - 32) else c.

Definition toLowerCase : string -> string := mapString lowerChar.
Definition toUpperCase : string -> string := mapString upperChar.

(** [includes s pat] is [s.includes(pat)]. *)
Fixpoint includes (s pat : string) : bool :=
  prefix pat s ||
  match s with
  | EmptyString => false
  | String _ s' => includes s' pat
  end.

(** [startsWith s pat] is the anchored regular expression [/^pat/.test(s)]
    for a literal [pat]. *)
Definition startsWith (s pat : string) : bool := prefix pat s.

(** [Array.prototype.join]. *)
Fixpoint join (sep : string) (l : list string) : string :=
  match l with
  | [] => ""
  | [x] => x
  | x :: l' => x ++ sep ++ join sep l'
  end.

(** [String(n)] for an integer-valued number (below 10^21 in magnitude, where
    JavaScript prints all the digits). *)
Definition Number_toString (n : Z) : string :=
  NilZero.string_of_int (Z.to_int n).

(** [String(x)] for a number that may be [NaN]. *)
Definition toString (x : option Z) : string :=
  match x with
  | Some n => Number_toString n
  | None => "NaN"
  end.

(** [x.toFixed(2)]: the sign, then the decimal [n / 100] nearest to [|x|],
    the larger [n] on a tie. *)
Definition toFixed2 (x : Q) : string :=
  let d := Z.pos (Qden x) in
  let n := (200 * Z.abs (Qnum x) + d) / (2 * d) in
  let frac := n mod 100 in
  (if Qnum x <? 0 then "-" else "") ++
  Number_toString (n / 100) ++ "." ++
  (if frac <? 10 then "0" else "") ++ Number_toString frac.

(** The value of a character as a digit, in the radices up to 36. *)
Definition digitValue (c : ascii) : option Z :=
  if (48 <=? code c) && (code c <=? 57) then Some (code c - 48)
  else if (97 <=? code c) && (code c <=? 122) then Some (code c - 87)
  else if (65 <=? code c) && (code c <=? 90) then Some (code c - 55)
  else None.

(** The longest prefix of radix-[R] digits, as a number; [acc] is [None]
    until a digit has been read. *)
Fixpoint parseDigits (R : Z) (s : string) (acc : option Z) : option Z :=
  match s with
  | EmptyString => acc
  | String c s' =>
      match digitValue c with
      | Some d =>
          if d <? R
          then parseDigits R s' (Some (match acc with Some a => a * R + d | None => d end))
          else acc
      | None => acc
      end
  end.

(** The integer that [parseInt(v)] reads, with no radix argument: [v] is
    converted to a string ([undefined] to ["undefined"]), leading white space
    is skipped, a sign and then a [0x] prefix are read, and the longest
    prefix of digits is the value; there is none ([NaN]) when there is no
    digit. *)
Definition mathInt (v : option string) : option Z :=
  let inputString := match v with Some s => s | None => "undefined" end in
  let S := trimStart inputString in
  let '(sign, S1) :=
    match S with
    | String "-" r => (-1, r)
    | String "+" r => (1, r)
    | _ => (1, S)
    end in
  let '(R, S2) :=
    match S1 with
    | String "0" (String "x" r) => (16, r)
    | String "0" (String "X" r) => (16, r)
    | _ => (10, S1)
    end in
  option_map (Z.mul sign) (parseDigits R S2 None).

(** [Number.MAX_SAFE_INTEGER] *)
Definition MAX_SAFE_INTEGER : Z := 2 ^ 53 - 1.

(** [Number.MAX_VALUE], the largest double. *)
Definition MAX_VALUE : Z := 2 ^ 1024 - 2 ^ 971.

(** The magnitude from which the Number value for an integer is an
    infinity: half a unit in the last place above the largest double. *)
Definition OVERFLOW : Z := 2 ^ 1024 - 2 ^ 970.

(** The Number value for an integer: the nearest double, and of two nearest
    ones the one with the even significand.  A double has a significand of
    53 bits, so an integer of a magnitude up to [2^53] is its own Number
    value, and beyond the bits below the 53 leading ones are rounded away.
    Numbers are integers of [Z] here, which leaves out the infinities: the
    definition is the source's below the magnitude [OVERFLOW]. *)
Definition toDouble (z : Z) : Z :=
  let a := Z.abs z in
  let e := Z.log2 a - 52 in
  if e <=? 0 then z
  else
    let ulp := 2 ^ e in
    let q := a / ulp in
    let r := a mod ulp in
    let half := ulp / 2 in
    let q' := if r <? half then q
              else if half <? r then q + 1
              else if Z.even q then q else q + 1 in
    Z.sgn z * (q' * ulp).

(** [a + b] for two Numbers that hold integers: the Number value for the
    sum. *)
Definition add (a b : Z) : Z := toDouble (a + b).

(** [parseInt(v)]: the Number value for the integer read, [NaN] ([None])
    when there is none.  The value is the source's for an integer below the
    magnitude [OVERFLOW]; from there on [parseInt] gives an infinity. *)
Definition parseInt (v : option string) : option Z :=
  option_map toDouble (mathInt v).

(** [v || d] for a number [v]: [NaN] and [0] are falsy. *)
Definition orNumber (v : option Z) (d : Z) : Z :=
  match v with
  | None => d
  | Some 0 => d
  | Some n => n
  end.

(** [v || d] for a float [v]: [NaN], [0] and [-0] are falsy. *)
Definition orFloat (v : float) (d : float) : float :=
  if PrimFloat.is_nan v || PrimFloat.eqb v 0%float then d else v.

(** [v?.trim() || d] for a field [v] that may be [undefined]: [undefined]
    and the empty string are falsy. *)
Definition trimOr (v : option string) (d : string) : string :=
  match option_map trim v with
  | None => d
  | Some "" => d
  | Some t => t
  end.

(** A [Set] in insertion order: [add] keeps the first occurrence. *)
Definition Set_add (x : string) (s : list string) : list string :=
  if existsb (String.eqb x) s then s else (s ++ [x])%list.

(** Objects used as maps, in insertion order. *)
Section Obj.
Context {V : Type}.

Fixpoint get (o : list (string * V)) (k : string) : option V :=
  match o with
  | [] => None
  | (k', v) :: o' => if String.eqb k k' then Some v else get o' k
  end.

(** [o[k] = v]: an existing property keeps its place, a new one is last. *)
Fixpoint set (o : list (string * V)) (k : string) (v : V) : list (string * V) :=
  match o with
  | [] => [(k, v)]
  | (k', v') :: o' =>
      if String.eqb k k' then (k', v) :: o' else (k', v') :: set o' k v
  end.
End Obj.

(** The property names of [Object.prototype] in Node.  In an object literal
    that has no such property of its own, [o[k]] is for these names an
    inherited value and not [undefined]; [get] and [set] are the source's
    for every other name. *)
Definition Object_prototype : list string :=
  ["constructor"; "__defineGetter__"; "__defineSetter__"; "hasOwnProperty";
   "__lookupGetter__"; "__lookupSetter__"; "isPrototypeOf"; "propertyIsEnumerable";
   "toString"; "valueOf"; "__proto__"; "toLocaleString"].

(** A name that [Object.prototype] does not define. *)
Definition ownName (k : string) : bool := negb (existsb (String.eqb k) Object_prototype).

Definition isDigit (c : ascii) : bool := (48 <=? code c) && (code c <=? 57).

Fixpoint allDigits (s : string) : bool :=
  match s with
  | EmptyString => true
  | String c s' => isDigit c && allDigits s'
  end.

(** Whether a property name is an array index: a canonical decimal numeral
    (digits only, no leading zero) below 2^32 - 1. *)
Definition arrayIndex (k : string) : option Z :=
  match k with
  | EmptyString => None
  | String c r =>
      if allDigits k && (negb (Ascii.eqb c "0") || String.eqb r "")
      then match parseDigits 10 k None with
           | Some n => if n <? 4294967295 then Some n else None
           | None => None
           end
      else None
  end.

Fixpoint insertIndex {V : Type} (n : Z) (e : string * V)
    (l : list (Z * (string * V))) : list (Z * (string * V)) :=
  match l with
  | [] => [(n, e)]
  | (m, e') :: l' => if n <? m then (n, e) :: l else (m, e') :: insertIndex n e l'
  end.

(** [Object.entries(o)]: the array-index properties in ascending order, then
    the others in insertion order. *)
Definition Object_entries {V : Type} (o : list (string * V)) : list (string * V) :=
  let indexed :=
    fold_right (fun e acc =>
                  match arrayIndex (fst e) with
                  | Some n => insertIndex n e acc
                  | None => acc
                  end) [] o in
  map snd indexed ++
  filter (fun e => match arrayIndex (fst e) with Some _ => false | None => true end) o.

Definition Object_values {V : Type} (o : list (string * V)) : list V :=
  map snd (Object_entries o).

(** [a.sort(cmp)]: the sort is stable (ECMAScript 2019), so the result is the
    one a stable insertion sort computes; [cmp x y < 0] puts [x] first. *)
Section Sort.
Context {A : Type} (cmp : A -> A -> Z).

Fixpoint insert (x : A) (l : list A) : list A :=
  match l with
  | [] => [x]
  | y :: l' => if cmp y x <=? 0 then y :: insert x l' else x :: l
  end.

Definition sort (l : list A) : list A :=
  fold_left (fun acc x => insert x acc) l [].
End Sort.

End JS.


(** ** A date parser

    [new Date(s).getTime()] is implementation-defined outside the ECMAScript
    date-time format, so the engine below takes the parser as a variable.
    [IsoDate.getTime] is the instance used in the concrete runs of this file:
    it reads the UTC form [YYYY-MM-DDTHH:mm:ssZ] and is [NaN] elsewhere. *)

Module IsoDate.

Fixpoint digits (n : nat) (s : string) (acc : Z) : option (Z * string) :=
  match n with
  | O => Some (acc, s)
  | S n' =>
      match s with
      | String c s' =>
          if JS.isDigit c then digits n' s' (acc * 10 + (JS.code c - 48)) else None
      | EmptyString => None
      end
  end.

Definition lit (c : ascii) (s : string) : option string :=
  match s with
  | String c' s' => if Ascii.eqb c c' then Some s' else None
  | EmptyString => None
  end.

Definition isLeap (y : Z) : bool :=
  ((y mod 4 =? 0) && negb (y mod 100 =? 0)) || (y mod 400 =? 0).

Definition daysInMonth (y m : Z) : Z :=
  if m =? 2 then (if isLeap y then 29 else 28)
  else if (m =? 4) || (m =? 6) || (m =? 9) || (m =? 11) then 30 else 31.

(** Days between 1970-01-01 and the given civil date. *)
Definition daysFromCivil (y m d : Z) : Z :=
  let y' := if m <=? 2 then y - 1 else y in
  let era := y' / 400 in
  let yoe := y' - era * 400 in
  let doy := (153 * ((m + 9) mod 12) + 2) / 5 + d - 1 in
  era * 146097 + (yoe * 365 + yoe / 4 - yoe / 100 + doy) - 719468.

Local Notation "' p <- e ;; k" :=
  (match e with Some p => k | None => None end)
  (at level 60, p pattern, e at next level, right associativity).

Definition getTime (s : string) : option Z :=
  ' (y, s) <- digits 4 s 0 ;; ' s <- lit "-" s ;;
  ' (m, s) <- digits 2 s 0 ;; ' s <- lit "-" s ;;
  ' (d, s) <- digits 2 s 0 ;; ' s <- lit "T" s ;;
  ' (hh, s) <- digits 2 s 0 ;; ' s <- lit ":" s ;;
  ' (mm, s) <- digits 2 s 0 ;; ' s <- lit ":" s ;;
  ' (ss, s) <- digits 2 s 0 ;; ' s <- lit "Z" s ;;
  if String.eqb s "" && (1 <=? m) && (m <=? 12) && (1 <=? d) && (d <=? daysInMonth y m)
     && (hh <? 24) && (mm <? 60) && (ss <? 60)
  then Some ((((daysFromCivil y m d * 24 + hh) * 60 + mm) * 60 + ss) * 1000)
  else None.

End IsoDate.

(** ** config.js *)

Record CsvColumns := {
  TIMESTAMP : string;
  SOURCE_IP : string;
  DEST_IP : string;
  FWD_PACKETS : string;
  FLOW_DURATION : string;
  TOTAL_LENGTH : string;
  LABEL : string
}.

(** The fields of [CONFIG] that ingestion and scoring read.  The window is a
    number of minutes; the type keeps it a positive integer.  A regular
    expression of [SUSPICIOUS_IP_PATTERNS] is its [test] function. *)
Record Config := {
  ANALYSIS_WINDOW : positive;
  HIGH_FREQUENCY_THRESHOLD : Z;
  MEDIUM_FREQUENCY_THRESHOLD : Z;
  CSV_COLUMNS : CsvColumns;
  SUSPICIOUS_USER_AGENTS : list string;
  SUSPICIOUS_IP_PATTERNS : list (string -> bool);
  SUSPICIOUS_RESPONSE_CODES : list string;
  SUSPICIOUS_METHODS : list string;
  KNOWN_DDOS_LABELS : list string
}.

(** [/^172\.(1[6-9]|2[0-9]|3[0-1])\./] *)
Definition re_172 (ip : string) : bool :=
  match ip with
  | String "1" (String "7" (String "2" (String "." (String a (String b (String "." _)))))) =>
      (Ascii.eqb a "1" && (54 <=? JS.code b) && (JS.code b <=? 57))
      || (Ascii.eqb a "2" && JS.isDigit b)
      || (Ascii.eqb a "3" && (48 <=? JS.code b) && (JS.code b <=? 49))
  | _ => false
  end.

Definition CONFIG : Config := {|
  ANALYSIS_WINDOW := 5;
  HIGH_FREQUENCY_THRESHOLD := 100;
  MEDIUM_FREQUENCY_THRESHOLD := 50;
  CSV_COLUMNS := {|
    TIMESTAMP := " Timestamp";
    SOURCE_IP := " Source IP";
    DEST_IP := " Destination IP";
    FWD_PACKETS := " Total Fwd Packets";
    FLOW_DURATION := " Flow Duration";
    TOTAL_LENGTH := "Total Length of Fwd Packets";
    LABEL := " Label"
  |};
  SUSPICIOUS_USER_AGENTS :=
    ["bot"; "crawler"; "spider"; "scraper"; "curl"; "wget"; "python"; "java";
     "go-http-client"; "okhttp"; "requests"; "urllib"; "scrapy"];
  SUSPICIOUS_IP_PATTERNS :=
    [fun ip => JS.startsWith ip "10."; re_172;
     fun ip => JS.startsWith ip "192.168.";
     fun ip => JS.startsWith ip "127.";
     fun ip => JS.startsWith ip "0.0.0.0";
     fun ip => JS.startsWith ip "255.255.255.255"];
  SUSPICIOUS_RESPONSE_CODES := ["429"; "503"; "502"; "504"];
  SUSPICIOUS_METHODS := ["HEAD"; "OPTIONS"; "TRACE"; "CONNECT"];
  KNOWN_DDOS_LABELS :=
    ["DrDoS_DNS"; "DrDoS_LDAP"; "DrDoS_MSSQL"; "DrDoS_NetBIOS"; "DrDoS_NTP";
     "DrDoS_SNMP"; "DrDoS_SSDP"; "DrDoS_UDP"; "DrDoS_WebDDoS"; "Syn"; "TFTP";
     "UDP"; "UDP-lag"; "WebDDoS"; "LDAP"; "MSSQL"; "NetBIOS"; "NTP"; "SNMP"; "SSDP"]
|}.

(** [DETECTION_CONFIG], the local alias of the detection fields of [CONFIG];
    it is echoed in the result of the analysis. *)
Module Detection.
Record t := {
  HIGH_FREQUENCY_THRESHOLD : Z;
  MEDIUM_FREQUENCY_THRESHOLD : Z;
  ANALYSIS_WINDOW : positive;
  SUSPICIOUS_USER_AGENTS : list string;
  SUSPICIOUS_IP_PATTERNS : list (string -> bool);
  SUSPICIOUS_RESPONSE_CODES : list string;
  SUSPICIOUS_METHODS : list string;
  KNOWN_DDOS_LABELS : list string
}.
End Detection.

Definition DETECTION_CONFIG : Detection.t := {|
  Detection.HIGH_FREQUENCY_THRESHOLD := HIGH_FREQUENCY_THRESHOLD CONFIG;
  Detection.MEDIUM_FREQUENCY_THRESHOLD := MEDIUM_FREQUENCY_THRESHOLD CONFIG;
  Detection.ANALYSIS_WINDOW := ANALYSIS_WINDOW CONFIG;
  Detection.SUSPICIOUS_USER_AGENTS := SUSPICIOUS_USER_AGENTS CONFIG;
  Detection.SUSPICIOUS_IP_PATTERNS := SUSPICIOUS_IP_PATTERNS CONFIG;
  Detection.SUSPICIOUS_RESPONSE_CODES := SUSPICIOUS_RESPONSE_CODES CONFIG;
  Detection.SUSPICIOUS_METHODS := SUSPICIOUS_METHODS CONFIG;
  Detection.KNOWN_DDOS_LABELS := KNOWN_DDOS_LABELS CONFIG
|}.

(** ** Records and the logger *)

(** A log entry.  [requestCount] is a Number that holds an integer; the
    infinities are left out (the normalizers give one for a field of the
    overflow magnitude, 309 digits or so). *)
Record LogEntry := {
  timestamp : string;
  sourceIP : string;
  destinationIP : string;
  requestCount : Z;
  duration : float;
  bytes : float;
  label : string;
  userAgent : string;
  responseCode : string;
  method : string;
  path : string
}.

Inductive Level := info | warn | error.

Definition LogLine : Type := Level * string.

(** A row as [csv-parser] delivers it: a column is a string, or absent. *)
Definition RawRow : Type := string -> option string.

(** How the stream of rows finishes.  The handlers of ['end'] and ['error']
    are attached to the parser [csv()], the destination of the pipe: it ends
    after the last row of the file, or it fails with an error of its own.
    [pipe] does not forward an error of the file stream
    ([fs.createReadStream]: a file that cannot be opened or read); that
    ['error'] event has no listener, so Node throws it, the promise is never
    settled and the process ends.  Such a run has no result and is none of
    the two cases. *)
Inductive StreamEnd :=
| EndOfFile
| ParserError (message : string).

(** ** The record normalizers (parseCSVLogs, StreamingCSVProcessor) *)

(** ** A float parser

    The normalizers take [parseFloat] as a variable.  [DecimalFloat.parseFloat]
    is the instance used in the concrete runs of this file: it reads the
    longest prefix of the form [sign digits . digits] after leading white
    space, as the quotient of the integer the digits spell by the power of
    ten, which is the nearest double for the short literals of those runs;
    it is [NaN] when there is no digit. *)

Module DecimalFloat.

(** The digits read, the number spelt and how many digits there were. *)
Fixpoint digits (s : string) (acc : Z) (n : nat) : Z * nat * string :=
  match s with
  | String c s' =>
      if JS.isDigit c then digits s' (acc * 10 + (JS.code c - 48)) (S n) else (acc, n, s)
  | EmptyString => (acc, n, s)
  end.

Definition ofZ (z : Z) : float := PrimFloat.of_uint63 (Uint63.of_Z z).

Definition parseFloat (v : option string) : float :=
  let inputString := match v with Some s => s | None => "undefined" end in
  let S := JS.trimStart inputString in
  let '(negative, S1) :=
    match S with
    | String "-" r => (true, r)
    | String "+" r => (false, r)
    | _ => (false, S)
    end in
  let '(whole, n1, S2) := digits S1 0 0 in
  let '(mantissa, n2) :=
    match S2 with
    | String "." r => let '(m, n, _) := digits r whole 0 in (m, n)
    | _ => (whole, O)
    end in
  if (n1 + n2 =? 0)%nat then PrimFloat.nan
  else
    let x := PrimFloat.div (ofZ mantissa) (ofZ (10 ^ Z.of_nat n2)) in
    if negative then PrimFloat.opp x else x.

End DecimalFloat.

(** A row given by its columns. *)
Definition row (columns : list (string * string)) : RawRow := JS.get columns.

(** The state of a [StreamingCSVProcessor] and the events it emits. *)
Module Processor.
Record t := {
  filePath : string;
  batchSize : Z;
  currentBatch : list LogEntry;
  totalProcessed : Z;
  isProcessing : bool
}.
End Processor.

Inductive Event :=
| batch (entries : list LogEntry)
| complete (totalProcessed : Z).

Section Ingestion.

(** [parseFloat], applied to the two float columns. *)
Variable parseFloat : option string -> float.

(** The object literal both normalizers build from a row. *)
Definition normalizedLogEntry (data : RawRow) : LogEntry := {|
  timestamp := JS.trimOr (data (TIMESTAMP (CSV_COLUMNS CONFIG))) "N/A";
  sourceIP := JS.trimOr (data (SOURCE_IP (CSV_COLUMNS CONFIG))) "UNKNOWN";
  destinationIP := JS.trimOr (data (DEST_IP (CSV_COLUMNS CONFIG))) "UNKNOWN";
  requestCount := JS.orNumber (JS.parseInt (data (FWD_PACKETS (CSV_COLUMNS CONFIG)))) 1;
  duration := JS.orFloat (parseFloat (data (FLOW_DURATION (CSV_COLUMNS CONFIG)))) 0;
  bytes := JS.orFloat (parseFloat (data (TOTAL_LENGTH (CSV_COLUMNS CONFIG)))) 0;
  label := JS.trimOr (data (LABEL (CSV_COLUMNS CONFIG))) "N/A";
  userAgent := "N/A";
  responseCode := "N/A";
  method := "N/A";
  path := "N/A"
|}.

Definition skipMessage (rowNumber : nat) : string :=
  "Skipping malformed row " ++ JS.Number_toString (Z.of_nat rowNumber)
  ++ " (missing required fields)".

Definition parsedMessage (n : nat) (filePath : string) : string :=
  "Parsed " ++ JS.Number_toString (Z.of_nat n) ++ " valid log entries from " ++ filePath.

Definition errorMessage (message : string) : string :=
  "CSV parsing error: " ++ message.

(** *** parseCSVLogs *)

Record ParseState := {
  parsedResults : list LogEntry;
  rowNumber : nat;
  parseLog : list LogLine
}.

(** The ['data'] handler. *)
Definition parseCSVLogs_data (st : ParseState) (data : RawRow) : ParseState :=
  let e := normalizedLogEntry data in
  if String.eqb (timestamp e) "N/A"
     || String.eqb (sourceIP e) "UNKNOWN"
     || String.eqb (destinationIP e) "UNKNOWN"
  then {| parsedResults := parsedResults st;
          rowNumber := S (rowNumber st);
          parseLog := (parseLog st ++ [(warn, skipMessage (rowNumber st))])%list |}
  else {| parsedResults := (parsedResults st ++ [e])%list;
          rowNumber := S (rowNumber st);
          parseLog := parseLog st |}.

(** The promise settles with the parsed entries ([inr]) or the error of the
    parser ([inl]); the second component is what the logger received. *)
Definition parseCSVLogs (filePath : string) (rows : list RawRow) (fin : StreamEnd)
  : (string + list LogEntry) * list LogLine :=
  let st := fold_left parseCSVLogs_data rows
              {| parsedResults := []; rowNumber := 1; parseLog := [] |} in
  match fin with
  | EndOfFile =>
      (inr (parsedResults st),
       (parseLog st ++ [(info, parsedMessage (List.length (parsedResults st)) filePath)])%list)
  | ParserError message =>
      (inl message, (parseLog st ++ [(error, errorMessage message)])%list)
  end.

(** *** StreamingCSVProcessor *)

(** The constructor; [batchSize] is [options.batchSize || 1000]. *)
Definition new_StreamingCSVProcessor (filePath : string) (batchSize : option Z) : Processor.t := {|
  Processor.filePath := filePath;
  Processor.batchSize := JS.orNumber batchSize 1000;
  Processor.currentBatch := [];
  Processor.totalProcessed := 0;
  Processor.isProcessing := false
|}.

(** [normalizeLogEntry]: the entry, or [null], and the warning logged. *)
Definition normalizeLogEntry (data : RawRow) (rowNumber : nat)
  : option LogEntry * list LogLine :=
  let normalized := normalizedLogEntry data in
  if String.eqb (timestamp normalized) "N/A"
     || String.eqb (sourceIP normalized) "UNKNOWN"
     || String.eqb (destinationIP normalized) "UNKNOWN"
  then (None, [(warn, skipMessage rowNumber)])
  else (Some normalized, []).

Record ProcessState := {
  this : Processor.t;
  procRow : nat;
  emitted : list Event;
  procLog : list LogLine
}.

Definition setBatch (p : Processor.t) (b : list LogEntry) (n : Z) : Processor.t := {|
  Processor.filePath := Processor.filePath p;
  Processor.batchSize := Processor.batchSize p;
  Processor.currentBatch := b;
  Processor.totalProcessed := n;
  Processor.isProcessing := Processor.isProcessing p
|}.

Definition setProcessing (p : Processor.t) (b : bool) : Processor.t := {|
  Processor.filePath := Processor.filePath p;
  Processor.batchSize := Processor.batchSize p;
  Processor.currentBatch := Processor.currentBatch p;
  Processor.totalProcessed := Processor.totalProcessed p;
  Processor.isProcessing := b
|}.

(** The ['data'] handler of [process]. *)
Definition process_data (st : ProcessState) (data : RawRow) : ProcessState :=
  let '(normalizedEntry, lines) := normalizeLogEntry data (procRow st) in
  match normalizedEntry with
  | Some e =>
      let cur := (Processor.currentBatch (this st) ++ [e])%list in
      if Z.of_nat (List.length cur) >=? Processor.batchSize (this st)
      then {| this := setBatch (this st) []
                        (Processor.totalProcessed (this st) + Z.of_nat (List.length cur));
              procRow := S (procRow st);
              emitted := (emitted st ++ [batch cur])%list;
              procLog := (procLog st ++ lines)%list |}
      else {| this := setBatch (this st) cur (Processor.totalProcessed (this st));
              procRow := S (procRow st);
              emitted := emitted st;
              procLog := (procLog st ++ lines)%list |}
  | None =>
      {| this := this st;
         procRow := S (procRow st);
         emitted := emitted st;
         procLog := (procLog st ++ lines)%list |}
  end.

(** The ['end'] handler: the remaining entries, then ['complete']. *)
Definition process_end (st : ProcessState) : ProcessState :=
  let cur := Processor.currentBatch (this st) in
  let st1 :=
    match cur with
    | [] => st
    | _ :: _ =>
        {| this := setBatch (this st) cur
                     (Processor.totalProcessed (this st) + Z.of_nat (List.length cur));
           procRow := procRow st;
           emitted := (emitted st ++ [batch cur])%list;
           procLog := procLog st |}
    end in
  {| this := this st1;
     procRow := procRow st1;
     emitted := (emitted st1 ++ [complete (Processor.totalProcessed (this st1))])%list;
     procLog := procLog st1 |}.

(** [process()]: the processor afterwards, the events emitted in order, the
    log, and the settlement of the promise. *)
Definition process (p : Processor.t) (rows : list RawRow) (fin : StreamEnd)
  : Processor.t * list Event * list LogLine * (string + Z) :=
  if Processor.isProcessing p
  then (p, [], [], inl "Processor is already running")
  else
    let st := fold_left process_data rows
                {| this := setProcessing p true; procRow := 1;
                   emitted := []; procLog := [] |} in
    match fin with
    | EndOfFile =>
        let st' := process_end st in
        (this st', emitted st', procLog st', inr (Processor.totalProcessed (this st')))
    | ParserError message =>
        (setProcessing (this st) false, emitted st, procLog st, inl message)
    end.

(** [stop()]: the flag is reset, the current batch and the count stay.
    [removeAllListeners] removes the listeners of the events of the
    processor, which are left out here: the events are what [process]
    returns. *)
Definition stop (p : Processor.t) : Processor.t := setProcessing p false.

(** The batches among the emitted events, in emission order. *)
Definition batches (evs : list Event) : list (list LogEntry) :=
  flat_map (fun ev => match ev with batch b => [b] | complete _ => [] end) evs.

End Ingestion.

(** ** The window grouper and the scoring engine (analyzeLogs.js) *)

Module Group.
Record t := {
  sourceIP : string;
  timeWindow : option Z;
  entries : list LogEntry;
  totalRequests : Z;
  uniquePaths : list string;
  uniqueUserAgents : list string;
  responseCodes : list (string * Z);
  methods : list (string * Z);
  labels : list string;
  hasKnownDDoSAttack : bool
}.
End Group.

Module Flagged.
Record t := {
  sourceIP : string;
  timestamp : string;
  requestCount : Z;
  requestFrequency : Q;
  riskScore : Z;
  suspiciousIndicators : list string;
  uniquePaths : nat;
  uniqueUserAgents : nat;
  responseCodes : list (string * Z);
  methods : list (string * Z);
  labels : list string;
  hasKnownDDoSAttack : bool;
  entries : list LogEntry
}.
End Flagged.

Module Stats.
Record t := {
  totalEntries : nat;
  uniqueIPs : nat;
  suspiciousIPs : nat;
  highFrequencyIPs : nat;
  suspiciousUserAgents : nat;
  knownDDoSAttacks : nat;
  labeledAttacks : nat
}.

Inductive key := highFrequencyIPs_key | suspiciousUserAgents_key | suspiciousIPs_key.

(** [analysisStats[statKey]++] *)
Definition incr (k : key) (s : t) : t :=
  match k with
  | highFrequencyIPs_key =>
      {| totalEntries := totalEntries s; uniqueIPs := uniqueIPs s;
         suspiciousIPs := suspiciousIPs s;
         highFrequencyIPs := S (highFrequencyIPs s);
         suspiciousUserAgents := suspiciousUserAgents s;
         knownDDoSAttacks := knownDDoSAttacks s; labeledAttacks := labeledAttacks s |}
  | suspiciousUserAgents_key =>
      {| totalEntries := totalEntries s; uniqueIPs := uniqueIPs s;
         suspiciousIPs := suspiciousIPs s;
         highFrequencyIPs := highFrequencyIPs s;
         suspiciousUserAgents := S (suspiciousUserAgents s);
         knownDDoSAttacks := knownDDoSAttacks s; labeledAttacks := labeledAttacks s |}
  | suspiciousIPs_key =>
      {| totalEntries := totalEntries s; uniqueIPs := uniqueIPs s;
         suspiciousIPs := S (suspiciousIPs s);
         highFrequencyIPs := highFrequencyIPs s;
         suspiciousUserAgents := suspiciousUserAgents s;
         knownDDoSAttacks := knownDDoSAttacks s; labeledAttacks := labeledAttacks s |}
  end.

Definition incrKnownDDoSAttacks (s : t) : t :=
  {| totalEntries := totalEntries s; uniqueIPs := uniqueIPs s;
     suspiciousIPs := suspiciousIPs s; highFrequencyIPs := highFrequencyIPs s;
     suspiciousUserAgents := suspiciousUserAgents s;
     knownDDoSAttacks := S (knownDDoSAttacks s); labeledAttacks := labeledAttacks s |}.

Definition incrLabeledAttacks (s : t) : t :=
  {| totalEntries := totalEntries s; uniqueIPs := uniqueIPs s;
     suspiciousIPs := suspiciousIPs s; highFrequencyIPs := highFrequencyIPs s;
     suspiciousUserAgents := suspiciousUserAgents s;
     knownDDoSAttacks := knownDDoSAttacks s; labeledAttacks := S (labeledAttacks s) |}.
End Stats.

Module Rule.
Record t := {
  check : Group.t -> Q -> bool;
  message : Group.t -> Q -> string;
  risk : Z;
  statKey : option Stats.key
}.
End Rule.

Record AnalysisOutput := {
  flaggedEntries : list Flagged.t;
  analysisStats : Stats.t;
  analysisConfig : Detection.t
}.

Definition isSuspiciousUserAgent (userAgent : string) : bool :=
  if String.eqb userAgent "" then false
  else
    let lowerUA := JS.toLowerCase userAgent in
    existsb (fun pattern => JS.includes lowerUA (JS.toLowerCase pattern))
            (Detection.SUSPICIOUS_USER_AGENTS DETECTION_CONFIG).

Definition isSuspiciousIP (ip : string) : bool :=
  if String.eqb ip "" then false
  else existsb (fun pattern => pattern ip)
               (Detection.SUSPICIOUS_IP_PATTERNS DETECTION_CONFIG).

Definition isKnownDDoSAttack (label : string) : bool :=
  if String.eqb label "" then false
  else existsb (fun knownLabel =>
                  String.eqb (JS.toLowerCase label) (JS.toLowerCase knownLabel))
               (Detection.KNOWN_DDOS_LABELS DETECTION_CONFIG).

(** [getLabelRiskScore] is defined in the source and called nowhere. *)
Definition getLabelRiskScore (label : string) : Z :=
  if String.eqb label "" then 0
  else
    let lowerLabel := JS.toLowerCase label in
    if existsb (JS.includes lowerLabel)
         ["drdos_dns"; "drdos_ldap"; "drdos_mssql"; "drdos_ntp"; "drdos_snmp"; "drdos_ssdp"]
    then 5
    else if existsb (JS.includes lowerLabel) ["drdos_"; "webddos"; "syn"; "udp-lag"]
    then 4
    else if existsb (JS.includes lowerLabel)
              ["udp"; "tftp"; "ldap"; "mssql"; "netbios"; "ntp"; "snmp"; "ssdp"]
    then 3
    else 0.

(** The quotient is exact here and rounded to the nearest double in the
    source.  Rounding is monotone and the thresholds are integers, so the
    comparisons of the rules come out the same. *)
Definition calculateRequestFrequency (totalRequests : Z) (windowMinutes : positive) : Q :=
  Qmake totalRequests windowMinutes.

(** The same division on IEEE doubles. *)
Definition calculateRequestFrequency_binary64 (totalRequests windowMinutes : float) : float :=
  PrimFloat.div totalRequests windowMinutes.

(** [entries.filter(([k]) => list.includes(k))] *)
Definition suspiciousEntries (suspicious : list string) (o : list (string * Z))
  : list (string * Z) :=
  filter (fun e => existsb (String.eqb (fst e)) suspicious) (JS.Object_entries o).

Definition tally (e : string * Z) : string :=
  fst e ++ "(" ++ JS.Number_toString (snd e) ++ ")".

Definition indicatorRules : list Rule.t := [
  {| Rule.check := fun group requestFrequency =>
       Qle_bool (inject_Z (Detection.HIGH_FREQUENCY_THRESHOLD DETECTION_CONFIG)) requestFrequency;
     Rule.message := fun group requestFrequency =>
       "High request frequency: " ++ JS.toFixed2 requestFrequency ++ " req/min";
     Rule.risk := 3;
     Rule.statKey := Some Stats.highFrequencyIPs_key |};
  {| Rule.check := fun group requestFrequency =>
       Qle_bool (inject_Z (Detection.MEDIUM_FREQUENCY_THRESHOLD DETECTION_CONFIG)) requestFrequency
       && negb (Qle_bool (inject_Z (Detection.HIGH_FREQUENCY_THRESHOLD DETECTION_CONFIG))
                         requestFrequency);
     Rule.message := fun group requestFrequency =>
       "Medium request frequency: " ++ JS.toFixed2 requestFrequency ++ " req/min";
     Rule.risk := 2;
     Rule.statKey := None |};
  {| Rule.check := fun group _ =>
       (0 <? List.length (filter isSuspiciousUserAgent (Group.uniqueUserAgents group)))%nat;
     Rule.message := fun group _ =>
       "Suspicious user agents: "
       ++ JS.join ", " (filter isSuspiciousUserAgent (Group.uniqueUserAgents group));
     Rule.risk := 2;
     Rule.statKey := Some Stats.suspiciousUserAgents_key |};
  {| Rule.check := fun group _ => isSuspiciousIP (Group.sourceIP group);
     Rule.message := fun group _ => "Suspicious IP pattern: " ++ Group.sourceIP group;
     Rule.risk := 1;
     Rule.statKey := Some Stats.suspiciousIPs_key |};
  {| Rule.check := fun group _ =>
       (0 <? List.length (suspiciousEntries
                            (Detection.SUSPICIOUS_RESPONSE_CODES DETECTION_CONFIG)
                            (Group.responseCodes group)))%nat;
     Rule.message := fun group _ =>
       "Suspicious response codes: "
       ++ JS.join ", " (map tally (suspiciousEntries
                                     (Detection.SUSPICIOUS_RESPONSE_CODES DETECTION_CONFIG)
                                     (Group.responseCodes group)));
     Rule.risk := 1;
     Rule.statKey := None |};
  {| Rule.check := fun group _ => (50 <? List.length (Group.uniquePaths group))%nat;
     Rule.message := fun group _ =>
       "High path diversity: "
       ++ JS.Number_toString (Z.of_nat (List.length (Group.uniquePaths group)))
       ++ " unique paths";
     Rule.risk := 1;
     Rule.statKey := None |};
  {| Rule.check := fun group _ =>
       (0 <? List.length (suspiciousEntries
                            (Detection.SUSPICIOUS_METHODS DETECTION_CONFIG)
                            (Group.methods group)))%nat;
     Rule.message := fun group _ =>
       "Suspicious methods: "
       ++ JS.join ", " (map tally (suspiciousEntries
                                     (Detection.SUSPICIOUS_METHODS DETECTION_CONFIG)
                                     (Group.methods group)));
     Rule.risk := 1;
     Rule.statKey := None |}
].

Section Engine.

(** [new Date(s).getTime()], [NaN] for an invalid date. *)
Variable getTime : string -> option Z.

(** [Math.floor(timestamp.getTime() / (windowMinutes * 60 * 1000))] *)
Definition timeKeyOf (logEntry : LogEntry) (windowMinutes : positive) : option Z :=
  option_map (fun t => t / (Z.pos windowMinutes * 60 * 1000)) (getTime (timestamp logEntry)).

Definition keyOf (logEntry : LogEntry) (windowMinutes : positive) : string :=
  sourceIP logEntry ++ "_" ++ JS.toString (timeKeyOf logEntry windowMinutes).

Definition newGroup (logEntry : LogEntry) (timeKey : option Z) : Group.t := {|
  Group.sourceIP := sourceIP logEntry;
  Group.timeWindow := timeKey;
  Group.entries := [];
  Group.totalRequests := 0;
  Group.uniquePaths := [];
  Group.uniqueUserAgents := [];
  Group.responseCodes := [];
  Group.methods := [];
  Group.labels := [];
  Group.hasKnownDDoSAttack := false
|}.

(** [s && s !== 'N/A'] *)
Definition present (s : string) : bool :=
  negb (String.eqb s "") && negb (String.eqb s "N/A").

(** [o[k] = (o[k] || 0) + n], for a name [k] that [Object.prototype] does not
    define ([JS.ownName]); for the others [o[k]] is an inherited function or
    object and the sum a string. *)
Definition addCount (o : list (string * Z)) (k : string) (n : Z) : list (string * Z) :=
  JS.set o k (JS.add (JS.orNumber (JS.get o k) 0) n).

(** What one iteration of the [forEach] does to the group of the entry. *)
Definition addEntry (group : Group.t) (logEntry : LogEntry) : Group.t := {|
  Group.sourceIP := Group.sourceIP group;
  Group.timeWindow := Group.timeWindow group;
  Group.entries := (Group.entries group ++ [logEntry])%list;
  Group.totalRequests := JS.add (Group.totalRequests group) (requestCount logEntry);
  Group.uniquePaths := JS.Set_add (path logEntry) (Group.uniquePaths group);
  Group.uniqueUserAgents := JS.Set_add (userAgent logEntry) (Group.uniqueUserAgents group);
  Group.responseCodes :=
    if present (responseCode logEntry)
    then addCount (Group.responseCodes group) (responseCode logEntry) (requestCount logEntry)
    else Group.responseCodes group;
  Group.methods :=
    if present (method logEntry)
    then addCount (Group.methods group) (method logEntry) (requestCount logEntry)
    else Group.methods group;
  Group.labels :=
    if present (label logEntry)
    then JS.Set_add (label logEntry) (Group.labels group)
    else Group.labels group;
  Group.hasKnownDDoSAttack :=
    if present (label logEntry) && isKnownDDoSAttack (label logEntry)
    then true
    else Group.hasKnownDDoSAttack group
|}.

(** The body of the [forEach]: the group of the key is created when the
    object has none, and updated in place.  A key ends in [_] and a number,
    so it is no property of [Object.prototype]. *)
Definition groupStep (windowMinutes : positive) (ipTimeWindowGroups : list (string * Group.t))
    (logEntry : LogEntry) : list (string * Group.t) :=
  let timeKey := timeKeyOf logEntry windowMinutes in
  let key := keyOf logEntry windowMinutes in
  let group :=
    match JS.get ipTimeWindowGroups key with
    | Some group => group
    | None => newGroup logEntry timeKey
    end in
  JS.set ipTimeWindowGroups key (addEntry group logEntry).

(** [groupByIPAndTime(parsedLogEntries, windowMinutes)]; every call starts
    from the empty object. *)
Definition groupByIPAndTime (parsedLogEntries : list LogEntry) (windowMinutes : positive)
  : list (string * Group.t) :=
  fold_left (groupStep windowMinutes) parsedLogEntries [].

(** The running values of one window's scoring. *)
Record Scoring := {
  suspiciousIndicators : list string;
  riskScore : Z;
  stats : Stats.t;
  groupHasDrDoSDNS : bool;
  groupHasLabeledAttack : bool
}.

Definition applyRule (group : Group.t) (requestFrequency : Q) (sc : Scoring) (rule : Rule.t)
  : Scoring :=
  if Rule.check rule group requestFrequency
  then {| suspiciousIndicators :=
            (suspiciousIndicators sc ++ [Rule.message rule group requestFrequency])%list;
          riskScore := riskScore sc + Rule.risk rule;
          stats := match Rule.statKey rule with
                   | Some k => Stats.incr k (stats sc)
                   | None => stats sc
                   end;
          groupHasDrDoSDNS := groupHasDrDoSDNS sc;
          groupHasLabeledAttack := groupHasLabeledAttack sc |}
  else sc.

(** The body of [labels.forEach]. *)
Definition applyLabel (sc : Scoring) (label : string) : Scoring :=
  let sc1 :=
    if JS.includes label "DrDoS_DNS"
    then {| suspiciousIndicators :=
              (suspiciousIndicators sc ++ ["DrDoS_DNS attack detected (+5 risk)"])%list;
            riskScore := riskScore sc + 5;
            stats := Stats.incrKnownDDoSAttacks (stats sc);
            groupHasDrDoSDNS := true;
            groupHasLabeledAttack := groupHasLabeledAttack sc |}
    else sc in
  if negb (String.eqb (JS.toUpperCase (JS.trim label)) "BENIGN")
  then {| suspiciousIndicators := suspiciousIndicators sc1;
          riskScore := riskScore sc1;
          stats := Stats.incrLabeledAttacks (stats sc1);
          groupHasDrDoSDNS := groupHasDrDoSDNS sc1;
          groupHasLabeledAttack := true |}
  else sc1.

(** The rules, then the labels, of one window.  The guard [labels.size > 0]
    around the [forEach] changes nothing and is left out. *)
Definition scoreWindow (group : Group.t) (analysisStats : Stats.t) : Scoring :=
  let requestFrequency :=
    calculateRequestFrequency (Group.totalRequests group)
                              (Detection.ANALYSIS_WINDOW DETECTION_CONFIG) in
  let sc := fold_left (applyRule group requestFrequency) indicatorRules
              {| suspiciousIndicators := []; riskScore := 0; stats := analysisStats;
                 groupHasDrDoSDNS := false; groupHasLabeledAttack := false |} in
  fold_left applyLabel (Group.labels group) sc.

Definition flaggedEntry (group : Group.t) (sc : Scoring) (now : string) : Flagged.t := {|
  Flagged.sourceIP := Group.sourceIP group;
  Flagged.timestamp := now;
  Flagged.requestCount := Group.totalRequests group;
  Flagged.requestFrequency :=
    calculateRequestFrequency (Group.totalRequests group)
                              (Detection.ANALYSIS_WINDOW DETECTION_CONFIG);
  Flagged.riskScore := riskScore sc;
  Flagged.suspiciousIndicators := suspiciousIndicators sc;
  Flagged.uniquePaths := List.length (Group.uniquePaths group);
  Flagged.uniqueUserAgents := List.length (Group.uniqueUserAgents group);
  Flagged.responseCodes := Group.responseCodes group;
  Flagged.methods := Group.methods group;
  Flagged.labels := Group.labels group;
  Flagged.hasKnownDDoSAttack := Group.hasKnownDDoSAttack group || groupHasDrDoSDNS sc;
  Flagged.entries := firstn 5 (Group.entries group)
|}.

(** The state of the loop over the windows: the flagged list, the statistics
    and the number of times the clock has been read. *)
Record Loop := {
  flagged : list Flagged.t;
  loopStats : Stats.t;
  reads : nat
}.

(** The body of the loop over [Object.values(ipTimeWindowGroups)].  [clock n]
    is what the [n]-th [new Date().toISOString()] of the run returns. *)
Definition analyzeStep (clock : nat -> string) (st : Loop) (ipTimeWindowGroup : Group.t) : Loop :=
  let sc := scoreWindow ipTimeWindowGroup (loopStats st) in
  if riskScore sc >=? 2
  then {| flagged := (flagged st ++ [flaggedEntry ipTimeWindowGroup sc (clock (reads st))])%list;
          loopStats := stats sc;
          reads := S (reads st) |}
  else {| flagged := flagged st; loopStats := stats sc; reads := reads st |}.

(** [new Set(a).size] *)
Definition distinct (a : list string) : list string :=
  fold_left (fun s x => JS.Set_add x s) a [].

Definition initialStats (parsedLogEntries : list LogEntry) : Stats.t := {|
  Stats.totalEntries := List.length parsedLogEntries;
  Stats.uniqueIPs := List.length (distinct (map sourceIP parsedLogEntries));
  Stats.suspiciousIPs := 0;
  Stats.highFrequencyIPs := 0;
  Stats.suspiciousUserAgents := 0;
  Stats.knownDDoSAttacks := 0;
  Stats.labeledAttacks := 0
|}.

(** The windows in the order the loop visits them. *)
Definition windows (parsedLogEntries : list LogEntry) : list Group.t :=
  JS.Object_values
    (groupByIPAndTime parsedLogEntries (Detection.ANALYSIS_WINDOW DETECTION_CONFIG)).

(** The loop, before the flagged list is sorted. *)
Definition analyzeLoop (clock : nat -> string) (parsedLogEntries : list LogEntry) : Loop :=
  fold_left (analyzeStep clock) (windows parsedLogEntries)
    {| flagged := []; loopStats := initialStats parsedLogEntries; reads := 0 |}.

(** [(a, b) => b.riskScore - a.riskScore] *)
Definition byRiskDescending (a b : Flagged.t) : Z :=
  Flagged.riskScore b - Flagged.riskScore a.

Definition analyzeLogsForDDoS (clock : nat -> string) (parsedLogEntries : list LogEntry)
  : AnalysisOutput :=
  let st := analyzeLoop clock parsedLogEntries in
  {| flaggedEntries := JS.sort byRiskDescending (flagged st);
     analysisStats := loopStats st;
     analysisConfig := DETECTION_CONFIG |}.

(** What [analyzeLogsForDDoS] sends to the logger. *)
Definition analyzeLogsForDDoS_log (parsedLogEntries : list LogEntry) : list LogLine :=
  [(info, "Analyzing " ++ JS.Number_toString (Z.of_nat (List.length parsedLogEntries))
          ++ " log entries for DDoS indicators...")].

End Engine.

(** ** Vocabulary of the properties *)

(** The comparison of a sort by descending score. *)
Definition byDescending {A : Type} (score : A -> Z) (a b : A) : Z := score b - score a.

(** A list is in descending order of score. *)
Definition descending {A : Type} (score : A -> Z) : list A -> Prop :=
  StronglySorted (fun a b => score b <= score a).

(** The test for the entries of one score. *)
Definition scored {A : Type} (score : A -> Z) (s : Z) (a : A) : bool := score a =? s.

(** *** Ingestion *)

(** A required column is missing (absent, or empty once trimmed) or holds its
    sentinel once trimmed. *)
Definition missingOrSentinel (v : option string) (sentinel : string) : bool :=
  match v with
  | None => true
  | Some s => String.eqb (JS.trim s) "" || String.eqb (JS.trim s) sentinel
  end.

Definition requiredFieldMissing (data : RawRow) : bool :=
  missingOrSentinel (data (TIMESTAMP (CSV_COLUMNS CONFIG))) "N/A"
  || missingOrSentinel (data (SOURCE_IP (CSV_COLUMNS CONFIG))) "UNKNOWN"
  || missingOrSentinel (data (DEST_IP (CSV_COLUMNS CONFIG))) "UNKNOWN".

(** The normalized entries of the rows that are not rejected, in row order. *)
Definition acceptedEntries (parseFloat : option string -> float) (rows : list RawRow)
  : list LogEntry :=
  map (normalizedLogEntry parseFloat) (filter (fun data => negb (requiredFieldMissing data)) rows).

(** One warning for each rejected row, with the number of the row. *)
Fixpoint skipWarnings (rowNumber : nat) (rows : list RawRow) : list LogLine :=
  match rows with
  | [] => []
  | data :: rows' =>
      ((if requiredFieldMissing data then [(warn, skipMessage rowNumber)] else [])
       ++ skipWarnings (S rowNumber) rows')%list
  end.

(** *** Grouping *)

Definition sumRequestCounts (es : list LogEntry) : Z :=
  fold_right (fun e a => requestCount e + a) 0 es.

(** The running total of the grouper: the request counts added one after
    the other to [total], every sum made a Number. *)
Definition runningTotal (total : Z) (es : list LogEntry) : Z :=
  fold_left (fun a e => JS.add a (requestCount e)) es total.

(** The request counts of a list add up, in magnitude, to a safe integer at
    most: every sum of some of them is an integer that a Number holds. *)
Definition magnitude (es : list LogEntry) : Z :=
  fold_right (fun e a => Z.abs (requestCount e) + a) 0 es.

Definition safeCounts (es : list LogEntry) : Prop :=
  magnitude es <= JS.MAX_SAFE_INTEGER.



(** The entries of all the aggregates, aggregate after aggregate. *)
Definition allEntries (groups : list (string * Group.t)) : list LogEntry :=
  flat_map (fun kg => Group.entries (snd kg)) groups.

(** The entries of a list that fall under a key, in their order. *)
Definition entriesOfKey (getTime : string -> option Z) (windowMinutes : positive)
    (key : string) (es : list LogEntry) : list LogEntry :=
  filter (fun e => String.eqb (keyOf getTime e windowMinutes) key) es.

(** An aggregate holds the entries of its key, in input order, and is what
    the updates of these entries build from the group of the first one. *)
Definition GroupOf (getTime : string -> option Z) (windowMinutes : positive)
    (es : list LogEntry) (kg : string * Group.t) : Prop :=
  Group.entries (snd kg) = entriesOfKey getTime windowMinutes (fst kg) es /\
  exists e0 rest,
    Group.entries (snd kg) = e0 :: rest /\
    snd kg = fold_left addEntry (e0 :: rest)
               (newGroup e0 (timeKeyOf getTime e0 windowMinutes)).

Definition GroupsOf (getTime : string -> option Z) (windowMinutes : positive)
    (es : list LogEntry) (groups : list (string * Group.t)) : Prop :=
  NoDup (map fst groups) /\
  Forall (GroupOf getTime windowMinutes es) groups /\
  Permutation (allEntries groups) es.

(** *** Scoring *)

(** The request frequency the rules see for a window. *)
Definition frequencyOf (g : Group.t) : Q :=
  calculateRequestFrequency (Group.totalRequests g)
                            (Detection.ANALYSIS_WINDOW DETECTION_CONFIG).

(** The rules that fire for a window, and the sum of their weights. *)
Definition firedRules (g : Group.t) : list Rule.t :=
  filter (fun rule => Rule.check rule g (frequencyOf g)) indicatorRules.

Definition ruleWeight (g : Group.t) : Z :=
  fold_right Z.add 0 (map Rule.risk (firedRules g)).

(** The distinct labels of a window that carry the marker the label loop
    looks for, and the weight they add. *)
Definition markedLabels (g : Group.t) : list string :=
  filter (fun label => JS.includes label "DrDoS_DNS") (Group.labels g).

Definition labelWeight (g : Group.t) : Z :=
  5 * Z.of_nat (List.length (markedLabels g)).

(** The total risk score of a window: the weights of all the rules and
    labels that fire. *)
Definition totalRisk (g : Group.t) : Z := ruleWeight g + labelWeight g.

(** The weight of what does not look at the frequency: the rules after the
    two frequency rules, and the labels. *)
Definition otherRisk (g : Group.t) : Z :=
  fold_right Z.add 0
    (map Rule.risk (filter (fun rule => Rule.check rule g 0) (skipn 2 indicatorRules)))
  + labelWeight g.

(** A flagged entry reports a window: the address, the total, the labels and
    the first five entries are the window's, and the score is its total
    risk. *)
Definition reports (f : Flagged.t) (g : Group.t) : Prop :=
  Flagged.sourceIP f = Group.sourceIP g /\
  Flagged.requestCount f = Group.totalRequests g /\
  Flagged.riskScore f = totalRisk g /\
  Flagged.labels f = Group.labels g /\
  Flagged.entries f = firstn 5 (Group.entries g).

(** The distinct labels of a window that match a configured known-attack
    label, and the weight they would add at 5 apiece. *)
Definition knownLabels (g : Group.t) : list string :=
  filter isKnownDDoSAttack (Group.labels g).

Definition knownLabelWeight (g : Group.t) : Z :=
  5 * Z.of_nat (List.length (knownLabels g)).

Definition zeroStats : Stats.t := {|
  Stats.totalEntries := 0; Stats.uniqueIPs := 0; Stats.suspiciousIPs := 0;
  Stats.highFrequencyIPs := 0; Stats.suspiciousUserAgents := 0;
  Stats.knownDDoSAttacks := 0; Stats.labeledAttacks := 0
|}.

(** The flagged entry of a window, generated at time [now]. *)
Definition flaggedOf (g : Group.t) (now : string) : Flagged.t :=
  flaggedEntry g (scoreWindow g zeroStats) now.

(** The flagged entries of a list of windows, the [n]-th clock reading of the
    run going to the first. *)
Fixpoint stamp (clock : nat -> string) (n : nat) (gs : list Group.t) : list Flagged.t :=
  match gs with
  | [] => []
  | g :: gs' => flaggedOf g (clock n) :: stamp clock (S n) gs'
  end.

(** The windows whose total risk reaches the threshold. *)
Definition reported (gs : list Group.t) : list Group.t :=
  filter (fun g => 2 <=? totalRisk g) gs.

(** The statistics after a window has been scored. *)
Definition statsStep (s : Stats.t) (g : Group.t) : Stats.t := stats (scoreWindow g s).

(** A flagged entry without its generation timestamp. *)
Definition unstamped (f : Flagged.t) : Flagged.t := {|
  Flagged.sourceIP := Flagged.sourceIP f;
  Flagged.timestamp := "";
  Flagged.requestCount := Flagged.requestCount f;
  Flagged.requestFrequency := Flagged.requestFrequency f;
  Flagged.riskScore := Flagged.riskScore f;
  Flagged.suspiciousIndicators := Flagged.suspiciousIndicators f;
  Flagged.uniquePaths := Flagged.uniquePaths f;
  Flagged.uniqueUserAgents := Flagged.uniqueUserAgents f;
  Flagged.responseCodes := Flagged.responseCodes f;
  Flagged.methods := Flagged.methods f;
  Flagged.labels := Flagged.labels f;
  Flagged.hasKnownDDoSAttack := Flagged.hasKnownDDoSAttack f;
  Flagged.entries := Flagged.entries f
|}.

(** Two scorings that agree on all but the statistics. *)
Definition sameScore (a b : Scoring) : Prop :=
  suspiciousIndicators a = suspiciousIndicators b /\
  riskScore a = riskScore b /\
  groupHasDrDoSDNS a = groupHasDrDoSDNS b /\
  groupHasLabeledAttack a = groupHasLabeledAttack b.

(** *** Windows of CSV records *)

(** An entry with the sentinel in the four application-layer fields. *)
Definition csvShaped (e : LogEntry) : Prop :=
  userAgent e = "N/A" /\ responseCode e = "N/A" /\ method e = "N/A" /\ path e = "N/A".

(** A window that has seen only the sentinel in these fields. *)
Definition csvWindow (g : Group.t) : Prop :=
  Group.uniquePaths g = ["N/A"] /\ Group.uniqueUserAgents g = ["N/A"] /\
  Group.responseCodes g = [] /\ Group.methods g = [].

(** ** Sample data for the concrete runs *)

(** A row shaped like the edge-case rows [generateSampleData] writes, with
    the given forward-packet field. *)
Definition sampleRow (packets : string) : RawRow :=
  row [(" Timestamp", "2024-01-15T10:30:00Z"); (" Source IP", "192.168.1.100");
       (" Destination IP", "10.0.0.1"); (" Total Fwd Packets", packets);
       (" Flow Duration", "0.150"); ("Total Length of Fwd Packets", "1024");
       (" Label", "BENIGN")].

(** An entry of a public address at 10:30, with the given count and label. *)
Definition sampleEntry (count : Z) (attack : string) : LogEntry := {|
  timestamp := "2024-01-15T10:30:00Z";
  sourceIP := "203.0.113.5";
  destinationIP := "10.0.0.1";
  requestCount := count;
  duration := 0.5;
  bytes := 1024;
  label := attack;
  userAgent := "N/A";
  responseCode := "N/A";
  method := "N/A";
  path := "N/A"
|}.

(** An entry of a public address at the given time, with the given count. *)
Definition timedEntry (time : string) (count : Z) : LogEntry := {|
  timestamp := time;
  sourceIP := "203.0.113.5";
  destinationIP := "10.0.0.1";
  requestCount := count;
  duration := 0.5;
  bytes := 1024;
  label := "BENIGN";
  userAgent := "N/A";
  responseCode := "N/A";
  method := "N/A";
  path := "N/A"
|}.

(** An entry of the given address, count and user agent, with no label. *)
Definition agentEntry (ip : string) (count : Z) (agent : string) : LogEntry := {|
  timestamp := "2024-01-15T10:30:00Z";
  sourceIP := ip;
  destinationIP := "10.0.0.1";
  requestCount := count;
  duration := 0.5;
  bytes := 1024;
  label := "N/A";
  userAgent := agent;
  responseCode := "N/A";
  method := "N/A";
  path := "N/A"
|}.

(** What the scenarios look at in an output: the address, the total, the
    score and the indicators of each flagged entry, and the entry count. *)
Definition summary (o : AnalysisOutput)
  : list (string * Z * Z * list string) * nat :=
  (map (fun f => (Flagged.sourceIP f, Flagged.requestCount f, Flagged.riskScore f,
                  Flagged.suspiciousIndicators f)) (flaggedEntries o),
   Stats.totalEntries (analysisStats o)).

(** Two clocks, a minute apart. *)
Definition clockA (n : nat) : string := "2024-01-15T11:00:00.000Z".
Definition clockB (n : nat) : string := "2024-01-15T11:01:00.000Z".

(** ** Vocabulary of the further properties *)

(** The tally of a field over a list of entries: the requests of the entries
    that hold each value of the field, the sentinel and the empty string left
    out. *)
Definition requestsWith (field : LogEntry -> string) (value : string) (es : list LogEntry) : Z :=
  sumRequestCounts (filter (fun e => present (field e) && String.eqb (field e) value) es).

Definition holds (field : LogEntry -> string) (value : string) (es : list LogEntry) : bool :=
  existsb (fun e => present (field e) && String.eqb (field e) value) es.

(** The key of a window, from its fields. *)
Definition windowKey (g : Group.t) : string :=
  Group.sourceIP g ++ "_" ++ JS.toString (Group.timeWindow g).

(** The message of the label loop. *)
Definition markerMessage : string := "DrDoS_DNS attack detected (+5 risk)".

(** The labels of a window that are not [BENIGN], trimmed and in any case. *)
Definition attackLabels (g : Group.t) : list string :=
  filter (fun label => negb (String.eqb (JS.toUpperCase (JS.trim label)) "BENIGN"))
         (Group.labels g).

(** How many elements of a list pass a test. *)
Definition count {X : Type} (p : X -> bool) (l : list X) : nat := List.length (filter p l).

(** The tests of the three rules that feed a counter. *)
Definition highFrequency (g : Group.t) : bool :=
  Qle_bool (inject_Z (Detection.HIGH_FREQUENCY_THRESHOLD DETECTION_CONFIG)) (frequencyOf g).

Definition hasSuspiciousAgent (g : Group.t) : bool :=
  (0 <? List.length (filter isSuspiciousUserAgent (Group.uniqueUserAgents g)))%nat.

Definition hasSuspiciousIP (g : Group.t) : bool := isSuspiciousIP (Group.sourceIP g).

(** The statistics after one more window. *)
Definition statsAfter (s : Stats.t) (g : Group.t) : Stats.t := {|
  Stats.totalEntries := Stats.totalEntries s;
  Stats.uniqueIPs := Stats.uniqueIPs s;
  Stats.suspiciousIPs := (Stats.suspiciousIPs s + Nat.b2n (hasSuspiciousIP g))%nat;
  Stats.highFrequencyIPs := (Stats.highFrequencyIPs s + Nat.b2n (highFrequency g))%nat;
  Stats.suspiciousUserAgents :=
    (Stats.suspiciousUserAgents s + Nat.b2n (hasSuspiciousAgent g))%nat;
  Stats.knownDDoSAttacks := (Stats.knownDDoSAttacks s + List.length (markedLabels g))%nat;
  Stats.labeledAttacks := (Stats.labeledAttacks s + List.length (attackLabels g))%nat
|}.

(** The statistics of a run, from its entries and its windows. *)
Definition statsOf (es : list LogEntry) (ws : list Group.t) : Stats.t := {|
  Stats.totalEntries := List.length es;
  Stats.uniqueIPs := List.length (distinct (map sourceIP es));
  Stats.suspiciousIPs := count hasSuspiciousIP ws;
  Stats.highFrequencyIPs := count highFrequency ws;
  Stats.suspiciousUserAgents := count hasSuspiciousAgent ws;
  Stats.knownDDoSAttacks := list_sum (map (fun g => List.length (markedLabels g)) ws);
  Stats.labeledAttacks := list_sum (map (fun g => List.length (attackLabels g)) ws)
|}.

(** A string that is empty or starts with a character that is no white
    space. *)
Definition headed (s : string) : Prop :=
  match s with
  | EmptyString => True
  | String c _ => JS.isWhiteSpace c = false
  end.

(** The batch the ['end'] handler emits: the entries left, if any. *)
Definition remaining (currentBatch : list LogEntry) : list (list LogEntry) :=
  match currentBatch with
  | [] => []
  | _ :: _ => [currentBatch]
  end.

(** The number of entries of a full batch: the batch size, and one for a
    batch size below one. *)
Definition fullBatch (p : Processor.t) : Z := Z.max 1 (Processor.batchSize p).

(** ** logger.js *)

Module Logger.
Record t := {
  levels : list (string * Z);
  currentLevel : Z
}.

(** The constructor: an unknown level name, and [ERROR], whose number 0 is
    falsy, give the level 1. *)
Definition new (level : string) : t :=
  let levels := [("ERROR", 0); ("WARN", 1); ("INFO", 2); ("DEBUG", 3)] in
  {| levels := levels;
     currentLevel := JS.orNumber (JS.get levels (JS.toUpperCase level)) 1 |}.

(** [log(level, message)]: the prefix of the line printed at time [now], or
    nothing when the level is above the current one. *)
Definition log (lg : t) (now : string) (level : string) : option string :=
  match JS.get (levels lg) level with
  | Some n => if n <=? currentLevel lg then Some ("[" ++ now ++ "] [" ++ level ++ "]") else None
  | None => None
  end.
End Logger.

(** [new Logger(process.env.LOG_LEVEL || 'INFO')] *)
Definition logger (LOG_LEVEL : option string) : Logger.t :=
  Logger.new (match LOG_LEVEL with
              | None => "INFO"
              | Some "" => "INFO"
              | Some level => level
              end).

(** The level a method of the logger passes to [log]. *)
Definition levelName (l : Level) : string :=
  match l with
  | info => "INFO"
  | warn => "WARN"
  | error => "ERROR"
  end.

(** The lines of a log that reach the console. *)
Definition printed (lg : Logger.t) (lines : list LogLine) : list LogLine :=
  filter (fun line => match Logger.log lg "" (levelName (fst line)) with
                      | Some _ => true
                      | None => false
                      end) lines.

Definition isWarning (line : LogLine) : bool :=
  match fst line with
  | warn => true
  | _ => false
  end.

(** ** generateSummaryReport (analyzeLogs.js) *)

Definition nl : string := String (ascii_of_nat 10) EmptyString.

(** [String(n)] for a count. *)
Definition showNat (n : nat) : string := JS.Number_toString (Z.of_nat n).

(** What the [forEach] appends for the flagged entry at [index]. *)
Definition reportEntry (report : string) (indexed : nat * Flagged.t) : string :=
  let '(index, flaggedEntry) := indexed in
  report
  ++ showNat (index + 1) ++ ". IP: " ++ Flagged.sourceIP flaggedEntry
  ++ " (Risk Score: " ++ JS.Number_toString (Flagged.riskScore flaggedEntry) ++ ")" ++ nl
  ++ "   Requests: " ++ JS.Number_toString (Flagged.requestCount flaggedEntry)
  ++ " (" ++ JS.toFixed2 (Flagged.requestFrequency flaggedEntry) ++ " req/min)" ++ nl
  ++ "   Indicators: " ++ JS.join ", " (Flagged.suspiciousIndicators flaggedEntry) ++ nl ++ nl.

Definition generateSummaryReport (analysisOutput : AnalysisOutput) : string :=
  let flaggedEntries := flaggedEntries analysisOutput in
  let analysisStats := analysisStats analysisOutput in
  let report :=
    "=== DDoS Analysis Summary ===" ++ nl ++ nl
    ++ "Total log entries analyzed: " ++ showNat (Stats.totalEntries analysisStats) ++ nl
    ++ "Unique source IPs: " ++ showNat (Stats.uniqueIPs analysisStats) ++ nl
    ++ "Suspicious IPs detected: " ++ showNat (Stats.suspiciousIPs analysisStats) ++ nl
    ++ "High frequency IPs: " ++ showNat (Stats.highFrequencyIPs analysisStats) ++ nl
    ++ "Suspicious user agents: " ++ showNat (Stats.suspiciousUserAgents analysisStats) ++ nl
    ++ "Known DDoS attacks detected: " ++ showNat (Stats.knownDDoSAttacks analysisStats) ++ nl
    ++ "Labeled attack entries: " ++ showNat (Stats.labeledAttacks analysisStats) ++ nl ++ nl in
  if (List.length flaggedEntries =? 0)%nat
  then report ++ "✅ No suspicious activity detected." ++ nl
  else
    fold_left reportEntry
      (combine (seq 0 (List.length flaggedEntries)) flaggedEntries)
      (report ++ "🚨 " ++ showNat (List.length flaggedEntries)
       ++ " suspicious entries detected:" ++ nl ++ nl).

(** ** llmAssist.js *)

Module LLM.

Record Agent := {
  endpoint : string;
  model : string
}.

(** [CONFIG.LLM_AGENTS]: config.js defines no such property, so it is
    [undefined] there; the functions take it as an argument. *)
Definition LLM_AGENTS : option (list Agent) := None.

(** [selectNextAgent], on the module-level [currentAgentIndex], a number
    that is [NaN] ([None]) after a remainder by the length of an empty
    list.  The agent is [undefined] for an index out of range. *)
Definition selectNextAgent (agents : list Agent) (currentAgentIndex : option nat)
  : option Agent * option nat :=
  (match currentAgentIndex with
   | Some i => nth_error agents i
   | None => None
   end,
   match currentAgentIndex, List.length agents with
   | Some i, S n => Some ((i + 1) mod S n)%nat
   | _, _ => None
   end).

(** What [response.json()] gives: a syntax error, or an object with its
    [response] property. *)
Inductive Body :=
| badJson (message : string)
| json (response : option string).

(** What [fetch] settles with: a rejection (a network error, or the abort of
    the time-out), or a response with its [ok] flag, status and body. *)
Inductive FetchResult :=
| rejected (message : string)
| responded (ok : bool) (status : Z) (body : Body).

(** The [try] block after the request: the text returned, or the message of
    the error thrown. *)
Definition readResponse (r : FetchResult) : string + string :=
  match r with
  | rejected message => inl message
  | responded false status _ => inl ("HTTP error! status: " ++ JS.Number_toString status)
  | responded true _ (badJson message) => inl message
  | responded true _ (json None) => inl "Empty response from LLM"
  | responded true _ (json (Some "")) => inl "Empty response from LLM"
  | responded true _ (json (Some text)) => inr text
  end.

(** The run of a query: how the promise settles ([inl] the message of the
    error thrown, [inr] the value returned, [undefined] being [None]), the
    agent index afterwards, the requests sent, the delays slept in
    milliseconds and the attempts that failed with their messages. *)
Record Run := {
  settled : string + option string;
  agentIndex : option nat;
  requests : list (Agent * string);
  slept : list Z;
  warned : list (Z * string)
}.

(** The agent index as a property name, [NaN] being [None]. *)
Definition propertyName (index : option nat) : string :=
  match index with
  | Some i => JS.Number_toString (Z.of_nat i)
  | None => "NaN"
  end.

Section Query.

(** The message of the [TypeError] of reading the property [name] of
    [undefined]. *)
Variable typeError : string -> string.

(** The agents, and what the [attempt]-th [fetch] of the query settles
    with. *)
Variable agents : option (list Agent).
Variable world : Z -> FetchResult.

(** The [try] block of one attempt: the outcome, the agent index afterwards
    and the request sent, if one is. *)
Definition attemptOnce (promptText : string) (attempt : Z) (index : option nat)
  : (string + string) * option nat * list (Agent * string) :=
  match agents with
  | None => (inl (typeError (propertyName index)), index, [])
  | Some l =>
      let '(agent, index') := selectNextAgent l index in
      match agent with
      | None => (inl (typeError "endpoint"), index', [])
      | Some a => (readResponse (world attempt), index', [(a, promptText)])
      end
  end.

(** The [for] loop from [attempt] on, with [remaining] iterations to go. *)
Fixpoint queryLoop (promptText : string) (maxRetries : Z) (remaining : nat) (attempt : Z)
    (index : option nat) : Run :=
  match remaining with
  | O => {| settled := inr None; agentIndex := index; requests := []; slept := [];
            warned := [] |}
  | S remaining' =>
      let '(outcome, index', sent) := attemptOnce promptText attempt index in
      match outcome with
      | inr text =>
          {| settled := inr (Some text); agentIndex := index'; requests := sent;
             slept := []; warned := [] |}
      | inl message =>
          if attempt =? maxRetries
          then {| settled := inl ("LLM query failed after " ++ JS.Number_toString maxRetries
                                  ++ " attempts: " ++ message);
                  agentIndex := index'; requests := sent; slept := [];
                  warned := [(attempt, message)] |}
          else
            let delay := 2 ^ attempt * 1000 in
            let rest := queryLoop promptText maxRetries remaining' (attempt + 1) index' in
            {| settled := settled rest; agentIndex := agentIndex rest;
               requests := (sent ++ requests rest)%list;
               slept := delay :: slept rest;
               warned := (attempt, message) :: warned rest |}
      end
  end.

(** [queryLLM(promptText, options)] with [options.maxRetries]. *)
Definition queryLLM (promptText : string) (maxRetries : option Z) (index : option nat) : Run :=
  let maxRetries := JS.orNumber maxRetries 3 in
  queryLoop promptText maxRetries (Z.to_nat maxRetries) 1 index.

End Query.

End LLM.

(** The delays of the first [k] failed attempts. *)
Definition backoffs (k : nat) : list Z :=
  map (fun a => 2 ^ Z.of_nat a * 1000) (seq 1 k).

(** *** The order of the input *)

(** What a flagged entry says of its window: all of it but the generation
    timestamp and the fields that list values in the order of the
    entries. *)
Definition verdict (f : Flagged.t) : string * Z * Q * Z * nat * nat * bool :=
  (Flagged.sourceIP f, Flagged.requestCount f, Flagged.requestFrequency f,
   Flagged.riskScore f, Flagged.uniquePaths f, Flagged.uniqueUserAgents f,
   Flagged.hasKnownDDoSAttack f).

(** Two aggregates of the same window that hold the same entries in
    another order. *)
Definition alike (g g' : Group.t) : Prop :=
  Group.sourceIP g = Group.sourceIP g' /\
  Group.timeWindow g = Group.timeWindow g' /\
  Permutation (Group.entries g) (Group.entries g') /\
  Group.totalRequests g = Group.totalRequests g' /\
  Permutation (Group.uniquePaths g) (Group.uniquePaths g') /\
  Permutation (Group.uniqueUserAgents g) (Group.uniqueUserAgents g') /\
  Permutation (Group.labels g) (Group.labels g') /\
  Group.hasKnownDDoSAttack g = Group.hasKnownDDoSAttack g' /\
  (forall code, JS.get (Group.responseCodes g) code = JS.get (Group.responseCodes g') code) /\
  (forall m, JS.get (Group.methods g) m = JS.get (Group.methods g') m).

(** ** llmAssist.js: the prompts *)

(** [s || 'N/A'] for a string and [n || 'N/A'] for a number, inside a
    template. *)
Definition stringOrNA (s : string) : string := if String.eqb s "" then "N/A" else s.
Definition numberOrNA (n : Z) : string := if n =? 0 then "N/A" else JS.Number_toString n.

Definition generateDDoSPrompt (flaggedEntry : Flagged.t) (analysisType : string) : string :=
  let basePrompt :=
    "You are a cybersecurity expert. Analyze this suspicious log entry in 2-3 sentences maximum:"
    ++ nl ++ nl
    ++ "IP: " ++ stringOrNA (Flagged.sourceIP flaggedEntry) ++ nl
    ++ "Requests: " ++ numberOrNA (Flagged.requestCount flaggedEntry) ++ nl
    ++ "Time: " ++ stringOrNA (Flagged.timestamp flaggedEntry) ++ nl
    ++ "Risk Score: " ++ numberOrNA (Flagged.riskScore flaggedEntry) ++ nl ++ nl in
  if String.eqb analysisType "explanation"
  then basePrompt
       ++ "Briefly explain why this might indicate a DDoS attack. Keep response under 100 words."
  else if String.eqb analysisType "anomaly"
  then basePrompt
       ++ "Suggest 1-2 specific detection rules for this pattern. Keep response under 100 words."
  else basePrompt
       ++ "Briefly analyze this entry for DDoS indicators. Keep response under 100 words.".

(** The line of [getSummaryAnalysis] for the entry at [index]. *)
Definition summaryLine (indexed : nat * Flagged.t) : string :=
  let '(index, flaggedEntry) := indexed in
  showNat (index + 1) ++ ". IP: " ++ Flagged.sourceIP flaggedEntry
  ++ ", Requests: " ++ JS.Number_toString (Flagged.requestCount flaggedEntry)
  ++ ", Risk: " ++ JS.Number_toString (Flagged.riskScore flaggedEntry).

Definition summaryPrompt (flaggedEntries : list Flagged.t) : string :=
  let entriesSummary :=
    JS.join nl (map summaryLine (combine (seq 0 (List.length flaggedEntries)) flaggedEntries)) in
  "You are a cybersecurity expert. Analyze these suspicious entries in 3-4 sentences maximum:"
  ++ nl ++ nl ++ entriesSummary ++ nl ++ nl
  ++ "Provide a brief threat assessment and 1-2 immediate actions. Keep response under 150 words.".

(** ** ddosDetectionSystem.js: the analysis by the language model *)

Module System.

Definition LF : ascii := ascii_of_nat 10.
Definition CR : ascii := ascii_of_nat 13.

(** [s.replace(/\r?\n/g, '\n')] *)
Fixpoint replaceCRLF (s : string) : string :=
  match s with
  | EmptyString => EmptyString
  | String c t =>
      match t with
      | String d r =>
          if Ascii.eqb c CR && Ascii.eqb d LF
          then String LF (replaceCRLF r)
          else String c (replaceCRLF t)
      | EmptyString => String c EmptyString
      end
  end.

(** [s.replace(/\n{2,}/g, '\n\n')], read from left to right: [written] is
    the number of line feeds of the current run that are in the result, at
    most two. *)
Fixpoint collapseLF (written : nat) (s : string) : string :=
  match s with
  | EmptyString => EmptyString
  | String c r =>
      if Ascii.eqb c LF
      then if (written <? 2)%nat then String LF (collapseLF (S written) r)
           else collapseLF written r
      else String c (collapseLF 0 r)
  end.

(** [formatLLMResponse(title, response)], [undefined] being [None]. *)
Definition formatLLMResponse (title : string) (response : option string) : string :=
  let clean :=
    collapseLF 0 (replaceCRLF (JS.trim (match response with Some r => r | None => "" end))) in
  nl ++ "=== " ++ title ++ " ===" ++ nl ++ clean ++ nl.

(** [a.slice(start, end)] *)
Definition slice {A : Type} (a : list A) (start stop : Z) : list A :=
  let len := Z.of_nat (List.length a) in
  let k := if start <? 0 then Z.max (len + start) 0 else Z.min start len in
  let final := if stop <? 0 then Z.max (len + stop) 0 else Z.min stop len in
  firstn (Z.to_nat (final - k)) (skipn (Z.to_nat k) a).

(** [CONFIG.DEFAULT_MAX_LLM_ANALYSIS] *)
Definition DEFAULT_MAX_LLM_ANALYSIS : Z := 3.

(** What the analysis does to the outside: the lines of [console.log] and
    [console.error], the questions of [rl.question] with their answers, and
    the queries to the language model with the way they settle ([inl] the
    message of the error thrown, [inr] the value returned).  What a query
    itself logs and sends is in its [LLM.Run]. *)
Inductive Event :=
| print (line : string)
| printError (line : string)
| asked (query answer : string)
| queried (promptText : string) (outcome : string + option string).

(** The numbers of queries and of questions so far. *)
Record Counters := { queries : nat; questions : nat }.

Section Analysis.

(** How the [n]-th query of the run settles, and the answer to the [n]-th
    question. *)
Variable llm : nat -> string -> string + option string.
Variable answer : nat -> string.

Definition entryHeader (number total : Z) (flaggedEntry : Flagged.t) : string :=
  "Entry " ++ JS.Number_toString number ++ "/" ++ JS.Number_toString total
  ++ ": IP " ++ Flagged.sourceIP flaggedEntry
  ++ " (Risk Score: " ++ JS.Number_toString (Flagged.riskScore flaggedEntry) ++ ")".

Definition entryError (number : Z) (message : string) : string :=
  "Error analyzing entry " ++ JS.Number_toString number ++ ": " ++ message.

(** The body of the [for] loop for the entry [i] of the page. *)
Definition analyzeEntry (startIndex total i : Z) (flaggedEntry : Flagged.t) (n : nat)
  : list Event * nat :=
  let header := print (entryHeader (startIndex + i + 1) total flaggedEntry) in
  let explainPrompt := generateDDoSPrompt flaggedEntry "explanation" in
  match llm n explainPrompt with
  | inl message =>
      ([header; queried explainPrompt (inl message);
        printError (entryError (startIndex + i + 1) message)], S n)
  | inr explanation =>
      let suggestPrompt := generateDDoSPrompt flaggedEntry "anomaly" in
      match llm (S n) suggestPrompt with
      | inl message =>
          ([header; queried explainPrompt (inr explanation);
            print (formatLLMResponse "AI Analysis" explanation);
            queried suggestPrompt (inl message);
            printError (entryError (startIndex + i + 1) message)], S (S n))
      | inr suggestions =>
          ([header; queried explainPrompt (inr explanation);
            print (formatLLMResponse "AI Analysis" explanation);
            queried suggestPrompt (inr suggestions);
            print (formatLLMResponse "AI Suggestions" suggestions)], S (S n))
      end
  end.

Fixpoint analyzeEntries (startIndex total i : Z) (entriesToAnalyze : list Flagged.t) (n : nat)
  : list Event * nat :=
  match entriesToAnalyze with
  | [] => ([], n)
  | flaggedEntry :: rest =>
      let '(events, n') := analyzeEntry startIndex total i flaggedEntry n in
      let '(events', n'') := analyzeEntries startIndex total (i + 1) rest n' in
      ((events ++ events')%list, n'')
  end.

(** The batch assessment of a page of more than one entry. *)
Definition assessBatch (entriesToAnalyze : list Flagged.t) (n : nat) : list Event * nat :=
  if (1 <? List.length entriesToAnalyze)%nat
  then
    let promptText := summaryPrompt entriesToAnalyze in
    match llm n promptText with
    | inl message =>
        ([queried promptText (inl message);
          printError ("Error getting summary analysis: " ++ message)], S n)
    | inr summaryAnalysis =>
        ([queried promptText (inr summaryAnalysis);
          print (formatLLMResponse "AI Batch Assessment" summaryAnalysis)], S n)
    end
  else ([], n).

Definition nextQuestion (count : Z) : string :=
  "Analyze the next " ++ JS.Number_toString count ++ " suspicious entries? (y/n): ".

(** [performLLMAnalysis(analysisOptions, startIndex)] with
    [analysisOptions.maxLLMAnalysis]; [fuel] bounds the depth of the
    recursion, and [None] says that it did not suffice. *)
Fixpoint performLoop (fuel : nat) (analysisOutput : option AnalysisOutput)
    (maxLLMAnalysis : option Z) (startIndex : Z) (c : Counters)
  : option (list Event * Counters) :=
  match fuel with
  | O => None
  | S fuel' =>
      match analysisOutput with
      | None => Some ([print "No suspicious entries found for LLM analysis."], c)
      | Some out =>
          let flaggedEntries := flaggedEntries out in
          if (List.length flaggedEntries =? 0)%nat
          then Some ([print "No suspicious entries found for LLM analysis."], c)
          else
            let total := Z.of_nat (List.length flaggedEntries) in
            let batchSize := JS.orNumber maxLLMAnalysis DEFAULT_MAX_LLM_ANALYSIS in
            let endIndex := Z.min (startIndex + batchSize) total in
            let entriesToAnalyze := slice flaggedEntries startIndex endIndex in
            if (List.length entriesToAnalyze =? 0)%nat
            then Some ([print "No more suspicious entries to analyze."], c)
            else
              let heading :=
                print ("Analyzing suspicious entries " ++ JS.Number_toString (startIndex + 1)
                       ++ "-" ++ JS.Number_toString endIndex ++ " of "
                       ++ JS.Number_toString total ++ "...") in
              let '(entryEvents, n1) :=
                analyzeEntries startIndex total 0 entriesToAnalyze (queries c) in
              let '(batchEvents, n2) := assessBatch entriesToAnalyze n1 in
              let page := (heading :: entryEvents ++ batchEvents)%list in
              if endIndex <? total
              then
                let reply := answer (questions c) in
                let question :=
                  asked (nextQuestion (Z.min batchSize (total - endIndex))) reply in
                let c' := {| queries := n2; questions := S (questions c) |} in
                if JS.startsWith (JS.toLowerCase reply) "y"
                then
                  match performLoop fuel' analysisOutput maxLLMAnalysis endIndex c' with
                  | Some (events, c'') => Some ((page ++ question :: events)%list, c'')
                  | None => None
                  end
                else
                  Some ((page ++ [question; print "Stopped further LLM analysis."])%list, c')
              else Some (page, {| queries := n2; questions := questions c |})
      end
  end.

(** The method, with fuel for one call more than the list is long, and one
    to spare: from the index 0 and with a batch size of at least one every
    call but the last moves on by a page that is not empty. *)
Definition performLLMAnalysis (analysisOutput : option AnalysisOutput)
    (maxLLMAnalysis : option Z) (startIndex : Z) (c : Counters)
  : option (list Event * Counters) :=
  let length :=
    match analysisOutput with
    | Some out => List.length (flaggedEntries out)
    | None => O
    end in
  performLoop (length + 2) analysisOutput maxLLMAnalysis startIndex c.

End Analysis.

End System.

(** *** The pages of the analysis by the language model *)

(** The entries a run of the analysis announces, from its [Entry] lines. *)
Definition announced (events : list System.Event) : list string :=
  flat_map (fun event =>
              match event with
              | System.print line => if JS.startsWith line "Entry " then [line] else []
              | _ => []
              end) events.

(** The sections of responses a run prints. *)
Definition sections (events : list System.Event) : list string :=
  flat_map (fun event =>
              match event with
              | System.print line => if JS.startsWith line (nl ++ "=== ") then [line] else []
              | _ => []
              end) events.

(** Whether an answer is a yes, and the number of yes answers in a row from
    question [q] on, among at most [limit] answers. *)
Definition yes (reply : string) : bool := JS.startsWith (JS.toLowerCase reply) "y".

Fixpoint leadingYes (answer : nat -> string) (q limit : nat) : nat :=
  match limit with
  | O => O
  | S limit' => if yes (answer q) then S (leadingYes answer (S q) limit') else O
  end.

(** The entries with their numbers, from [number] on. *)
Fixpoint numbered {A : Type} (number : Z) (l : list A) : list (Z * A) :=
  match l with
  | [] => []
  | x :: l' => (number, x) :: numbered (number + 1) l'
  end.

(** The language model behind the analysis as the program is shipped: every
    query is a [queryLLM(prompt)] with no options, over the agents of
    [CONFIG]; [world n] is what the requests of the [n]-th query would
    settle with. *)
Definition shippedLLM (typeError : string -> string) (world : nat -> Z -> LLM.FetchResult)
    (index : option nat) (n : nat) (promptText : string) : string + option string :=
  LLM.settled (LLM.queryLLM typeError LLM.LLM_AGENTS (world n) promptText None index).

(** The message every query of the shipped program fails with. *)
Definition shippedFailure (typeError : string -> string) (index : option nat) : string :=
  "LLM query failed after 3 attempts: " ++ typeError (LLM.propertyName index).

(** An event of a run in which the language model gave nothing. *)
Definition fruitless (failure : string) (event : System.Event) : Prop :=
  match event with
  | System.print line => JS.startsWith line (nl ++ "=== ") = false
  | System.printError line => exists what, line = what ++ ": " ++ failure
  | System.asked _ _ => True
  | System.queried _ outcome => outcome = inl failure
  end.

(** ** app.js: the command line *)

Module App.

(** [s.endsWith(suffix)] *)
Definition endsWith (s suffix : string) : bool :=
  let n := String.length s in
  let m := String.length suffix in
  (m <=? n)%nat && String.eqb (substring (n - m) m s) suffix.

(** [CONFIG.DEFAULT_SAMPLE_FILE] *)
Definition DEFAULT_SAMPLE_FILE : string := "sample-logs.csv".

(** [analysisOptions]; [outputFile] is [undefined] ([None]) until an
    [--output] with a value sets it. *)
Record Options := {
  useLLM : bool;
  saveResults : bool;
  maxLLMAnalysis : Z;
  outputFile : option string
}.

(** What [main] does, in order: the calls on the system, the lines of
    [console.error], and [process.exit]; [rejected] is [main] ending with an
    error it does not catch, which rejects its promise (the caller,
    [main().catch(console.error)], prints the error); [crash] is Node ending
    the process on an error that no handler takes, while [main] awaits. *)
Inductive Action :=
| showHelp
| testLLMConnection
| generateSampleData (outputFile : string) (numEntries : Z)
| consoleError (line : string)
| close
| exit (code : Z)
| runAnalysis (logFilePath : string) (analysisOptions : Options)
| rejected (message : string)
| crash.

(** How the call of [runAnalysis] ends: it returns; it throws an error of
    the given message (its promise is rejected); or the promise is never
    settled, because an ['error'] event without a listener ends the
    process: [parseCSVLogs] listens to the errors of the parser, not to
    those of the file stream it reads. *)
Inductive Outcome :=
| completed
| thrown (message : string)
| uncaught.

(** The [for] loop over the arguments ends [main] ([stopped]) or leaves the
    options and the path ([parsed]). *)
Inductive Parsed :=
| stopped (actions : list Action)
| parsed (analysisOptions : Options) (logFilePath : option string).

Definition invalidSample : string :=
  "Invalid number of entries for --generate-sample. Must be a positive integer.".
Definition invalidMaxLLM : string :=
  "Invalid value for --max-llm. Must be a positive integer.".

(** [!logFilePath]: [null] and the empty string are falsy. *)
Definition noPath (logFilePath : option string) : bool :=
  match logFilePath with
  | None => true
  | Some p => String.eqb p ""
  end.

(** The loop from the argument [args[i]] on, [args] being the arguments from
    [i] on.  [generateSampleData] builds the file in a string and writes it
    with [fs.writeFileSync]: it returns, or it throws an error, of the
    message [sampleError]; nothing in [main] catches that error. *)
Fixpoint parseArgs (sampleError : option string) (args : list string) (o : Options)
    (logFilePath : option string) : Parsed :=
  match args with
  | [] => parsed o logFilePath
  | arg :: rest =>
      if String.eqb arg "--help" || String.eqb arg "-h"
      then stopped [showHelp; close; exit 0]
      else if String.eqb arg "--test-llm"
      then stopped [testLLMConnection; close; exit 0]
      else if String.eqb arg "--generate-sample"
      then
        let sampleFile :=
          match nth_error rest 0 with
          | None => DEFAULT_SAMPLE_FILE
          | Some "" => DEFAULT_SAMPLE_FILE
          | Some name => name
          end in
        let sampleFile :=
          if negb (String.eqb sampleFile "")
             && negb (endsWith (JS.toLowerCase sampleFile) ".csv")
          then sampleFile ++ ".csv" else sampleFile in
        match JS.parseInt (nth_error rest 1) with
        | Some numEntries =>
            if numEntries <=? 0
            then stopped [consoleError invalidSample; close; exit 1]
            else
              match sampleError with
              | None => stopped [generateSampleData sampleFile numEntries; close; exit 0]
              | Some message =>
                  stopped [generateSampleData sampleFile numEntries; rejected message]
              end
        | None => stopped [consoleError invalidSample; close; exit 1]
        end
      else if String.eqb arg "--no-llm"
      then parseArgs sampleError rest
             {| useLLM := false; saveResults := saveResults o;
                maxLLMAnalysis := maxLLMAnalysis o; outputFile := outputFile o |}
             logFilePath
      else if String.eqb arg "--no-save"
      then parseArgs sampleError rest
             {| useLLM := useLLM o; saveResults := false;
                maxLLMAnalysis := maxLLMAnalysis o; outputFile := outputFile o |}
             logFilePath
      else if String.eqb arg "--max-llm"
      then
        match JS.parseInt (nth_error rest 0) with
        | Some maxLLM =>
            if maxLLM <=? 0
            then stopped [consoleError invalidMaxLLM]
            else
              let o' := {| useLLM := useLLM o; saveResults := saveResults o;
                           maxLLMAnalysis := maxLLM; outputFile := outputFile o |} in
              match rest with
              | [] => parsed o' logFilePath
              | _ :: rest' => parseArgs sampleError rest' o' logFilePath
              end
        | None => stopped [consoleError invalidMaxLLM]
        end
      else if String.eqb arg "--output"
      then
        let o' := {| useLLM := useLLM o; saveResults := saveResults o;
                     maxLLMAnalysis := maxLLMAnalysis o; outputFile := nth_error rest 0 |} in
        match rest with
        | [] => parsed o' logFilePath
        | _ :: rest' => parseArgs sampleError rest' o' logFilePath
        end
      else
        parseArgs sampleError rest o
          (if noPath logFilePath && negb (JS.startsWith arg "--")
           then Some arg else logFilePath)
  end.

(** [main()], for the arguments after the script name; [sampleError] is the
    error of [generateSampleData], if any, [existsSync] says
    which files exist, and [outcome] how the call of [runAnalysis] ends.
    [process.exit] in the [catch] block ends the process before the
    [finally] block closes the system. *)
Definition main (sampleError : option string) (existsSync : string -> bool)
    (outcome : Outcome) (args : list string) : list Action :=
  match parseArgs sampleError args
          {| useLLM := true; saveResults := true;
             maxLLMAnalysis := System.DEFAULT_MAX_LLM_ANALYSIS; outputFile := None |}
          None with
  | stopped actions => actions
  | parsed analysisOptions logFilePath =>
      match logFilePath with
      | Some path =>
          if String.eqb path ""
          then [consoleError "Please provide a CSV log file path.";
                consoleError "Usage: node app.js <log-file.csv> [options]";
                consoleError "Use --help for more information."; close; exit 1]
          else if negb (existsSync path)
          then [consoleError ("Log file not found: " ++ path);
                consoleError "Use --generate-sample to create sample data for testing.";
                close; exit 1]
          else
            match outcome with
            | completed => [runAnalysis path analysisOptions; close]
            | thrown message =>
                [runAnalysis path analysisOptions;
                 consoleError ("Fatal error during analysis: " ++ message); exit 1]
            | uncaught => [runAnalysis path analysisOptions; crash]
            end
      | None =>
          [consoleError "Please provide a CSV log file path.";
           consoleError "Usage: node app.js <log-file.csv> [options]";
           consoleError "Use --help for more information."; close; exit 1]
      end
  end.

End App.

(** *** The command line *)

(** What the loop over the arguments keeps of the options and the path it
    started from, and where the rest comes from. *)
Definition parsedFrom (args : list string) (o : App.Options) (p : option string)
    (o' : App.Options) (p' : option string) : Prop :=
  (1 <= App.maxLLMAnalysis o -> 1 <= App.maxLLMAnalysis o') /\
  (App.useLLM o' = false -> App.useLLM o = false \/ In "--no-llm" args) /\
  (App.saveResults o' = false -> App.saveResults o = false \/ In "--no-save" args) /\
  (forall f, App.outputFile o' = Some f ->
             App.outputFile o = Some f \/ (In "--output" args /\ In f args)) /\
  (forall x, p' = Some x ->
             p = Some x \/ (In x args /\ JS.startsWith x "--" = false)).

(** *** The layout of a response *)

(** No line feed of [s] is the third of a run, when [run] line feeds come
    right before [s]: the text has no two blank lines in a row. *)
Fixpoint spaced (run : nat) (s : string) : bool :=
  match s with
  | EmptyString => true
  | String c r =>
      if Ascii.eqb c System.LF then (run <? 2)%nat && spaced (S run) r else spaced 0 r
  end.

(** The characters of a text other than line feeds and carriage returns. *)
Fixpoint inked (s : string) : string :=
  match s with
  | EmptyString => EmptyString
  | String c r =>
      if Ascii.eqb c System.LF || Ascii.eqb c System.CR then inked r else String c (inked r)
  end.

(** A text without carriage returns. *)
Fixpoint unixText (s : string) : bool :=
  match s with
  | EmptyString => true
  | String c r => negb (Ascii.eqb c System.CR) && unixText r
  end.

(** ** validators.js *)

Module Validators.

(** The regular expressions of the file, without their anchors: a character
    class [[lo-hi]] (one character when the two are the same), a sequence,
    an alternative [a|b] and an option [a?]. *)
Inductive Re :=
| range (lo hi : ascii)
| seq (a b : Re)
| alt (a b : Re)
| opt (a : Re).

(** The backtracking matcher: what is left of [s] after a match of [re] at
    its start, in the order in which the matcher tries (the left alternative
    first, the option taken first). *)
Fixpoint matches (re : Re) (s : string) : list string :=
  match re with
  | range lo hi =>
      match s with
      | String c r => if (JS.code lo <=? JS.code c) && (JS.code c <=? JS.code hi) then [r] else []
      | EmptyString => []
      end
  | seq a b => flat_map (matches b) (matches a s)
  | alt a b => (matches a s ++ matches b s)%list
  | opt a => (matches a s ++ [s])%list
  end.

(** [/^re$/.test(s)]: some match ends at the end of [s]. *)
Definition test (re : Re) (s : string) : bool :=
  existsb (String.eqb "") (matches re s).

Definition char (c : ascii) : Re := range c c.

(** [(?:25[0-5]|2[0-4][0-9]|[01]?[0-9][0-9]?)] *)
Definition octet : Re :=
  alt (seq (char "2") (seq (char "5") (range "0" "5")))
      (alt (seq (char "2") (seq (range "0" "4") (range "0" "9")))
           (seq (opt (range "0" "1")) (seq (range "0" "9") (opt (range "0" "9"))))).

(** [(?:octet\.){3}octet] *)
Definition ipRegex : Re :=
  seq (seq (seq octet (char "."))
           (seq (seq octet (char ".")) (seq octet (char "."))))
      octet.

(** [validateIPAddress(ip)]; [None] is a value that is no string. *)
Definition validateIPAddress (ip : option string) : bool :=
  match ip with
  | None => false
  | Some EmptyString => false
  | Some s => test ipRegex (JS.trim s)
  end.

End Validators.

(** *** Addresses *)

(** The strings a regular expression stands for. *)
Fixpoint lang (re : Validators.Re) (p : string) : Prop :=
  match re with
  | Validators.range lo hi =>
      exists c, p = String c EmptyString /\ JS.code lo <= JS.code c <= JS.code hi
  | Validators.seq a b => exists p1 p2, p = p1 ++ p2 /\ lang a p1 /\ lang b p2
  | Validators.alt a b => lang a p \/ lang b p
  | Validators.opt a => p = EmptyString \/ lang a p
  end.

(** The number a string of decimal digits stands for, after [acc]. *)
Fixpoint decimal (acc : Z) (s : string) : Z :=
  match s with
  | EmptyString => acc
  | String c r => decimal (acc * 10 + (JS.code c - 48)) r
  end.

(** One to three decimal digits that stand for a number up to 255. *)
Definition octetText (s : string) : Prop :=
  JS.allDigits s = true /\ (1 <= String.length s <= 3)%nat /\ decimal 0 s <= 255.

(** * Properties *)

(** ** Objects, sets and the sort *)

Module JSFacts.
Import JS.

Section ObjFacts.
Context {V : Type}.
Implicit Types (o : list (string * V)) (k : string) (v : V).

Lemma get_None_notin o k : get o k = None -> ~ In k (map fst o).
Proof.
  induction o as [|[k' v'] o IH]; simpl; [tauto|].
  destruct (String.eqb k k') eqn:E; [discriminate|].
  intros Hg [Hk | Hin]; [|now apply IH].
  subst k'. now rewrite String.eqb_refl in E.
Qed.

(** An assignment either appends a new property or replaces, in place, the
    value of the first (and only) property of that name. *)
Lemma set_cases o k v :
  (get o k = None /\ set o k v = (o ++ [(k, v)])%list) \/
  (exists o1 v0 o2,
      o = (o1 ++ (k, v0) :: o2)%list /\ ~ In k (map fst o1) /\
      get o k = Some v0 /\ set o k v = (o1 ++ (k, v) :: o2)%list).
Proof.
  induction o as [|[k' v'] o IH]; simpl.
  - left. split; reflexivity.
  - destruct (String.eqb k k') eqn:E.
    + apply String.eqb_eq in E. subst k'. right.
      exists [], v', o. simpl. repeat split; auto.
    + apply String.eqb_neq in E.
      destruct IH as [[Hg Hs] | (o1 & v0 & o2 & Ho & Hn & Hg & Hs)].
      * left. split; [assumption|]. now rewrite Hs.
      * right. exists ((k', v') :: o1), v0, o2. simpl.
        rewrite Hs. subst o. repeat split; auto.
        intros [Hk | Hin]; [now apply E | now apply Hn].
Qed.

Lemma Object_entries_plain o :
  Forall (fun e => arrayIndex (fst e) = None) o -> Object_entries o = o.
Proof.
  intros H. unfold Object_entries.
  assert (H1 : fold_right (fun e acc =>
                 match arrayIndex (fst e) with
                 | Some n => insertIndex n e acc
                 | None => acc
                 end) [] o = []).
  { induction H as [|e o He _ IH]; simpl; [reflexivity|]. now rewrite He. }
  rewrite H1. simpl.
  induction H as [|e o He _ IH]; simpl; [reflexivity|].
  rewrite He. f_equal. apply IH.
  clear - H1 He. simpl in H1. now rewrite He in H1.
Qed.

Lemma Object_values_plain o :
  Forall (fun e => arrayIndex (fst e) = None) o -> Object_values o = map snd o.
Proof. intros H. unfold Object_values. now rewrite Object_entries_plain. Qed.
End ObjFacts.

Lemma allDigits_underscore a b : allDigits (a ++ String "_" b) = false.
Proof.
  induction a as [|c a IH]; simpl; [reflexivity|].
  rewrite IH. apply andb_false_r.
Qed.

(** A name with an underscore in it is no array index. *)
Lemma arrayIndex_underscore a b : arrayIndex (a ++ "_" ++ b) = None.
Proof.
  unfold arrayIndex.
  destruct (a ++ "_" ++ b) eqn:E; [reflexivity|].
  rewrite <- E. change (a ++ "_" ++ b) with (a ++ String "_" b).
  now rewrite allDigits_underscore.
Qed.

Lemma Set_add_In x y s : In y (Set_add x s) <-> y = x \/ In y s.
Proof.
  unfold Set_add. destruct (existsb (String.eqb x) s) eqn:E.
  - split; [tauto|]. intros [-> | H]; [|assumption].
    apply existsb_exists in E. destruct E as (z & Hz & Ez).
    apply String.eqb_eq in Ez. now subst z.
  - rewrite in_app_iff. simpl. split; intros H; intuition.
Qed.

Lemma Set_add_NoDup x s : NoDup s -> NoDup (Set_add x s).
Proof.
  intros H. unfold Set_add. destruct (existsb (String.eqb x) s) eqn:E; [assumption|].
  apply NoDup_app; [assumption | constructor; [simpl; tauto | constructor] |].
  intros y Hy [<- | []].
  assert (existsb (String.eqb x) s = true); [|congruence].
  apply existsb_exists. exists x. split; [assumption | apply String.eqb_refl].
Qed.

(** *** The sort by descending score *)

Section SortFacts.
Context {A : Type} (score : A -> Z).

Lemma insert_perm x l : Permutation (insert (byDescending score) x l) (l ++ [x]).
Proof.
  induction l as [|y l IH]; simpl; [reflexivity|].
  destruct (byDescending score y x <=? 0).
  - now apply perm_skip.
  - change (x :: y :: l) with ([x] ++ (y :: l))%list.
    change (y :: (l ++ [x])%list) with ((y :: l) ++ [x])%list.
    apply Permutation_app_comm.
Qed.

Lemma insert_descending x l :
  descending score l -> descending score (insert (byDescending score) x l).
Proof.
  unfold descending. induction l as [|y l IH]; simpl; intros H.
  - constructor; constructor.
  - apply StronglySorted_inv in H. destruct H as [Hl Hy].
    destruct (byDescending score y x <=? 0) eqn:E; unfold byDescending in E.
    + apply Z.leb_le in E. constructor; [now apply IH|].
      apply (Permutation_Forall (Permutation_sym (insert_perm x l))).
      apply Forall_app. split; [assumption|]. constructor; [lia | constructor].
    + apply Z.leb_gt in E. constructor.
      * constructor; assumption.
      * constructor; [lia|].
        eapply Forall_impl; [|exact Hy]. simpl. intros; lia.
Qed.

(** The stability of an insertion: the entries of any one score keep their
    order, the new entry after the old ones. *)
Lemma insert_stable s x l :
  descending score l ->
  filter (scored score s) (insert (byDescending score) x l)
  = (filter (scored score s) l ++ filter (scored score s) [x])%list.
Proof.
  unfold descending. induction l as [|y l IH]; simpl; intros H; [reflexivity|].
  apply StronglySorted_inv in H. destruct H as [Hl Hy].
  destruct (byDescending score y x <=? 0) eqn:E; unfold byDescending in E; simpl.
  - rewrite (IH Hl). simpl. now destruct (scored score s y).
  - apply Z.leb_gt in E.
    destruct (scored score s x) eqn:Ex; [|now rewrite app_nil_r].
    unfold scored in Ex. apply Z.eqb_eq in Ex.
    assert (Hy' : scored score s y = false) by (apply Z.eqb_neq; lia).
    assert (Hn : filter (scored score s) l = []).
    { clear - Hy Ex E. induction Hy as [|z l Hz _ IHl]; simpl; [reflexivity|].
      replace (scored score s z) with false; [assumption|].
      symmetry. apply Z.eqb_neq. lia. }
    now rewrite Hy', Hn.
Qed.

Lemma sort_spec acc l :
  descending score acc ->
  let r := fold_left (fun acc' x => insert (byDescending score) x acc') l acc in
  descending score r /\ Permutation r (acc ++ l) /\
  forall s, filter (scored score s) r
            = (filter (scored score s) acc ++ filter (scored score s) l)%list.
Proof.
  revert acc. induction l as [|x l IH]; simpl; intros acc Hacc.
  - rewrite app_nil_r. repeat split; auto. intros. now rewrite app_nil_r.
  - destruct (IH (insert (byDescending score) x acc) (insert_descending x acc Hacc))
      as (H1 & H2 & H3).
    repeat split; [assumption | |].
    + rewrite H2, (insert_perm x acc), <- app_assoc. reflexivity.
    + intros s. rewrite H3, (insert_stable s x acc Hacc), <- app_assoc.
      simpl. now destruct (scored score s x).
Qed.

(** [sort] orders by descending score, loses and adds nothing, and is
    stable. *)
Lemma sort_descending_stable l :
  descending score (sort (byDescending score) l) /\
  Permutation (sort (byDescending score) l) l /\
  forall s, filter (scored score s) (sort (byDescending score) l) = filter (scored score s) l.
Proof.
  unfold sort. apply (sort_spec [] l). constructor.
Qed.
End SortFacts.

(** A sort commutes with a map that keeps the comparison. *)
Lemma sort_map {A B : Type} (cmpA : A -> A -> Z) (cmpB : B -> B -> Z) (f : A -> B) :
  (forall a b, cmpB (f a) (f b) = cmpA a b) ->
  forall l, map f (sort cmpA l) = sort cmpB (map f l).
Proof.
  intros Hc. unfold sort.
  assert (Hi : forall x l, map f (insert cmpA x l) = insert cmpB (f x) (map f l)).
  { intros x l. induction l as [|y l IH]; simpl; [reflexivity|].
    rewrite Hc. destruct (cmpA y x <=? 0); simpl; [now rewrite IH | reflexivity]. }
  assert (Hf : forall l acc,
             map f (fold_left (fun acc x => insert cmpA x acc) l acc)
             = fold_left (fun acc x => insert cmpB x acc) (map f l) (map f acc)).
  { induction l as [|x l IH]; simpl; intros acc; [reflexivity|].
    now rewrite IH, Hi. }
  intros l. apply (Hf l []).
Qed.

End JSFacts.

(** ** Numbers *)

Section NumberFacts.

(** A safe integer is its own Number value. *)
Lemma toDouble_exact z : Z.abs z <= JS.MAX_SAFE_INTEGER -> JS.toDouble z = z.
Proof.
  unfold JS.MAX_SAFE_INTEGER, JS.toDouble. intros H. cbv zeta.
  destruct (Z.leb_spec (Z.log2 (Z.abs z) - 52) 0) as [_ | He]; [reflexivity|].
  exfalso.
  assert (Hpos : 0 < Z.abs z).
  { destruct (Z.eq_dec (Z.abs z) 0) as [E|]; [rewrite E in He; cbn in He; lia | lia]. }
  assert (Hlt : Z.abs z < 2 ^ 53) by lia.
  apply Z.log2_lt_pow2 in Hlt; lia.
Qed.

(** The Number value for an integer other than 0 is not 0. *)
Lemma toDouble_nonzero z : z <> 0 -> JS.toDouble z <> 0.
Proof.
  intros Hz. unfold JS.toDouble. cbv zeta.
  destruct (Z.leb_spec (Z.log2 (Z.abs z) - 52) 0) as [_ | He]; [assumption|].
  set (a := Z.abs z) in *. set (e := Z.log2 a - 52) in *.
  assert (Ha : 0 < a) by (unfold a; lia).
  assert (Hulp : 0 < 2 ^ e) by (apply Z.pow_pos_nonneg; lia).
  assert (Hq : 1 <= a / 2 ^ e).
  { apply Z.div_le_lower_bound; [assumption|]. rewrite Z.mul_1_r.
    transitivity (2 ^ Z.log2 a); [apply Z.pow_le_mono_r; lia | now apply Z.log2_spec]. }
  assert (Hq' : 1 <= (if a mod 2 ^ e <? 2 ^ e / 2 then a / 2 ^ e
                      else if 2 ^ e / 2 <? a mod 2 ^ e then a / 2 ^ e + 1
                      else if Z.even (a / 2 ^ e) then a / 2 ^ e else a / 2 ^ e + 1)).
  { destruct (_ <? _); [assumption|]. destruct (_ <? _); [lia|].
    destruct (Z.even _); lia. }
  intros H. apply Z.mul_eq_0 in H. destruct H as [H | H]; [apply Z.sgn_null_iff in H; lia|].
  apply Z.mul_eq_0 in H. lia.
Qed.

(** Below the overflow magnitude the Number value is finite. *)
Lemma toDouble_finite z : Z.abs z < JS.OVERFLOW -> Z.abs (JS.toDouble z) <= JS.MAX_VALUE.
Proof.
  intros H. unfold JS.toDouble. cbv zeta.
  set (a := Z.abs z) in *.
  assert (Hover : JS.OVERFLOW < 2 ^ 1024) by (vm_compute; reflexivity).
  assert (Hmax : 2 ^ 1023 <= JS.MAX_VALUE) by (vm_compute; discriminate).
  destruct (Z.leb_spec (Z.log2 a - 52) 0) as [He | He].
  - fold a.
    assert (a < 2 ^ 53).
    { destruct (Z.eq_dec a 0) as [-> | Hn]; [reflexivity|].
      apply Z.log2_lt_pow2; unfold a in *; lia. }
    assert (2 ^ 53 <= 2 ^ 1023) by (apply Z.pow_le_mono_r; lia). lia.
  - assert (Ha : 0 < a).
    { destruct (Z.eq_dec a 0) as [E | Hn]; [rewrite E in He; cbn in He; lia | unfold a in *; lia]. }
    destruct (Z.log2_spec a Ha) as [Hlo Hhi].
    assert (HL : Z.log2 a < 1024) by (apply Z.log2_lt_pow2; lia).
    set (e := Z.log2 a - 52) in *.
    assert (Hulp : 0 < 2 ^ e) by (apply Z.pow_pos_nonneg; lia).
    assert (Hsucc : 2 ^ Z.succ (Z.log2 a) = 2 ^ 53 * 2 ^ e).
    { rewrite <- Z.pow_add_r by lia. f_equal. unfold e. lia. }
    pose proof (Z.div_mod a (2 ^ e) ltac:(lia)) as Hdm.
    pose proof (Z.mod_pos_bound a (2 ^ e) Hulp) as Hr.
    set (q := a / 2 ^ e) in *. set (r := a mod 2 ^ e) in *.
    assert (Hq0 : 0 <= q) by (apply Z.div_pos; lia).
    assert (Hq : q < 2 ^ 53).
    { apply (Z.mul_lt_mono_pos_r (2 ^ e)); [assumption|]. lia. }
    set (q' := if r <? 2 ^ e / 2 then q
               else if 2 ^ e / 2 <? r then q + 1
               else if Z.even q then q else q + 1).
    assert (Hq' : 0 <= q' /\ q' <= q + 1 /\ (r < 2 ^ e / 2 -> q' = q)).
    { unfold q'. destruct (Z.ltb_spec r (2 ^ e / 2)); [lia|].
      destruct (Z.ltb_spec (2 ^ e / 2) r); [lia|]. destruct (Z.even q); lia. }
    clearbody q'. destruct Hq' as (Hq'0 & Hq'1 & Hq'2).
    assert (Hres : q' * 2 ^ e <= JS.MAX_VALUE).
    { destruct (Z.eq_dec (Z.log2 a) 1023) as [E | E].
      - assert (Ee : e = 971) by (unfold e; lia).
        rewrite Ee in *. clear Hsucc Hlo Hhi.
        unfold JS.MAX_VALUE. unfold JS.OVERFLOW in *.
        change (2 ^ 971 / 2) with (2 ^ 970) in *.
        change (2 ^ 53) with 9007199254740992 in *.
        replace (2 ^ 1024) with (9007199254740992 * 2 ^ 971) in * by (vm_compute; reflexivity).
        replace (2 ^ 971) with (2 * 2 ^ 970) in * by (vm_compute; reflexivity).
        assert (0 < 2 ^ 970) by (vm_compute; reflexivity).
        generalize dependent (2 ^ 970). intros u. intros. 
        destruct (Z.lt_ge_cases r u); [rewrite Hq'2 by assumption; nia|].
        assert (q + 1 <= 9007199254740991) by nia.
        assert (q' * (2 * u) <= 9007199254740991 * (2 * u))
          by (apply Z.mul_le_mono_nonneg_r; lia).
        lia.
      - assert (e <= 970) by (unfold e; lia).
        assert (2 ^ e <= 2 ^ 970) by (apply Z.pow_le_mono_r; lia).
        transitivity (2 ^ 53 * 2 ^ 970).
        + apply Z.mul_le_mono_nonneg; lia.
        + rewrite <- Z.pow_add_r by lia. exact Hmax. }
    destruct z as [|p|p]; [unfold a in Ha; cbn in Ha; lia | |]; cbn [Z.sgn].
    + rewrite Z.mul_1_l, Z.abs_eq; [exact Hres | nia].
    + rewrite Z.abs_neq; nia.
Qed.

Lemma toDouble_0 : JS.toDouble 0 = 0.
Proof. reflexivity. Qed.

Lemma magnitude_nonneg es : 0 <= magnitude es.
Proof. induction es as [|e es IH]; cbn [magnitude fold_right]; [lia|]. fold (magnitude es). lia. Qed.

Lemma magnitude_cons e es : magnitude (e :: es) = Z.abs (requestCount e) + magnitude es.
Proof. reflexivity. Qed.

Lemma magnitude_app es1 es2 : magnitude (es1 ++ es2) = magnitude es1 + magnitude es2.
Proof.
  induction es1 as [|e es1 IH]; [reflexivity|].
  cbn [app]. rewrite !magnitude_cons, IH. lia.
Qed.

Lemma magnitude_filter (p : LogEntry -> bool) es : magnitude (filter p es) <= magnitude es.
Proof.
  induction es as [|e es IH]; [reflexivity|].
  cbn [filter]. destruct (p e); rewrite ?magnitude_cons; lia.
Qed.

Lemma magnitude_perm es es' : Permutation es es' -> magnitude es = magnitude es'.
Proof.
  induction 1 as [|x l l' _ IH|x y l|l l' l'' _ IH1 _ IH2]; rewrite ?magnitude_cons; lia.
Qed.

Lemma sumRequestCounts_bound es : Z.abs (sumRequestCounts es) <= magnitude es.
Proof.
  induction es as [|e es IH]; [reflexivity|].
  rewrite magnitude_cons. cbn [sumRequestCounts fold_right]. fold (sumRequestCounts es). lia.
Qed.

(** Below the largest safe integer the running total is the sum. *)
Lemma runningTotal_exact es : forall total,
  Z.abs total + magnitude es <= JS.MAX_SAFE_INTEGER ->
  runningTotal total es = total + sumRequestCounts es.
Proof.
  induction es as [|e es IH]; intros total H.
  - cbn. lia.
  - rewrite magnitude_cons in H. pose proof (magnitude_nonneg es).
    cbn [runningTotal fold_left]. fold (runningTotal (JS.add total (requestCount e)) es).
    unfold JS.add. rewrite toDouble_exact by lia.
    rewrite IH by lia. cbn [sumRequestCounts fold_right]. fold (sumRequestCounts es). lia.
Qed.

End NumberFacts.

(** ** The window grouper *)

Section GrouperFacts.

Variable getTime : string -> option Z.
Variable windowMinutes : positive.

Lemma addEntry_entries es g :
  Group.entries (fold_left addEntry es g) = (Group.entries g ++ es)%list.
Proof.
  revert g. induction es as [|e es IH]; intros g; simpl.
  - now rewrite app_nil_r.
  - rewrite IH. simpl. now rewrite <- app_assoc.
Qed.

Lemma addEntry_totalRequests es g :
  Group.totalRequests (fold_left addEntry es g) = runningTotal (Group.totalRequests g) es.
Proof.
  revert g. induction es as [|e es IH]; intros g; [reflexivity|].
  cbn [fold_left runningTotal]. fold (runningTotal (JS.add (Group.totalRequests g)
                                                           (requestCount e)) es).
  now rewrite IH.
Qed.

Lemma entriesOfKey_app k es1 es2 :
  entriesOfKey getTime windowMinutes k (es1 ++ es2)
  = (entriesOfKey getTime windowMinutes k es1 ++ entriesOfKey getTime windowMinutes k es2)%list.
Proof. apply filter_app. Qed.

Lemma entriesOfKey_other k e :
  keyOf getTime e windowMinutes <> k -> entriesOfKey getTime windowMinutes k [e] = [].
Proof.
  intros H. unfold entriesOfKey. simpl.
  destruct (String.eqb (keyOf getTime e windowMinutes) k) eqn:E; [|reflexivity].
  apply String.eqb_eq in E. contradiction.
Qed.

Lemma entriesOfKey_same e :
  entriesOfKey getTime windowMinutes (keyOf getTime e windowMinutes) [e] = [e].
Proof. unfold entriesOfKey. simpl. now rewrite String.eqb_refl. Qed.

(** An entry that was grouped has its key among the keys of the object. *)
Lemma GroupsOf_key_In es G e :
  GroupsOf getTime windowMinutes es G -> In e es ->
  In (keyOf getTime e windowMinutes) (map fst G).
Proof.
  intros (_ & HF & HP) He.
  apply (Permutation_in _ (Permutation_sym HP)) in He.
  unfold allEntries in He. apply in_flat_map in He. destruct He as ([k g] & Hin & He).
  rewrite Forall_forall in HF. destruct (HF _ Hin) as [Hent _]. simpl in *.
  rewrite Hent in He. apply filter_In in He. destruct He as [_ He].
  apply String.eqb_eq in He. rewrite He. now apply (in_map fst _ (k, g)).
Qed.

Lemma GroupOf_other es e kg :
  keyOf getTime e windowMinutes <> fst kg ->
  GroupOf getTime windowMinutes es kg -> GroupOf getTime windowMinutes (es ++ [e]) kg.
Proof.
  intros Hk [H1 H2]. split; [|assumption].
  now rewrite entriesOfKey_app, entriesOfKey_other, app_nil_r.
Qed.

Lemma perm_snoc_middle {A : Type} (a b c : list A) (x : A) :
  Permutation (a ++ (b ++ [x]) ++ c) ((a ++ b ++ c) ++ [x]).
Proof.
  rewrite <- !app_assoc. do 2 apply Permutation_app_head.
  apply (Permutation_app_comm [x] c).
Qed.

(** One iteration of the loop keeps the grouping exact. *)
Lemma groupStep_GroupsOf es G e :
  GroupsOf getTime windowMinutes es G ->
  GroupsOf getTime windowMinutes (es ++ [e]) (groupStep getTime windowMinutes G e).
Proof.
  intros HG. pose proof HG as (HND & HF & HP).
  unfold groupStep.
  set (k := keyOf getTime e windowMinutes).
  destruct (JSFacts.set_cases G k
              (addEntry match JS.get G k with
                        | Some group => group
                        | None => newGroup e (timeKeyOf getTime e windowMinutes)
                        end e))
    as [[Hg Hs] | (G1 & g & G2 & HGeq & Hn1 & Hg & Hs)];
    rewrite Hs; rewrite Hg; clear Hs; unfold k in *; clear k.
  - (* a new key *)
    apply JSFacts.get_None_notin in Hg.
    assert (Hnone : entriesOfKey getTime windowMinutes (keyOf getTime e windowMinutes) es = []).
    { unfold entriesOfKey.
      destruct (filter (fun e0 => String.eqb (keyOf getTime e0 windowMinutes)
                                   (keyOf getTime e windowMinutes)) es)
        as [|e1 l] eqn:E; [reflexivity|].
      assert (H1 : In e1 (e1 :: l)) by (left; reflexivity).
      rewrite <- E in H1. apply filter_In in H1. destruct H1 as [H1 H2].
      apply String.eqb_eq in H2. exfalso. apply Hg. rewrite <- H2.
      now apply (GroupsOf_key_In es). }
    repeat split.
    + rewrite map_app. simpl. apply NoDup_app; [assumption | | ].
      * constructor; [simpl; tauto | constructor].
      * intros k' Hk' [<- | []]. contradiction.
    + apply Forall_app. split.
      * rewrite Forall_forall in HF |- *. intros kg Hin.
        apply GroupOf_other; [|now apply HF].
        intros Hk. apply Hg.  rewrite Hk. now apply in_map.
      * constructor; [|constructor]. split; simpl.
        -- now rewrite entriesOfKey_app, Hnone, entriesOfKey_same.
        -- exists e, []. split; reflexivity.
    + unfold allEntries in *. rewrite flat_map_app. simpl.
      now apply Permutation_app_tail.
  - (* a key the object has *)
    subst G. rewrite map_app in HND. simpl in HND.
    pose proof (NoDup_remove_2 _ _ _ HND) as Hn.
    apply Forall_app in HF. destruct HF as [HF1 HF2].
    apply Forall_cons_iff in HF2. destruct HF2 as [[Hent (e0 & rest & He0 & Hfold)] HF2].
    simpl in Hent, He0, Hfold.
    repeat split.
    + rewrite map_app. simpl. assumption.
    + apply Forall_app. split; [|constructor].
      * rewrite Forall_forall in HF1 |- *. intros kg Hin.
        apply GroupOf_other; [|now apply HF1].
        intros Hk. apply Hn. apply in_or_app. left.  rewrite Hk.
        now apply in_map.
      * split; simpl.
        -- now rewrite entriesOfKey_app, <- Hent, entriesOfKey_same.
        -- exists e0, (rest ++ [e])%list. split.
           ++ now rewrite He0.
           ++ change (e0 :: rest ++ [e])%list with ((e0 :: rest) ++ [e])%list.
              rewrite fold_left_app. simpl. now rewrite <- Hfold.
      * rewrite Forall_forall in HF2 |- *. intros kg Hin.
        apply GroupOf_other; [|now apply HF2].
        intros Hk. apply Hn. apply in_or_app. right.  rewrite Hk.
        now apply in_map.
    + unfold allEntries in *. rewrite flat_map_app in *.
      etransitivity; [|apply Permutation_app_tail; exact HP].
      apply (perm_snoc_middle (flat_map (fun kg => Group.entries (snd kg)) G1)
                              (Group.entries g)).
Qed.

Lemma groupByIPAndTime_snoc es e :
  groupByIPAndTime getTime (es ++ [e]) windowMinutes
  = groupStep getTime windowMinutes (groupByIPAndTime getTime es windowMinutes) e.
Proof. unfold groupByIPAndTime. now rewrite fold_left_app. Qed.

Lemma groupByIPAndTime_GroupsOf es :
  GroupsOf getTime windowMinutes es (groupByIPAndTime getTime es windowMinutes).
Proof.
  induction es as [|e es IH] using rev_ind.
  - repeat split; simpl; constructor.
  - rewrite groupByIPAndTime_snoc. now apply groupStep_GroupsOf.
Qed.

End GrouperFacts.

(** ** The scoring of one window *)

Section ScoringFacts.

Lemma fold_left_related {S X : Type} (R : S -> S -> Prop) (f : S -> X -> S) (l : list X) :
  (forall a b x, R a b -> R (f a x) (f b x)) ->
  forall a b, R a b -> R (fold_left f l a) (fold_left f l b).
Proof.
  intros Hf. induction l as [|x l IH]; simpl; intros a b Hab; [assumption|].
  apply IH. now apply Hf.
Qed.

Lemma applyRule_sameScore g q a b rule :
  sameScore a b -> sameScore (applyRule g q a rule) (applyRule g q b rule).
Proof.
  unfold sameScore, applyRule. intros (H1 & H2 & H3 & H4).
  destruct (Rule.check rule g q); simpl; repeat split; congruence.
Qed.

Lemma applyLabel_sameScore a b l :
  sameScore a b -> sameScore (applyLabel a l) (applyLabel b l).
Proof.
  unfold sameScore, applyLabel. intros (H1 & H2 & H3 & H4).
  destruct (JS.includes l "DrDoS_DNS");
    destruct (negb (String.eqb (JS.toUpperCase (JS.trim l)) "BENIGN"));
    simpl; repeat split; congruence.
Qed.

(** The statistics a window is scored under leave its score alone. *)
Lemma scoreWindow_sameScore g s1 s2 : sameScore (scoreWindow g s1) (scoreWindow g s2).
Proof.
  unfold scoreWindow.
  apply fold_left_related; [intros; now apply applyLabel_sameScore|].
  apply fold_left_related; [intros; now apply applyRule_sameScore|].
  repeat split.
Qed.

Lemma flaggedEntry_flaggedOf g s now :
  flaggedEntry g (scoreWindow g s) now = flaggedOf g now.
Proof.
  unfold flaggedOf, flaggedEntry.
  destruct (scoreWindow_sameScore g s zeroStats) as (H1 & H2 & H3 & H4).
  now rewrite H1, H2, H3.
Qed.

Lemma applyRule_risk g q rules sc :
  riskScore (fold_left (applyRule g q) rules sc)
  = riskScore sc
    + fold_right Z.add 0 (map Rule.risk (filter (fun rule => Rule.check rule g q) rules)).
Proof.
  revert sc. induction rules as [|rule rules IH]; intros sc; simpl; [lia|].
  rewrite IH. unfold applyRule.
  destruct (Rule.check rule g q); simpl; lia.
Qed.

Lemma applyLabel_risk labels sc :
  riskScore (fold_left applyLabel labels sc)
  = riskScore sc
    + 5 * Z.of_nat (List.length (filter (fun label => JS.includes label "DrDoS_DNS") labels)).
Proof.
  revert sc. induction labels as [|l labels IH]; intros sc.
  - simpl. lia.
  - cbn [fold_left filter]. rewrite IH. unfold applyLabel.
    destruct (JS.includes l "DrDoS_DNS");
      destruct (negb (String.eqb (JS.toUpperCase (JS.trim l)) "BENIGN"));
      cbn [riskScore List.length]; lia.
Qed.

(** The score the loop accumulates is the total of the weights that fire. *)
Lemma scoreWindow_risk g s : riskScore (scoreWindow g s) = totalRisk g.
Proof.
  unfold scoreWindow. rewrite applyLabel_risk, applyRule_risk.
  reflexivity.
Qed.

Lemma flaggedOf_riskScore g now : Flagged.riskScore (flaggedOf g now) = totalRisk g.
Proof. unfold flaggedOf. simpl. apply scoreWindow_risk. Qed.

Lemma analyzeStep_flagged clock st g :
  flagged (analyzeStep clock st g)
  = (flagged st ++ stamp clock (reads st) (reported [g]))%list
  /\ reads (analyzeStep clock st g) = (reads st + List.length (reported [g]))%nat
  /\ loopStats (analyzeStep clock st g) = statsStep (loopStats st) g.
Proof.
  unfold analyzeStep, reported. simpl.
  rewrite scoreWindow_risk, flaggedEntry_flaggedOf, Z.geb_leb.
  destruct (2 <=? totalRisk g); simpl.
  - repeat split. lia.
  - rewrite app_nil_r. repeat split. lia.
Qed.

Lemma stamp_app clock n gs1 gs2 :
  stamp clock n (gs1 ++ gs2)
  = (stamp clock n gs1 ++ stamp clock (n + List.length gs1) gs2)%list.
Proof.
  revert n. induction gs1 as [|g gs1 IH]; intros n; simpl.
  - now rewrite Nat.add_0_r.
  - rewrite IH. now rewrite Nat.add_succ_r.
Qed.

Lemma reported_cons g gs : reported (g :: gs) = (reported [g] ++ reported gs)%list.
Proof. unfold reported. simpl. now destruct (2 <=? totalRisk g). Qed.

(** The loop over the windows flags, in their order, exactly those whose
    total risk reaches 2. *)
Lemma analyzeLoop_fold clock gs st :
  flagged (fold_left (analyzeStep clock) gs st)
  = (flagged st ++ stamp clock (reads st) (reported gs))%list
  /\ reads (fold_left (analyzeStep clock) gs st) = (reads st + List.length (reported gs))%nat
  /\ loopStats (fold_left (analyzeStep clock) gs st) = fold_left statsStep gs (loopStats st).
Proof.
  revert st. induction gs as [|g gs IH]; intros st.
  - simpl. rewrite app_nil_r. repeat split. lia.
  - cbn [fold_left].
    destruct (IH (analyzeStep clock st g)) as (H1 & H2 & H3).
    destruct (analyzeStep_flagged clock st g) as (S1 & S2 & S3).
    rewrite H1, H2, H3, S1, S2, S3.
    rewrite (reported_cons g gs).
    rewrite stamp_app, length_app, <- app_assoc.
    repeat split. lia.
Qed.

Lemma stamp_unstamped clock n gs :
  map unstamped (stamp clock n gs) = map (fun g => unstamped (flaggedOf g "")) gs.
Proof.
  revert n. induction gs as [|g gs IH]; intros n; simpl; [reflexivity|].
  now rewrite IH.
Qed.

Lemma stamp_In clock n gs f :
  In f (stamp clock n gs) -> exists g now, In g gs /\ f = flaggedOf g now.
Proof.
  revert n. induction gs as [|g gs IH]; intros n; simpl; [tauto|].
  intros [<- | H].
  - exists g, (clock n). split; [now left | reflexivity].
  - destruct (IH _ H) as (g' & now & Hin & ->). exists g', now. split; [now right | reflexivity].
Qed.

Lemma applyRule_indicators g q rules sc :
  suspiciousIndicators (fold_left (applyRule g q) rules sc)
  = (suspiciousIndicators sc
     ++ map (fun rule => Rule.message rule g q)
            (filter (fun rule => Rule.check rule g q) rules))%list.
Proof.
  revert sc. induction rules as [|rule rules IH]; intros sc; simpl.
  - now rewrite app_nil_r.
  - rewrite IH. unfold applyRule.
    destruct (Rule.check rule g q); simpl; [now rewrite <- app_assoc | reflexivity].
Qed.

Lemma applyLabel_indicators labels sc :
  suspiciousIndicators (fold_left applyLabel labels sc)
  = (suspiciousIndicators sc
     ++ repeat markerMessage
          (List.length (filter (fun label => JS.includes label "DrDoS_DNS") labels)))%list.
Proof.
  revert sc. induction labels as [|l labels IH]; intros sc.
  - simpl. now rewrite app_nil_r.
  - cbn [fold_left filter]. rewrite IH. unfold applyLabel.
    destruct (JS.includes l "DrDoS_DNS");
      destruct (negb (String.eqb (JS.toUpperCase (JS.trim l)) "BENIGN"));
      cbn [suspiciousIndicators List.length repeat];
      rewrite <- ?app_assoc; reflexivity.
Qed.

Lemma stamp_In_inv clock n gs g :
  In g gs -> exists now, In (flaggedOf g now) (stamp clock n gs).
Proof.
  revert n. induction gs as [|g' gs IH]; intros n Hg; [contradiction|].
  destruct Hg as [-> | Hg].
  - exists (clock n). now left.
  - destruct (IH (S n) Hg) as [now Hn]. exists now. now right.
Qed.

Lemma stamp_length clock n gs : List.length (stamp clock n gs) = List.length gs.
Proof. revert n. induction gs as [|g gs IH]; intros n; simpl; [reflexivity|]. now rewrite IH. Qed.

Lemma flaggedOf_reports g now : reports (flaggedOf g now) g.
Proof.
  unfold reports, flaggedOf. cbn [flaggedEntry Flagged.sourceIP Flagged.requestCount
    Flagged.riskScore Flagged.labels Flagged.entries].
  repeat split. apply scoreWindow_risk.
Qed.

(** The two frequency rules fire from 500 and from 250 requests. *)
Lemma frequency_rules_fire g :
  map (fun rule => Rule.check rule g (frequencyOf g)) (firstn 2 indicatorRules)
  = [500 <=? Group.totalRequests g;
     (250 <=? Group.totalRequests g) && negb (500 <=? Group.totalRequests g)].
Proof.
  unfold frequencyOf, calculateRequestFrequency. cbn [firstn indicatorRules map Rule.check].
  unfold Qle_bool. cbn [Qnum Qden inject_Z DETECTION_CONFIG CONFIG
                        Detection.HIGH_FREQUENCY_THRESHOLD Detection.MEDIUM_FREQUENCY_THRESHOLD
                        Detection.ANALYSIS_WINDOW HIGH_FREQUENCY_THRESHOLD
                        MEDIUM_FREQUENCY_THRESHOLD ANALYSIS_WINDOW].
  rewrite Z.mul_1_r. reflexivity.
Qed.

End ScoringFacts.

(** ** The normalizers *)

Section IngestionFacts.

Variable parseFloat : option string -> float.

(** A trimmed field is its sentinel exactly when the column is missing or
    holds the sentinel. *)
Lemma trimOr_sentinel v d :
  d <> "" -> String.eqb (JS.trimOr v d) d = missingOrSentinel v d.
Proof.
  intros Hd. unfold JS.trimOr, missingOrSentinel.
  destruct v as [s|]; simpl; [|apply String.eqb_refl].
  destruct (JS.trim s) as [|c t] eqn:E; simpl; [apply String.eqb_refl | reflexivity].
Qed.

Lemma rejected_requiredFieldMissing data :
  String.eqb (timestamp (normalizedLogEntry parseFloat data)) "N/A"
  || String.eqb (sourceIP (normalizedLogEntry parseFloat data)) "UNKNOWN"
  || String.eqb (destinationIP (normalizedLogEntry parseFloat data)) "UNKNOWN"
  = requiredFieldMissing data.
Proof.
  unfold requiredFieldMissing. cbn [timestamp sourceIP destinationIP normalizedLogEntry].
  now rewrite !trimOr_sentinel by discriminate.
Qed.

Lemma normalizeLogEntry_cases data rowNumber :
  normalizeLogEntry parseFloat data rowNumber
  = if requiredFieldMissing data
    then (None, [(warn, skipMessage rowNumber)])
    else (Some (normalizedLogEntry parseFloat data), []).
Proof. unfold normalizeLogEntry. now rewrite rejected_requiredFieldMissing. Qed.

Lemma acceptedEntries_cons data rows :
  acceptedEntries parseFloat (data :: rows)
  = ((if requiredFieldMissing data then [] else [normalizedLogEntry parseFloat data])
     ++ acceptedEntries parseFloat rows)%list.
Proof.
  unfold acceptedEntries. simpl. now destruct (requiredFieldMissing data).
Qed.

(** The ['data'] handler of [parseCSVLogs], over all the rows. *)
Lemma parseCSVLogs_data_fold rows st :
  fold_left (parseCSVLogs_data parseFloat) rows st
  = {| parsedResults := (parsedResults st ++ acceptedEntries parseFloat rows)%list;
       rowNumber := (rowNumber st + List.length rows)%nat;
       parseLog := (parseLog st ++ skipWarnings (rowNumber st) rows)%list |}.
Proof.
  revert st. induction rows as [|data rows IH]; intros st.
  - simpl. rewrite !app_nil_r, Nat.add_0_r. now destruct st.
  - cbn [fold_left]. rewrite IH, acceptedEntries_cons. cbn [skipWarnings List.length].
    unfold parseCSVLogs_data. rewrite rejected_requiredFieldMissing.
    destruct (requiredFieldMissing data); cbn [parsedResults rowNumber parseLog];
      rewrite <- ?app_assoc, Nat.add_succ_r; reflexivity.
Qed.

Lemma parseCSVLogs_EndOfFile filePath rows :
  parseCSVLogs parseFloat filePath rows EndOfFile
  = (inr (acceptedEntries parseFloat rows),
     (skipWarnings 1 rows
      ++ [(info, parsedMessage (List.length (acceptedEntries parseFloat rows)) filePath)])%list).
Proof. unfold parseCSVLogs. now rewrite parseCSVLogs_data_fold. Qed.

Lemma batches_app evs1 evs2 : batches (evs1 ++ evs2) = (batches evs1 ++ batches evs2)%list.
Proof. apply flat_map_app. Qed.

(** What has been emitted and what waits in the current batch are, together
    and in order, the entries accepted so far. *)
Lemma process_data_fold rows st :
  let st' := fold_left (process_data parseFloat) rows st in
  (List.concat (batches (emitted st')) ++ Processor.currentBatch (this st'))%list
  = ((List.concat (batches (emitted st)) ++ Processor.currentBatch (this st))
     ++ acceptedEntries parseFloat rows)%list
  /\ procLog st' = (procLog st ++ skipWarnings (procRow st) rows)%list.
Proof.
  revert st. induction rows as [|data rows IH]; intros st.
  - simpl. now rewrite !app_nil_r.
  - cbn [fold_left]. cbv zeta in IH |- *.
    destruct (IH (process_data parseFloat st data)) as [H1 H2].
    rewrite H1, H2, acceptedEntries_cons. cbn [skipWarnings].
    unfold process_data. rewrite normalizeLogEntry_cases.
    destruct (requiredFieldMissing data).
    + cbn [this emitted procLog procRow]. now rewrite <- !app_assoc.
    + destruct (Z.of_nat _ >=? _); cbn [this emitted procLog procRow setBatch
                                        Processor.currentBatch];
        rewrite ?batches_app, ?concat_app; simpl; rewrite ?app_nil_r, <- ?app_assoc;
        split; reflexivity.
Qed.

(** For every batch size, the batches [process] emits are, concatenated in
    emission order, the entries accepted from the rows; the promise is
    fulfilled. *)
Lemma process_batches filePath batchSize rows :
  let '(_, evs, log, result) :=
    process parseFloat (new_StreamingCSVProcessor filePath batchSize) rows EndOfFile in
  List.concat (batches evs) = acceptedEntries parseFloat rows /\
  log = skipWarnings 1 rows /\
  exists n, result = inr n.
Proof.
  unfold process. cbn [new_StreamingCSVProcessor Processor.isProcessing].
  set (st0 := {| this := _; procRow := 1; emitted := []; procLog := [] |}).
  destruct (process_data_fold rows st0) as [H1 H2].
  set (st := fold_left (process_data parseFloat) rows st0) in *.
  simpl in H1, H2. unfold process_end.
  destruct (Processor.currentBatch (this st)) as [|e cur] eqn:E;
    cbn [this emitted procLog]; rewrite batches_app, concat_app; simpl;
    rewrite ?app_nil_r.
  - rewrite app_nil_r in H1. repeat split; [assumption.. | eexists; reflexivity].
  - rewrite batches_app, concat_app. simpl. rewrite app_nil_r.
    repeat split; [assumption.. | eexists; reflexivity].
Qed.

End IngestionFacts.

(** ** The windows the engine scores *)

Section WindowFacts.

Variable getTime : string -> option Z.

Lemma GroupOf_key wm es kg :
  GroupOf getTime wm es kg -> exists e0, In e0 es /\ fst kg = keyOf getTime e0 wm.
Proof.
  intros [H1 (e0 & rest & H2 & _)]. exists e0.
  assert (H : In e0 (entriesOfKey getTime wm (fst kg) es)).
  { rewrite <- H1, H2. now left. }
  apply filter_In in H. destruct H as [Hin Hk].
  apply String.eqb_eq in Hk. auto.
Qed.

Lemma GroupOf_entries_In wm es kg e :
  GroupOf getTime wm es kg -> In e (Group.entries (snd kg)) -> In e es.
Proof.
  intros [H1 _] H. rewrite H1 in H. now apply filter_In in H.
Qed.

(** No key of the object is an array index, so the windows are visited in
    the order in which they were created. *)
Lemma groupByIPAndTime_plain_keys wm es :
  Forall (fun kg : string * Group.t => JS.arrayIndex (fst kg) = None)
         (groupByIPAndTime getTime es wm).
Proof.
  destruct (groupByIPAndTime_GroupsOf getTime wm es) as (_ & HF & _).
  eapply Forall_impl; [|exact HF]. intros kg Hkg.
  destruct (GroupOf_key _ _ _ Hkg) as (e0 & _ & ->).
  apply JSFacts.arrayIndex_underscore.
Qed.

Lemma windows_eq es :
  windows getTime es
  = map snd (groupByIPAndTime getTime es (Detection.ANALYSIS_WINDOW DETECTION_CONFIG)).
Proof.
  unfold windows. apply JSFacts.Object_values_plain, groupByIPAndTime_plain_keys.
Qed.

Lemma windows_In es g :
  In g (windows getTime es) ->
  exists k, In (k, g) (groupByIPAndTime getTime es (Detection.ANALYSIS_WINDOW DETECTION_CONFIG)).
Proof.
  rewrite windows_eq. intros H. apply in_map_iff in H.
  destruct H as ([k g'] & <- & H). now exists k.
Qed.

(** *** Labels *)

Lemma isKnownDDoSAttack_present l : isKnownDDoSAttack l = true -> present l = true.
Proof.
  intros H. unfold present.
  destruct (String.eqb l "") eqn:E1.
  - unfold isKnownDDoSAttack in H. now rewrite E1 in H.
  - destruct (String.eqb l "N/A") eqn:E2; [|reflexivity].
    apply String.eqb_eq in E2. subst l. vm_compute in H. discriminate.
Qed.

Lemma addEntry_labels_NoDup es g :
  NoDup (Group.labels g) -> NoDup (Group.labels (fold_left addEntry es g)).
Proof.
  revert g. induction es as [|e es IH]; intros g H; simpl; [assumption|].
  apply IH. simpl. destruct (present (label e)); [|assumption].
  now apply JSFacts.Set_add_NoDup.
Qed.

Lemma addEntry_known_keeps es g :
  Group.hasKnownDDoSAttack g = true ->
  Group.hasKnownDDoSAttack (fold_left addEntry es g) = true.
Proof.
  revert g. induction es as [|e es IH]; intros g H; simpl; [assumption|].
  apply IH. simpl. rewrite H. now destruct (present (label e) && isKnownDDoSAttack (label e)).
Qed.

Lemma addEntry_labels_keeps es g l :
  In l (Group.labels g) -> In l (Group.labels (fold_left addEntry es g)).
Proof.
  revert g. induction es as [|e es IH]; intros g H; simpl; [assumption|].
  apply IH. simpl. destruct (present (label e)); [|assumption].
  apply JSFacts.Set_add_In. now right.
Qed.

(** An entry with a known-attack label sets the flag of the window it is
    added to, and its label is among the labels of the window. *)
Lemma addEntry_known es g e :
  In e es -> isKnownDDoSAttack (label e) = true ->
  Group.hasKnownDDoSAttack (fold_left addEntry es g) = true
  /\ In (label e) (Group.labels (fold_left addEntry es g)).
Proof.
  revert g. induction es as [|e' es IH]; intros g Hin Hk; [destruct Hin|].
  destruct Hin as [-> | Hin]; [|now apply IH].
  pose proof (isKnownDDoSAttack_present _ Hk) as Hp. simpl. split.
  - apply addEntry_known_keeps. simpl. now rewrite Hp, Hk.
  - apply addEntry_labels_keeps. simpl. rewrite Hp. apply JSFacts.Set_add_In. now left.
Qed.

(** *** Windows of CSV records *)

Lemma normalizedLogEntry_csvShaped parseFloat data :
  csvShaped (normalizedLogEntry parseFloat data).
Proof. repeat split. Qed.

Lemma acceptedEntries_csvShaped parseFloat rows :
  Forall csvShaped (acceptedEntries parseFloat rows).
Proof.
  unfold acceptedEntries. apply Forall_map, Forall_forall. intros data _.
  apply normalizedLogEntry_csvShaped.
Qed.

Lemma addEntry_csvWindow g e : csvShaped e -> csvWindow g -> csvWindow (addEntry g e).
Proof.
  intros (E1 & E2 & E3 & E4) (G1 & G2 & G3 & G4). unfold csvWindow. simpl.
  rewrite E1, E2, E3, E4, G1, G2, G3, G4. repeat split.
Qed.

Lemma addEntry_newGroup_csvWindow e0 tk e :
  csvShaped e -> csvWindow (addEntry (newGroup e0 tk) e).
Proof.
  intros (E1 & E2 & E3 & E4). unfold csvWindow. simpl.
  rewrite E1, E2, E3, E4. repeat split.
Qed.

Lemma fold_addEntry_csvWindow es g :
  Forall csvShaped es -> csvWindow g -> csvWindow (fold_left addEntry es g).
Proof.
  revert g. induction es as [|e es IH]; intros g HF Hg; simpl; [assumption|].
  apply Forall_cons_iff in HF. destruct HF as [He HF].
  apply IH; [assumption|]. now apply addEntry_csvWindow.
Qed.

Lemma GroupOf_csvWindow wm es kg :
  Forall csvShaped es -> GroupOf getTime wm es kg -> csvWindow (snd kg).
Proof.
  intros HF Hkg. pose proof Hkg as [_ (e0 & rest & Hent & Hfold)].
  assert (Hall : Forall csvShaped (e0 :: rest)).
  { rewrite Forall_forall in HF |- *. intros e He. apply HF.
    apply (GroupOf_entries_In _ _ _ _ Hkg). now rewrite Hent. }
  apply Forall_cons_iff in Hall. destruct Hall as [H0 Hrest].
  rewrite Hfold. cbn [fold_left].
  apply fold_addEntry_csvWindow; [assumption|].
  now apply addEntry_newGroup_csvWindow.
Qed.

End WindowFacts.

(** ** The properties of the specification *)

(** Before the sort the flagged list holds, in the order of the windows, the
    entries of the windows whose total risk reaches 2. *)
Lemma analyzeLoop_flagged (getTime : string -> option Z) (clock : nat -> string)
    (es : list LogEntry) :
  flagged (analyzeLoop getTime clock es) = stamp clock 0 (reported (windows getTime es)).
Proof.
  unfold analyzeLoop.
  destruct (analyzeLoop_fold clock (windows getTime es)
              {| flagged := []; loopStats := initialStats es; reads := 0 |})
    as (H1 & _ & _).
  exact H1.
Qed.

(** The sort permutes that list. *)
Lemma flaggedEntries_reported (getTime : string -> option Z) (clock : nat -> string)
    (es : list LogEntry) :
  Permutation (flaggedEntries (analyzeLogsForDDoS getTime clock es))
              (stamp clock 0 (reported (windows getTime es))).
Proof.
  unfold analyzeLogsForDDoS. cbn [flaggedEntries]. rewrite analyzeLoop_flagged.
  apply (JSFacts.sort_descending_stable Flagged.riskScore).
Qed.

(** An accepted entry is the normalized form of a row that is not rejected. *)
Lemma acceptedEntries_In (parseFloat : option string -> float) (rows : list RawRow)
    (e : LogEntry) :
  In e (acceptedEntries parseFloat rows) ->
  exists data, In data rows /\ requiredFieldMissing data = false
               /\ e = normalizedLogEntry parseFloat data.
Proof.
  unfold acceptedEntries. intros He.
  apply in_map_iff in He. destruct He as (data & <- & Hin).
  apply filter_In in Hin. destruct Hin as [Hin Hok].
  exists data. repeat split; [assumption|]. now destruct (requiredFieldMissing data).
Qed.

(** The total of an aggregate is the running total of its entries, and their
    sum when the counts are safe. *)
Lemma GroupOf_totalRequests (getTime : string -> option Z) (wm : positive)
    (es : list LogEntry) (kg : string * Group.t) :
  GroupOf getTime wm es kg ->
  Group.totalRequests (snd kg) = runningTotal 0 (Group.entries (snd kg)) /\
  (safeCounts (Group.entries (snd kg)) ->
   Group.totalRequests (snd kg) = sumRequestCounts (Group.entries (snd kg))) /\
  (safeCounts es -> safeCounts (Group.entries (snd kg))).
Proof.
  intros [Hent (e0 & rest & He0 & Hfold)].
  assert (Ht : Group.totalRequests (snd kg) = runningTotal 0 (Group.entries (snd kg))).
  { rewrite He0. rewrite Hfold at 1. now rewrite addEntry_totalRequests. }
  split; [exact Ht|]. split.
  - intros Hs. rewrite Ht, runningTotal_exact; [lia|].
    unfold safeCounts in Hs. cbn [Z.abs]. lia.
  - unfold safeCounts. rewrite Hent. unfold entriesOfKey.
    pose proof (magnitude_filter (fun e => String.eqb (keyOf getTime e wm) (fst kg)) es). lia.
Qed.

(** C1, as amended. For every list of records, [groupByIPAndTime] places
    each record in exactly one aggregate, without duplication and without
    loss: the keys of the aggregates are distinct, the entries of all the
    aggregates are a permutation of the input, and each aggregate holds
    exactly the input records of its key, in input order.  The
    [totalRequests] of an aggregate is the running total of the
    [requestCount] fields of its entries, every sum a Number; it is their sum
    when the counts of the aggregate add up in magnitude to
    [Number.MAX_SAFE_INTEGER] at most, so for every aggregate when the counts
    of the input do. *)
Theorem groupByIPAndTime_partition
    (getTime : string -> option Z) (windowMinutes : positive) (es : list LogEntry) :
  let groups := groupByIPAndTime getTime es windowMinutes in
  NoDup (map fst groups) /\
  Permutation (allEntries groups) es /\
  Forall (fun kg =>
            Group.entries (snd kg) = entriesOfKey getTime windowMinutes (fst kg) es /\
            Group.totalRequests (snd kg) = runningTotal 0 (Group.entries (snd kg)) /\
            (safeCounts (Group.entries (snd kg)) ->
             Group.totalRequests (snd kg) = sumRequestCounts (Group.entries (snd kg))))
         groups /\
  (safeCounts es ->
   Forall (fun kg => Group.totalRequests (snd kg) = sumRequestCounts (Group.entries (snd kg)))
          groups).
Proof.
  destruct (groupByIPAndTime_GroupsOf getTime windowMinutes es) as (HND & HF & HP).
  cbv zeta.
  assert (HT : Forall (fun kg : string * Group.t =>
                         Group.entries (snd kg) = entriesOfKey getTime windowMinutes (fst kg) es /\
                         Group.totalRequests (snd kg) = runningTotal 0 (Group.entries (snd kg)))
                      (groupByIPAndTime getTime es windowMinutes)).
  { eapply Forall_impl; [|exact HF].
    intros [k g] [Hent (e0 & rest & He0 & Hfold)]. cbn [fst snd] in *.
    split; [assumption|].
    rewrite He0. rewrite Hfold at 1. now rewrite addEntry_totalRequests. }
  split; [assumption|]. split; [assumption|]. split.
  - eapply Forall_impl; [|exact HT].
    intros kg [Hent Htot]. split; [assumption|]. split; [assumption|].
    intros Hsafe. rewrite Htot. rewrite runningTotal_exact; [lia|].
    unfold safeCounts in Hsafe. cbn [Z.abs]. lia.
  - intros Hsafe. eapply Forall_impl; [|exact HT].
    intros kg [Hent Htot]. rewrite Htot. rewrite runningTotal_exact; [lia|].
    rewrite Hent. unfold entriesOfKey.
    pose proof (magnitude_filter
                  (fun e => String.eqb (keyOf getTime e windowMinutes) (fst kg)) es).
    unfold safeCounts in Hsafe. cbn [Z.abs]. lia.
Qed.

(** C1, the claim as stated fails: three rows of one address and one window
    whose forward-packet fields are 9007199254740992 (2^53), 1 and 1 are
    accepted and grouped into one aggregate.  Its running total is 2^53 after
    the first record and stays there, since 2^53 + 1 is no Number and rounds
    back to 2^53; the sum of the three request counts is 2^53 + 2. *)
Lemma totalRequests_rounding_counterexample :
  let rows := [sampleRow "9007199254740992"; sampleRow "1"; sampleRow "1"] in
  let es := acceptedEntries DecimalFloat.parseFloat rows in
  let groups := groupByIPAndTime IsoDate.getTime es (Detection.ANALYSIS_WINDOW DETECTION_CONFIG) in
  map requestCount es = [2 ^ 53; 1; 1] /\
  map (fun kg => Group.entries (snd kg)) groups = [es] /\
  map (fun kg => Group.totalRequests (snd kg)) groups = [2 ^ 53] /\
  map (fun kg => sumRequestCounts (Group.entries (snd kg))) groups = [2 ^ 53 + 2] /\
  ~ Forall (fun kg => Group.totalRequests (snd kg) = sumRequestCounts (Group.entries (snd kg)))
           groups.
Proof.
  cbv zeta.
  assert (H1 : map (fun kg : string * Group.t => Group.totalRequests (snd kg))
                   (groupByIPAndTime IsoDate.getTime
                      (acceptedEntries DecimalFloat.parseFloat
                         [sampleRow "9007199254740992"; sampleRow "1"; sampleRow "1"])
                      (Detection.ANALYSIS_WINDOW DETECTION_CONFIG)) = [2 ^ 53])
    by (vm_compute; reflexivity).
  assert (H2 : map (fun kg : string * Group.t => sumRequestCounts (Group.entries (snd kg)))
                   (groupByIPAndTime IsoDate.getTime
                      (acceptedEntries DecimalFloat.parseFloat
                         [sampleRow "9007199254740992"; sampleRow "1"; sampleRow "1"])
                      (Detection.ANALYSIS_WINDOW DETECTION_CONFIG)) = [2 ^ 53 + 2])
    by (vm_compute; reflexivity).
  split; [vm_compute; reflexivity|]. split; [vm_compute; reflexivity|].
  split; [exact H1|]. split; [exact H2|].
  intros HF.
  destruct (groupByIPAndTime IsoDate.getTime _ _) as [|kg [|kg' l]]; try discriminate.
  inversion HF as [|? ? Hkg _]; subst.
  cbn [map] in H1, H2. injection H1 as H1. injection H2 as H2.
  rewrite H1, H2 in Hkg. vm_compute in Hkg. discriminate.
Qed.

(** C2. A flagged entry is emitted for a window if and only if its total risk
    score, the sum of the weights of the rules and labels that fire, is at
    least 2.  The windows the loop scores are the aggregates of the grouper,
    which hold the input records between them; the score of a window is its
    total risk; the loop appends the entry of a window exactly when that is 2
    or more; so the flagged list holds, up to the sort, one entry for each
    aggregate of total risk 2 or more and nothing else: an aggregate has an
    entry in the list that reports it if and only if its total risk is at
    least 2, and every flagged entry reports such an aggregate.  A window of
    score 1 is never flagged. *)
Theorem flagged_iff_risk_at_least_2
    (getTime : string -> option Z) (clock : nat -> string) (es : list LogEntry) :
  let groups := groupByIPAndTime getTime es (Detection.ANALYSIS_WINDOW DETECTION_CONFIG) in
  let ws := map snd groups in
  let out := flaggedEntries (analyzeLogsForDDoS getTime clock es) in
  windows getTime es = ws /\
  Permutation (allEntries groups) es /\
  (forall g s, riskScore (scoreWindow g s) = totalRisk g) /\
  (forall st g,
      flagged (analyzeStep clock st g)
      = if 2 <=? totalRisk g
        then (flagged st
              ++ [flaggedEntry g (scoreWindow g (loopStats st)) (clock (reads st))])%list
        else flagged st) /\
  Permutation out (stamp clock 0 (filter (fun g => 2 <=? totalRisk g) ws)) /\
  (forall g, In g ws -> (2 <= totalRisk g <-> exists f, In f out /\ reports f g)) /\
  Forall (fun f => 2 <= Flagged.riskScore f /\
                   exists g, In g ws /\ 2 <= totalRisk g /\ reports f g) out /\
  List.length out = List.length (filter (fun g => 2 <=? totalRisk g) ws).
Proof.
  cbv zeta.
  pose proof (flaggedEntries_reported getTime clock es) as HP.
  rewrite windows_eq in HP. unfold reported in HP.
  destruct (groupByIPAndTime_GroupsOf getTime (Detection.ANALYSIS_WINDOW DETECTION_CONFIG) es)
    as (_ & _ & HE).
  set (ws := map snd (groupByIPAndTime getTime es (Detection.ANALYSIS_WINDOW DETECTION_CONFIG)))
    in *.
  assert (HF : Forall (fun f => 2 <= Flagged.riskScore f /\
                               exists g, In g ws /\ 2 <= totalRisk g /\ reports f g)
                      (flaggedEntries (analyzeLogsForDDoS getTime clock es))).
  { apply (Permutation_Forall (Permutation_sym HP)).
    apply Forall_forall. intros f Hf.
    destruct (stamp_In _ _ _ _ Hf) as (g & now & Hg & ->).
    apply filter_In in Hg. destruct Hg as [Hg Hr]. apply Z.leb_le in Hr.
    split; [now rewrite flaggedOf_riskScore|].
    exists g. repeat split; try assumption. apply scoreWindow_risk. }
  split; [apply windows_eq|]. split; [exact HE|]. split; [apply scoreWindow_risk|].
  split; [|split; [exact HP|split; [|split; [exact HF|]]]].
  - intros st g. unfold analyzeStep. cbv zeta. rewrite scoreWindow_risk, Z.geb_leb.
    now destruct (2 <=? totalRisk g).
  - intros g Hg. split.
    + intros Hr.
      assert (Hin : In g (filter (fun g => 2 <=? totalRisk g) ws))
        by (apply filter_In; split; [assumption | now apply Z.leb_le]).
      destruct (stamp_In_inv clock 0 _ _ Hin) as [now Hn].
      exists (flaggedOf g now). split; [|apply flaggedOf_reports].
      apply (Permutation_in _ (Permutation_sym HP) Hn).
    + intros (f & Hf & Hrep).
      rewrite Forall_forall in HF. destruct (HF f Hf) as [H2 _].
      destruct Hrep as (_ & _ & Hs & _). lia.
  - rewrite (Permutation_length HP). apply stamp_length.
Qed.

(** The weight of the rules is that of the frequency rule that fires, by the
    total of the window, and that of the other rules that fire. *)
Lemma ruleWeight_frequency g :
  ruleWeight g
  = (if 500 <=? Group.totalRequests g then 3
     else if 250 <=? Group.totalRequests g then 2 else 0)
    + fold_right Z.add 0
        (map Rule.risk (filter (fun rule => Rule.check rule g 0) (skipn 2 indicatorRules))).
Proof.
  pose proof (frequency_rules_fire g) as H.
  unfold ruleWeight, firedRules.
  cbn [firstn skipn indicatorRules map filter Rule.check] in *.
  assert (H1 : Qle_bool (inject_Z (Detection.HIGH_FREQUENCY_THRESHOLD DETECTION_CONFIG))
                 (frequencyOf g) = (500 <=? Group.totalRequests g)) by congruence.
  assert (H2 : Qle_bool (inject_Z (Detection.MEDIUM_FREQUENCY_THRESHOLD DETECTION_CONFIG))
                 (frequencyOf g)
               && negb (Qle_bool (inject_Z (Detection.HIGH_FREQUENCY_THRESHOLD DETECTION_CONFIG))
                          (frequencyOf g))
               = (250 <=? Group.totalRequests g) && negb (500 <=? Group.totalRequests g))
    by congruence.
  rewrite H2, H1.
  destruct (500 <=? Group.totalRequests g); destruct (250 <=? Group.totalRequests g);
    cbn [andb negb];
    repeat match goal with
           | |- context [if ?b then _ else _] => destruct b
           end;
    cbn [map fold_right Rule.risk]; lia.
Qed.

(** The first indicator of a window of 250 requests or more is the message
    of its frequency rule. *)
Lemma scoreWindow_first_indicator g s :
  250 <= Group.totalRequests g ->
  hd "" (suspiciousIndicators (scoreWindow g s))
  = if 500 <=? Group.totalRequests g
    then ("High request frequency: " ++ JS.toFixed2 (Group.totalRequests g # 5)
          ++ " req/min")%string
    else ("Medium request frequency: " ++ JS.toFixed2 (Group.totalRequests g # 5)
          ++ " req/min")%string.
Proof.
  intros Hm. pose proof (frequency_rules_fire g) as H.
  unfold scoreWindow. rewrite applyLabel_indicators, applyRule_indicators.
  cbn [suspiciousIndicators app].
  fold (frequencyOf g).
  cbn [firstn indicatorRules map filter Rule.check Rule.message] in *.
  assert (H1 : Qle_bool (inject_Z (Detection.HIGH_FREQUENCY_THRESHOLD DETECTION_CONFIG))
                 (frequencyOf g) = (500 <=? Group.totalRequests g)) by congruence.
  assert (H2 : Qle_bool (inject_Z (Detection.MEDIUM_FREQUENCY_THRESHOLD DETECTION_CONFIG))
                 (frequencyOf g)
               && negb (Qle_bool (inject_Z (Detection.HIGH_FREQUENCY_THRESHOLD DETECTION_CONFIG))
                          (frequencyOf g))
               = (250 <=? Group.totalRequests g) && negb (500 <=? Group.totalRequests g))
    by congruence.
  rewrite H2, H1.
  destruct (Z.leb_spec 500 (Group.totalRequests g)); cbn [andb negb map app hd]; [reflexivity|].
  destruct (Z.leb_spec 250 (Group.totalRequests g)); [|lia].
  cbn [andb negb map app hd]. reflexivity.
Qed.

(** C3. The request frequency of a window is its total request count divided
    by the configured window size, 5 minutes, whatever time its records
    span.  The division is [calculateRequestFrequency]; the scoring calls it
    with the total of the window and the configured size, so the score is 3
    from 500 requests, 2 from 250, plus the weight of what does not look at
    the frequency, and the indicator shows the total over 5 (for a total
    below 2^45, where the double of the source has the two decimals of the
    exact quotient); every flagged entry carries the total of its window, the running total of the request
    counts of its entries, and that total over 5.  Two records of 250
    requests four minutes and 59 seconds apart give the frequency of two
    records of one instant.  With 500 requests and the configured window of 5
    minutes the frequency is exactly 100, as a rational and as an IEEE
    double. *)
Theorem requestFrequency_by_configured_window
    (getTime : string -> option Z) (clock : nat -> string) (es : list LogEntry) :
  let ws := map snd (groupByIPAndTime getTime es (Detection.ANALYSIS_WINDOW DETECTION_CONFIG)) in
  let out := flaggedEntries (analyzeLogsForDDoS getTime clock es) in
  Detection.ANALYSIS_WINDOW DETECTION_CONFIG = 5%positive /\
  (forall total w,
      (calculateRequestFrequency total w == inject_Z total / inject_Z (Z.pos w))%Q) /\
  (forall g s,
      riskScore (scoreWindow g s)
      = (if 500 <=? Group.totalRequests g then 3
         else if 250 <=? Group.totalRequests g then 2 else 0)
        + otherRisk g) /\
  (forall g q q',
      map (fun rule => Rule.check rule g q) (skipn 2 indicatorRules)
      = map (fun rule => Rule.check rule g q') (skipn 2 indicatorRules)) /\
  (forall g s,
      250 <= Group.totalRequests g < 2 ^ 45 ->
      hd "" (suspiciousIndicators (scoreWindow g s))
      = if 500 <=? Group.totalRequests g
        then ("High request frequency: " ++ JS.toFixed2 (Group.totalRequests g # 5)
              ++ " req/min")%string
        else ("Medium request frequency: " ++ JS.toFixed2 (Group.totalRequests g # 5)
              ++ " req/min")%string) /\
  (forall g sc now,
      Flagged.requestCount (flaggedEntry g sc now) = Group.totalRequests g /\
      Flagged.requestFrequency (flaggedEntry g sc now) = Group.totalRequests g # 5) /\
  Forall (fun f => exists g,
              In g ws /\
              Group.totalRequests g = runningTotal 0 (Group.entries g) /\
              Flagged.requestCount f = Group.totalRequests g /\
              Flagged.requestFrequency f = Group.totalRequests g # 5 /\
              (Flagged.requestFrequency f
               == inject_Z (runningTotal 0 (Group.entries g)) / 5)%Q)
         out /\
  (forall g, (frequencyOf g
              == inject_Z (Group.totalRequests g) / inject_Z (Z.pos (ANALYSIS_WINDOW CONFIG)))%Q) /\
  (forall g, map (fun rule => Rule.check rule g (frequencyOf g)) (firstn 2 indicatorRules)
             = [500 <=? Group.totalRequests g;
                (250 <=? Group.totalRequests g) && negb (500 <=? Group.totalRequests g)]) /\
  map (fun f => (Flagged.requestCount f, Qeq_bool (Flagged.requestFrequency f) 100,
                 Flagged.suspiciousIndicators f))
      (flaggedEntries
         (analyzeLogsForDDoS IsoDate.getTime clock
            [timedEntry "2024-01-15T10:30:00Z" 250; timedEntry "2024-01-15T10:34:59Z" 250]))
  = [(500, true, ["High request frequency: 100.00 req/min"])] /\
  map (fun f => (Flagged.requestCount f, Qeq_bool (Flagged.requestFrequency f) 100,
                 Flagged.suspiciousIndicators f))
      (flaggedEntries
         (analyzeLogsForDDoS IsoDate.getTime clock
            [timedEntry "2024-01-15T10:30:00Z" 250; timedEntry "2024-01-15T10:30:00Z" 250]))
  = [(500, true, ["High request frequency: 100.00 req/min"])] /\
  (calculateRequestFrequency 500 (ANALYSIS_WINDOW CONFIG) == 100)%Q /\
  JS.toFixed2 (calculateRequestFrequency 500 (ANALYSIS_WINDOW CONFIG)) = "100.00" /\
  calculateRequestFrequency_binary64 500 5 = 100%float.
Proof.
  cbv zeta.
  split; [reflexivity|]. split; [intros total w; apply Qmake_Qdiv|].
  split; [intros g s; rewrite scoreWindow_risk; unfold totalRisk, otherRisk;
          rewrite ruleWeight_frequency; lia|].
  split; [intros g q q'; reflexivity|].
  split; [intros g s [Hg _]; now apply scoreWindow_first_indicator|].
  split; [intros g sc now; split; reflexivity|].
  split.
  { pose proof (flaggedEntries_reported getTime clock es) as HP.
    rewrite windows_eq in HP.
    destruct (groupByIPAndTime_GroupsOf getTime (Detection.ANALYSIS_WINDOW DETECTION_CONFIG) es)
      as (_ & HG & _).
    apply (Permutation_Forall (Permutation_sym HP)).
    apply Forall_forall. intros f Hf.
    destruct (stamp_In _ _ _ _ Hf) as (g & now & Hg & ->).
    apply filter_In in Hg. destruct Hg as [Hg _].
    assert (Ht : Group.totalRequests g = runningTotal 0 (Group.entries g)).
    { apply in_map_iff in Hg. destruct Hg as ([k g'] & Heq & Hin). cbn [snd] in Heq. subst g'.
      rewrite Forall_forall in HG.
      destruct (HG _ Hin) as [_ (e0 & rest & He0 & Hfold)]. cbn [snd] in He0, Hfold.
      rewrite He0. rewrite Hfold at 1. now rewrite addEntry_totalRequests. }
    exists g. split; [assumption|]. split; [assumption|].
    split; [reflexivity|]. split; [reflexivity|].
    unfold flaggedOf. cbn [flaggedEntry Flagged.requestFrequency].
    rewrite <- Ht. apply (Qmake_Qdiv (Group.totalRequests g) 5). }
  split; [intros g; apply Qmake_Qdiv|].
  split; [apply frequency_rules_fire|].
  split; [vm_compute; reflexivity|].
  split; [vm_compute; reflexivity|].
  repeat split.
Qed.

(** C7. The flagged list is sorted by descending total risk score, and the
    sort is stable: the output is a permutation of the flagged entries in
    window-processing order (the order in which the windows were created),
    and for every score the entries of that score are in the output in the
    order in which their windows were processed. *)
Theorem flaggedEntries_sorted_stable
    (getTime : string -> option Z) (clock : nat -> string) (es : list LogEntry) :
  let processed := flagged (analyzeLoop getTime clock es) in
  let out := flaggedEntries (analyzeLogsForDDoS getTime clock es) in
  windows getTime es
  = map snd (groupByIPAndTime getTime es (Detection.ANALYSIS_WINDOW DETECTION_CONFIG)) /\
  processed = stamp clock 0 (reported (windows getTime es)) /\
  descending Flagged.riskScore out /\
  Permutation out processed /\
  forall s, filter (scored Flagged.riskScore s) out = filter (scored Flagged.riskScore s) processed.
Proof.
  cbv zeta. split; [apply windows_eq|]. split; [apply analyzeLoop_flagged|].
  apply (JSFacts.sort_descending_stable Flagged.riskScore).
Qed.

(** C8. A normalizer rejects a row exactly when the timestamp, the source
    address or the destination address is missing (absent, or empty once
    trimmed) or is its sentinel once trimmed.  A rejected row is skipped with
    one warning that carries its row number, and the run goes on: the promise
    of either path is fulfilled with the accepted rows.  A row without the
    source-address column is rejected whatever its other fields, and no
    aggregate holds an entry of a rejected row. *)
Theorem normalizer_rejects_missing_required
    (parseFloat : option string -> float) (data : RawRow) (rowNumber : nat) :
  (fst (normalizeLogEntry parseFloat data rowNumber) = None
   <-> requiredFieldMissing data = true) /\
  normalizeLogEntry parseFloat data rowNumber
  = (if requiredFieldMissing data
     then (None, [(warn, skipMessage rowNumber)])
     else (Some (normalizedLogEntry parseFloat data), [])) /\
  (data (SOURCE_IP (CSV_COLUMNS CONFIG)) = None ->
   fst (normalizeLogEntry parseFloat data rowNumber) = None) /\
  (forall filePath rows,
      parseCSVLogs parseFloat filePath rows EndOfFile
      = (inr (acceptedEntries parseFloat rows),
         (skipWarnings 1 rows
          ++ [(info, parsedMessage (List.length (acceptedEntries parseFloat rows)) filePath)])%list)) /\
  (forall filePath batchSize rows,
      let '(_, evs, log, result) :=
        process parseFloat (new_StreamingCSVProcessor filePath batchSize) rows EndOfFile in
      List.concat (batches evs) = acceptedEntries parseFloat rows /\
      log = skipWarnings 1 rows /\
      exists n, result = inr n) /\
  (forall getTime windowMinutes rows e,
      In e (allEntries (groupByIPAndTime getTime (acceptedEntries parseFloat rows) windowMinutes)) ->
      exists data', In data' rows /\ requiredFieldMissing data' = false
                    /\ e = normalizedLogEntry parseFloat data').
Proof.
  pose proof (normalizeLogEntry_cases parseFloat data rowNumber) as Hc.
  split; [|split; [exact Hc|split; [|split; [|split]]]].
  - rewrite Hc. destruct (requiredFieldMissing data); simpl; split; congruence.
  - intros Hsrc. rewrite Hc. unfold requiredFieldMissing. rewrite Hsrc. simpl.
    now rewrite orb_true_r.
  - apply parseCSVLogs_EndOfFile.
  - apply process_batches.
  - intros getTime windowMinutes rows e He.
    destruct (groupByIPAndTime_GroupsOf getTime windowMinutes (acceptedEntries parseFloat rows))
      as (_ & _ & HP).
    apply (Permutation_in _ HP) in He. now apply acceptedEntries_In.
Qed.

(** C9, as amended. For a forward-packet field that reads as an integer
    below the overflow magnitude of a Number, if as any, the request count
    of a normalized row is a non-zero integer of a finite Number: it is 1
    when the field does not parse or parses to 0, and the parsed Number
    otherwise, of either sign.  The parsed Number is the integer read when
    that is a safe integer, and the nearest double beyond. *)
Theorem requestCount_parse_or_default (parseFloat : option string -> float) (data : RawRow)
    (Hfinite : forall m, JS.mathInt (data (FWD_PACKETS (CSV_COLUMNS CONFIG))) = Some m ->
                         Z.abs m < JS.OVERFLOW) :
  let field := data (FWD_PACKETS (CSV_COLUMNS CONFIG)) in
  let parsed := JS.parseInt field in
  let count := requestCount (normalizedLogEntry parseFloat data) in
  count <> 0 /\
  Z.abs count <= JS.MAX_VALUE /\
  (parsed = None \/ parsed = Some 0 -> count = 1) /\
  (forall n, parsed = Some n -> n <> 0 -> count = n) /\
  (JS.mathInt field = None -> parsed = None /\ count = 1) /\
  (forall m, JS.mathInt field = Some m ->
             parsed = Some (JS.toDouble m) /\
             (m = 0 -> count = 1) /\
             (m <> 0 -> count = JS.toDouble m) /\
             (m <> 0 -> Z.abs m <= JS.MAX_SAFE_INTEGER -> count = m)).
Proof.
  cbv zeta. cbn [requestCount normalizedLogEntry]. unfold JS.parseInt.
  destruct (JS.mathInt (data (FWD_PACKETS (CSV_COLUMNS CONFIG)))) as [m|]; cbn [option_map].
  - assert (Hor : m <> 0 -> JS.orNumber (Some (JS.toDouble m)) 1 = JS.toDouble m).
    { intros Hm. pose proof (toDouble_nonzero m Hm) as Hd.
      unfold JS.orNumber. destruct (JS.toDouble m); [now elim Hd | reflexivity | reflexivity]. }
    assert (H0 : m = 0 -> JS.orNumber (Some (JS.toDouble m)) 1 = 1) by (now intros ->).
    split; [|split; [|split; [|split; [|split]]]].
    + destruct (Z.eq_dec m 0) as [E | E]; [rewrite (H0 E); discriminate|].
      rewrite (Hor E). now apply toDouble_nonzero.
    + destruct (Z.eq_dec m 0) as [E | E]; [rewrite (H0 E); vm_compute; discriminate|].
      rewrite (Hor E). apply toDouble_finite. now apply Hfinite.
    + intros [H | H]; [discriminate|]. injection H as H.
      destruct (Z.eq_dec m 0) as [E | E]; [now apply H0|].
      now elim (toDouble_nonzero m E).
    + intros n H Hn. injection H as <-.
      destruct (Z.eq_dec m 0) as [E | E]; [subst m; now elim Hn|]. now apply Hor.
    + discriminate.
    + intros m' H. injection H as <-.
      split; [reflexivity|]. split; [exact H0|]. split; [exact Hor|].
      intros Hm Hs. rewrite (Hor Hm). now apply toDouble_exact.
  - split; [discriminate|]. split; [vm_compute; discriminate|].
    split; [reflexivity|]. split; [discriminate|].
    split; [now split|]. discriminate.
Qed.

Lemma requestCount_parse_or_default_witness :
  (forall m, JS.mathInt (sampleRow "9007199254740993" (FWD_PACKETS (CSV_COLUMNS CONFIG))) = Some m ->
             Z.abs m < JS.OVERFLOW) /\
  requestCount (normalizedLogEntry DecimalFloat.parseFloat (sampleRow "9007199254740993"))
  = 9007199254740992.
Proof.
  assert (H : forall m,
             JS.mathInt (sampleRow "9007199254740993" (FWD_PACKETS (CSV_COLUMNS CONFIG))) = Some m ->
             Z.abs m < JS.OVERFLOW).
  { intros m Hm. vm_compute in Hm. injection Hm as <-. vm_compute. reflexivity. }
  split; [exact H|].
  destruct (requestCount_parse_or_default DecimalFloat.parseFloat
              (sampleRow "9007199254740993") H) as (_ & _ & _ & _ & _ & H5).
  destruct (H5 9007199254740993 eq_refl) as (_ & _ & H7 & _).
  rewrite H7; [reflexivity | discriminate].
Defined.

(** C9, the claim as stated fails: the row of the sample data whose
    forward-packet field is [-10] is accepted with the request count -10,
    which is not positive, and the row whose field is [0] parses and yet
    gets the default 1. *)
Lemma requestCount_positive_counterexample :
  requiredFieldMissing (sampleRow "-10") = false /\
  JS.parseInt (sampleRow "-10" (FWD_PACKETS (CSV_COLUMNS CONFIG))) = Some (-10) /\
  requestCount (normalizedLogEntry DecimalFloat.parseFloat (sampleRow "-10")) = -10 /\
  ~ 0 < requestCount (normalizedLogEntry DecimalFloat.parseFloat (sampleRow "-10")) /\
  requiredFieldMissing (sampleRow "0") = false /\
  JS.parseInt (sampleRow "0" (FWD_PACKETS (CSV_COLUMNS CONFIG))) = Some 0 /\
  requestCount (normalizedLogEntry DecimalFloat.parseFloat (sampleRow "0")) = 1.
Proof.
  repeat split; try reflexivity. vm_compute. discriminate.
Qed.

(** C10. Every record a CSV normalizer produces carries ['N/A'] for the user
    agent, the response code, the method and the path.  So a window built
    from CSV-normalized records alone has the one path and the one user agent
    ['N/A'] and empty response-code and method tallies, and of the seven
    rules only the two frequency rules and the source-pattern rule can fire:
    the user-agent, response-code, path-diversity and method rules do not. *)
Theorem csv_windows_silence_application_rules
    (parseFloat : option string -> float) (getTime : string -> option Z)
    (rows : list RawRow) (g : Group.t)
    (Hg : In g (windows getTime (acceptedEntries parseFloat rows))) :
  Forall csvShaped (acceptedEntries parseFloat rows) /\
  csvWindow g /\
  List.length (Group.uniquePaths g) = 1%nat /\
  exists high medium pattern,
    map (fun rule => Rule.check rule g (frequencyOf g)) indicatorRules
    = [high; medium; false; pattern; false; false; false].
Proof.
  pose proof (acceptedEntries_csvShaped parseFloat rows) as HF.
  assert (Hw : csvWindow g).
  { destruct (windows_In _ _ _ Hg) as [k Hk].
    destruct (groupByIPAndTime_GroupsOf getTime (Detection.ANALYSIS_WINDOW DETECTION_CONFIG)
                (acceptedEntries parseFloat rows)) as (_ & HG & _).
    rewrite Forall_forall in HG.
    apply (GroupOf_csvWindow getTime _ _ (k, g) HF (HG _ Hk)). }
  split; [exact HF|]. split; [exact Hw|].
  destruct Hw as (G1 & G2 & G3 & G4).
  split; [now rewrite G1|].
  do 3 eexists. cbn [map indicatorRules Rule.check].
  rewrite G1, G2, G3, G4. reflexivity.
Qed.

Lemma csv_windows_witness :
  let rows := [sampleRow "5"; sampleRow "7"] in
  let g := hd (newGroup (sampleEntry 0 "") None)
              (windows IsoDate.getTime (acceptedEntries DecimalFloat.parseFloat rows)) in
  In g (windows IsoDate.getTime (acceptedEntries DecimalFloat.parseFloat rows)) /\
  csvWindow g.
Proof.
  cbv zeta.
  assert (H : In (hd (newGroup (sampleEntry 0 "") None)
                     (windows IsoDate.getTime
                        (acceptedEntries DecimalFloat.parseFloat [sampleRow "5"; sampleRow "7"])))
                 (windows IsoDate.getTime
                    (acceptedEntries DecimalFloat.parseFloat [sampleRow "5"; sampleRow "7"]))).
  { vm_compute. left. reflexivity. }
  split; [exact H|].
  exact (proj1 (proj2 (csv_windows_silence_application_rules
                         DecimalFloat.parseFloat IsoDate.getTime _ _ H))).
Defined.

(** C4, as amended. A record whose label matches a configured known-attack
    label, case-insensitively, sets the known-attack flag of the window that
    holds it, and the flag of the flagged entry of that window.  The labels of
    a window are distinct, and the weight 5 is added once for each of them
    that contains the marker [DrDoS_DNS], in that spelling. *)
Theorem known_label_flag_and_marker_weight
    (getTime : string -> option Z) (windowMinutes : positive) (es : list LogEntry) :
  let groups := groupByIPAndTime getTime es windowMinutes in
  (forall e, In e es -> isKnownDDoSAttack (label e) = true ->
     exists k g, In (k, g) groups /\ In e (Group.entries g)
                 /\ Group.hasKnownDDoSAttack g = true /\ In (label e) (Group.labels g)) /\
  (forall k g, In (k, g) groups -> NoDup (Group.labels g)) /\
  (forall g sc now, Group.hasKnownDDoSAttack g = true ->
                    Flagged.hasKnownDDoSAttack (flaggedEntry g sc now) = true) /\
  (forall g s, riskScore (scoreWindow g s)
               = ruleWeight g + 5 * Z.of_nat (List.length (markedLabels g))).
Proof.
  cbv zeta.
  destruct (groupByIPAndTime_GroupsOf getTime windowMinutes es) as (_ & HF & HP).
  rewrite Forall_forall in HF.
  split; [|split; [|split]].
  - intros e He Hk.
    apply (Permutation_in _ (Permutation_sym HP)) in He.
    unfold allEntries in He. apply in_flat_map in He. destruct He as ([k g] & Hin & He).
    simpl in He. exists k, g.
    destruct (HF _ Hin) as [_ (e0 & rest & Hent & Hfold)]. cbn [snd] in Hent, Hfold.
    rewrite Hent in He.
    destruct (addEntry_known (e0 :: rest)
                (newGroup e0 (timeKeyOf getTime e0 windowMinutes)) e He Hk) as [H1 H2].
    rewrite <- Hfold in H1, H2. rewrite Hent. auto.
  - intros k g Hin.
    destruct (HF _ Hin) as [_ (e0 & rest & _ & Hfold)]. cbn [snd] in Hfold.
    rewrite Hfold. apply addEntry_labels_NoDup. constructor.
  - intros g sc now H. simpl. now rewrite H.
  - intros g s. apply scoreWindow_risk.
Qed.

(** C4, the claim as stated fails: the label [Syn] is a configured
    known-attack label and sets the flag of its window, but it adds no
    weight, where the claim has it add 5; the window scores 0 and is not
    flagged. *)
Lemma known_label_weight_counterexample :
  let es := [sampleEntry 1 "Syn"] in
  isKnownDDoSAttack "Syn" = true /\
  map Group.labels (windows IsoDate.getTime es) = [["Syn"]] /\
  map Group.hasKnownDDoSAttack (windows IsoDate.getTime es) = [true] /\
  map knownLabelWeight (windows IsoDate.getTime es) = [5] /\
  map labelWeight (windows IsoDate.getTime es) = [0] /\
  map totalRisk (windows IsoDate.getTime es) = [0] /\
  flaggedEntries (analyzeLogsForDDoS IsoDate.getTime clockA es) = [].
Proof. vm_compute. repeat split. Qed.



(** Successive calls of [groupByIPAndTime] share nothing: two entries of 300
    requests of one window, handed to two calls, give two windows of 300
    requests that score 2 each, where one call on both gives one window of
    600 requests that scores 3. *)
Example separate_calls_share_nothing :
  let b1 := [sampleEntry 300 "BENIGN"] in
  let b2 := [sampleEntry 300 "BENIGN"] in
  let W := Detection.ANALYSIS_WINDOW DETECTION_CONFIG in
  map (fun kg => Group.totalRequests (snd kg)) (groupByIPAndTime IsoDate.getTime (b1 ++ b2) W)
  = [600] /\
  map (fun kg => Group.totalRequests (snd kg)) (groupByIPAndTime IsoDate.getTime b1 W) = [300] /\
  map (fun kg => Group.totalRequests (snd kg)) (groupByIPAndTime IsoDate.getTime b2 W) = [300] /\
  map Flagged.riskScore (flaggedEntries (analyzeLogsForDDoS IsoDate.getTime clockA (b1 ++ b2)))
  = [3] /\
  map Flagged.riskScore (flaggedEntries (analyzeLogsForDDoS IsoDate.getTime clockA b1)) = [2] /\
  map Flagged.riskScore (flaggedEntries (analyzeLogsForDDoS IsoDate.getTime clockA b2)) = [2].
Proof. vm_compute. repeat split. Qed.

Lemma stamp_timestamp clock n gs :
  map Flagged.timestamp (stamp clock n gs) = map clock (seq n (List.length gs)).
Proof.
  revert n. induction gs as [|g gs IH]; intros n; simpl; [reflexivity|].
  now rewrite IH.
Qed.

(** C6, as amended. The output of the engine is a function of the input
    records, the static configuration and the clock: every flagged entry
    carries, as its generation timestamp, the time at which it was created.
    Apart from these timestamps two runs on the same records agree: the
    flagged entries without their timestamps, the statistics and the echoed
    configuration are the same under any two clocks. *)
Theorem analysis_deterministic_up_to_timestamps
    (getTime : string -> option Z) (clock1 clock2 : nat -> string) (es : list LogEntry) :
  map unstamped (flaggedEntries (analyzeLogsForDDoS getTime clock1 es))
  = map unstamped (flaggedEntries (analyzeLogsForDDoS getTime clock2 es)) /\
  analysisStats (analyzeLogsForDDoS getTime clock1 es)
  = analysisStats (analyzeLogsForDDoS getTime clock2 es) /\
  analysisConfig (analyzeLogsForDDoS getTime clock1 es)
  = analysisConfig (analyzeLogsForDDoS getTime clock2 es) /\
  map Flagged.timestamp (flagged (analyzeLoop getTime clock1 es))
  = map clock1 (seq 0 (List.length (reported (windows getTime es)))).
Proof.
  unfold analyzeLogsForDDoS, analyzeLoop. cbn [flaggedEntries analysisStats analysisConfig].
  destruct (analyzeLoop_fold clock1 (windows getTime es)
              {| flagged := []; loopStats := initialStats es; reads := 0 |})
    as (F1 & _ & S1).
  destruct (analyzeLoop_fold clock2 (windows getTime es)
              {| flagged := []; loopStats := initialStats es; reads := 0 |})
    as (F2 & _ & S2).
  rewrite F1, F2, S1, S2. cbn [flagged reads loopStats app].
  repeat split.
  - rewrite !(JSFacts.sort_map byRiskDescending byRiskDescending unstamped)
      by reflexivity.
    now rewrite !stamp_unstamped.
  - apply stamp_timestamp.
Qed.

(** C6, the claim as stated fails: on one and the same list of records, two
    runs at different times give different outputs. *)
Lemma analysis_clock_counterexample :
  analyzeLogsForDDoS IsoDate.getTime clockA [sampleEntry 600 "BENIGN"]
  <> analyzeLogsForDDoS IsoDate.getTime clockB [sampleEntry 600 "BENIGN"].
Proof.
  intros H. apply (f_equal (fun o => map Flagged.timestamp (flaggedEntries o))) in H.
  vm_compute in H. discriminate.
Qed.

(** ** The scenarios of the specification *)

(** 120 records of one public address in one window, one request each, sent
    by [curl/7.68]: 24 requests a minute, no frequency rule, the user-agent
    rule alone, score 2, flagged. *)
Example scenario_curl :
  summary (analyzeLogsForDDoS IsoDate.getTime clockA
             (repeat (agentEntry "203.0.113.5" 1 "curl/7.68") 120))
  = ([("203.0.113.5", 120, 2, ["Suspicious user agents: curl/7.68"])], 120%nat).
Proof. vm_compute. reflexivity. Qed.

(** 600 requests in a window and no other signal: the high-frequency rule
    alone, score 3, flagged. *)
Example scenario_high_frequency :
  summary (analyzeLogsForDDoS IsoDate.getTime clockA [sampleEntry 600 "BENIGN"])
  = ([("203.0.113.5", 600, 3, ["High request frequency: 120.00 req/min"])], 1%nat).
Proof. vm_compute. reflexivity. Qed.

(** A benign window of low frequency: score 0, not flagged, counted. *)
Example scenario_benign :
  summary (analyzeLogsForDDoS IsoDate.getTime clockA [sampleEntry 5 "BENIGN"])
  = ([], 1%nat).
Proof. vm_compute. reflexivity. Qed.

(** The threshold: a private address alone scores 1 and is not flagged; with
    a suspicious user agent it scores 3 and is. *)
Example scenario_threshold :
  map totalRisk (windows IsoDate.getTime [agentEntry "10.0.0.50" 5 "Mozilla/5.0"]) = [1] /\
  summary (analyzeLogsForDDoS IsoDate.getTime clockA [agentEntry "10.0.0.50" 5 "Mozilla/5.0"])
  = ([], 1%nat) /\
  summary (analyzeLogsForDDoS IsoDate.getTime clockA [agentEntry "10.0.0.50" 5 "python-requests"])
  = ([("10.0.0.50", 5, 3,
       ["Suspicious user agents: python-requests"; "Suspicious IP pattern: 10.0.0.50"])],
     1%nat).
Proof. vm_compute. repeat split. Qed.

(** Entries of equal score keep the order of their windows; a higher score
    goes first. *)
Example scenario_ranking :
  map (fun f => (Flagged.sourceIP f, Flagged.riskScore f))
      (flaggedEntries
         (analyzeLogsForDDoS IsoDate.getTime clockA
            [agentEntry "198.51.100.2" 300 "Mozilla/5.0";
             agentEntry "203.0.113.1" 700 "Mozilla/5.0";
             agentEntry "192.0.2.3" 260 "Mozilla/5.0"]))
  = [("203.0.113.1", 3); ("198.51.100.2", 2); ("192.0.2.3", 2)].
Proof. vm_compute. reflexivity. Qed.

(** The unused [getLabelRiskScore] would rate the label [Syn] at 4. *)
Example getLabelRiskScore_Syn : getLabelRiskScore "Syn" = 4.
Proof. reflexivity. Qed.

(** * More of the program *)

(** ** Window keys *)

Module KeyFacts.
Import JS.

(** The characters of a string. *)
Lemma string_of_uint_digits d c :
  In c (list_ascii_of_string (NilEmpty.string_of_uint d)) -> isDigit c = true.
Proof.
  induction d; simpl; try tauto; intros [<- | H]; auto.
Qed.

Lemma Number_toString_chars n c :
  In c (list_ascii_of_string (Number_toString n)) -> isDigit c = true \/ c = "-"%char.
Proof.
  unfold Number_toString. destruct n as [|p|p]; simpl.
  - intros [<- | []]. now left.
  - pose proof (DecimalPos.Unsigned.to_uint_nonnil p) as Hn.
    unfold NilZero.string_of_uint. destruct (Pos.to_uint p) eqn:E; try contradiction;
      intros H; left; rewrite <- E in H; now apply string_of_uint_digits in H.
  - pose proof (DecimalPos.Unsigned.to_uint_nonnil p) as Hn.
    intros [<- | H]; [now right|]. left.
    unfold NilZero.string_of_uint in H. destruct (Pos.to_uint p) eqn:E; try contradiction;
      rewrite <- E in H; now apply string_of_uint_digits in H.
Qed.

(** The text of a window index holds no underscore. *)
Lemma toString_no_underscore x : ~ In "_"%char (list_ascii_of_string (toString x)).
Proof.
  destruct x as [n|]; simpl.
  - intros H. apply Number_toString_chars in H. destruct H as [H | H]; discriminate.
  - intros [H | [H | [H | []]]]; discriminate.
Qed.

Lemma Number_toString_inj n m : Number_toString n = Number_toString m -> n = m.
Proof.
  unfold Number_toString. intros H. apply DecimalZ.to_int_inj.
  assert (Hd : forall z, Z.to_int z <> Decimal.Pos Decimal.Nil
                         /\ Z.to_int z <> Decimal.Neg Decimal.Nil).
  { intros [|p|p]; simpl; split; try discriminate; intros [= E];
      now apply (DecimalPos.Unsigned.to_uint_nonnil p). }
  destruct (Hd n) as [N1 N2]. destruct (Hd m) as [M1 M2].
  pose proof (NilZero.isi _ N1 N2) as Hn. pose proof (NilZero.isi _ M1 M2) as Hm.
  rewrite H in Hn. congruence.
Qed.

Lemma toString_inj x y : toString x = toString y -> x = y.
Proof.
  destruct x as [n|], y as [m|]; simpl; intros H.
  - f_equal. now apply Number_toString_inj.
  - exfalso. assert (Hc : In "N"%char (list_ascii_of_string (Number_toString n))).
    { rewrite H. now left. }
    apply Number_toString_chars in Hc. destruct Hc; discriminate.
  - exfalso. assert (Hc : In "N"%char (list_ascii_of_string (Number_toString m))).
    { rewrite <- H. now left. }
    apply Number_toString_chars in Hc. destruct Hc; discriminate.
  - reflexivity.
Qed.

(** A key splits in one way at its last underscore. *)
Lemma key_split a a' t t' :
  ~ In "_"%char (list_ascii_of_string t) -> ~ In "_"%char (list_ascii_of_string t') ->
  a ++ "_" ++ t = a' ++ "_" ++ t' -> a = a' /\ t = t'.
Proof.
  intros Ht Ht'. revert a'. induction a as [|c a IH]; intros [|c' a'] H; simpl in H.
  - injection H as H. now split.
  - injection H as Hc H. exfalso. apply Ht. rewrite H.
    clear. induction a' as [|d a' IH]; simpl; [now left | now right].
  - injection H as Hc H. exfalso. apply Ht'. rewrite <- H.
    clear. induction a as [|d a IH]; simpl; [now left | now right].
  - injection H as Hc H. destruct (IH a' H) as [-> ->]. now subst.
Qed.

End KeyFacts.

Section KeyInjective.

Variable getTime : string -> option Z.
Variable windowMinutes : positive.

(** Two entries have the same key exactly when they have the same source
    address and the same window index. *)
Lemma keyOf_inj e1 e2 :
  keyOf getTime e1 windowMinutes = keyOf getTime e2 windowMinutes
  <-> sourceIP e1 = sourceIP e2
      /\ timeKeyOf getTime e1 windowMinutes = timeKeyOf getTime e2 windowMinutes.
Proof.
  unfold keyOf. split.
  - intros H. apply KeyFacts.key_split in H; try apply KeyFacts.toString_no_underscore.
    destruct H as [H1 H2]. split; [assumption|]. now apply KeyFacts.toString_inj.
  - intros [-> ->]. reflexivity.
Qed.

Lemma addEntry_identity es g :
  Group.sourceIP (fold_left addEntry es g) = Group.sourceIP g
  /\ Group.timeWindow (fold_left addEntry es g) = Group.timeWindow g.
Proof.
  revert g. induction es as [|e es IH]; intros g; simpl; [now split|].
  destruct (IH (addEntry g e)) as [H1 H2]. now rewrite H1, H2.
Qed.

(** An aggregate carries the source address and the window index of its
    key. *)
Lemma GroupOf_identity es kg :
  GroupOf getTime windowMinutes es kg ->
  fst kg = Group.sourceIP (snd kg) ++ "_" ++ JS.toString (Group.timeWindow (snd kg))
  /\ exists e0, In e0 es /\ Group.sourceIP (snd kg) = sourceIP e0
                /\ Group.timeWindow (snd kg) = timeKeyOf getTime e0 windowMinutes.
Proof.
  intros Hkg. pose proof Hkg as [Hent (e0 & rest & He0 & Hfold)].
  destruct (addEntry_identity (e0 :: rest)
              (newGroup e0 (timeKeyOf getTime e0 windowMinutes))) as [H1 H2].
  rewrite <- Hfold in H1, H2. cbn [newGroup Group.sourceIP Group.timeWindow] in H1, H2.
  assert (Hin : In e0 (entriesOfKey getTime windowMinutes (fst kg) es)).
  { rewrite <- Hent, He0. now left. }
  apply filter_In in Hin. destruct Hin as [Hin Hk]. apply String.eqb_eq in Hk.
  split.
  - rewrite H1, H2. symmetry. exact Hk.
  - exists e0. auto.
Qed.

End KeyInjective.

(** X1. An aggregate holds exactly the input records of its source address
    and window index, and no two aggregates share a source address and a
    window index: the string keys of the object do not collide. *)
Theorem aggregates_by_address_and_window
    (getTime : string -> option Z) (windowMinutes : positive) (es : list LogEntry) :
  let groups := groupByIPAndTime getTime es windowMinutes in
  Forall (fun kg =>
            forall e, In e (Group.entries (snd kg))
                      <-> In e es /\ sourceIP e = Group.sourceIP (snd kg)
                          /\ timeKeyOf getTime e windowMinutes = Group.timeWindow (snd kg))
         groups /\
  NoDup (map (fun kg => (Group.sourceIP (snd kg), Group.timeWindow (snd kg))) groups).
Proof.
  cbv zeta.
  destruct (groupByIPAndTime_GroupsOf getTime windowMinutes es) as (HND & HF & _).
  split.
  - eapply Forall_impl; [|exact HF]. intros kg Hkg e.
    destruct (GroupOf_identity getTime windowMinutes es kg Hkg)
      as [Hk (e0 & _ & Hip & Htk)].
    destruct Hkg as [Hent _]. rewrite Hent. unfold entriesOfKey.
    rewrite filter_In, String.eqb_eq, Hk, Hip, Htk.
    change (sourceIP e0 ++ "_" ++ JS.toString (timeKeyOf getTime e0 windowMinutes))
      with (keyOf getTime e0 windowMinutes).
    now rewrite keyOf_inj.
  - assert (Hmap : map fst (groupByIPAndTime getTime es windowMinutes)
                   = map (fun p => fst p ++ "_" ++ JS.toString (snd p))
                         (map (fun kg => (Group.sourceIP (snd kg), Group.timeWindow (snd kg)))
                              (groupByIPAndTime getTime es windowMinutes))).
    { rewrite map_map. apply map_ext_in. intros kg Hin.
      rewrite Forall_forall in HF.
      now destruct (GroupOf_identity getTime windowMinutes es kg (HF _ Hin)). }
    rewrite Hmap in HND. eapply NoDup_map_inv. exact HND.
Qed.

(** ** The order and the contents of the aggregates *)

Section AggregateFacts.

Variable getTime : string -> option Z.
Variable windowMinutes : positive.

Lemma existsb_eqb_In k l : existsb (String.eqb k) l = true <-> In k l.
Proof.
  rewrite existsb_exists. split.
  - intros (x & Hx & E). apply String.eqb_eq in E. now subst.
  - intros H. exists k. split; [assumption | apply String.eqb_refl].
Qed.

Lemma distinct_snoc l x : distinct (l ++ [x]) = JS.Set_add x (distinct l).
Proof. unfold distinct. now rewrite fold_left_app. Qed.

Lemma groupStep_keys G e :
  map fst (groupStep getTime windowMinutes G e)
  = JS.Set_add (keyOf getTime e windowMinutes) (map fst G).
Proof.
  unfold groupStep, JS.Set_add.
  destruct (JSFacts.set_cases G (keyOf getTime e windowMinutes)
              (addEntry match JS.get G (keyOf getTime e windowMinutes) with
                        | Some group => group
                        | None => newGroup e (timeKeyOf getTime e windowMinutes)
                        end e))
    as [[Hg Hs] | (G1 & g & G2 & HGeq & Hn1 & Hg & Hs)]; rewrite Hs.
  - apply JSFacts.get_None_notin in Hg.
    destruct (existsb _ (map fst G)) eqn:E.
    + apply existsb_eqb_In in E. contradiction.
    + now rewrite map_app.
  - subst G. rewrite !map_app. simpl.
    replace (existsb _ _) with true; [reflexivity|].
    symmetry. apply existsb_eqb_In. apply in_or_app. right. now left.
Qed.

Lemma groupByIPAndTime_keys es :
  map fst (groupByIPAndTime getTime es windowMinutes)
  = distinct (map (fun e => keyOf getTime e windowMinutes) es).
Proof.
  induction es as [|e es IH] using rev_ind; [reflexivity|].
  rewrite groupByIPAndTime_snoc, groupStep_keys, map_app. cbn [map].
  now rewrite distinct_snoc, IH.
Qed.

Lemma distinct_length_le l : (List.length (distinct l) <= List.length l)%nat.
Proof.
  induction l as [|x l IH] using rev_ind; [simpl; lia|].
  rewrite distinct_snoc, length_app. unfold JS.Set_add.
  destruct (existsb _ _); [|rewrite length_app]; simpl; lia.
Qed.

End AggregateFacts.

(** X2. The aggregates are created, and the windows are scored, in the order
    in which their keys first occur in the input, one for each distinct key;
    so there are no more windows than entries, and none for an empty
    input. *)
Theorem windows_in_first_occurrence_order
    (getTime : string -> option Z) (windowMinutes : positive) (es : list LogEntry) :
  map fst (groupByIPAndTime getTime es windowMinutes)
  = distinct (map (fun e => keyOf getTime e windowMinutes) es) /\
  map windowKey (windows getTime es)
  = distinct (map (fun e => keyOf getTime e (Detection.ANALYSIS_WINDOW DETECTION_CONFIG)) es) /\
  (List.length (windows getTime es) <= List.length es)%nat.
Proof.
  split; [apply groupByIPAndTime_keys|].
  assert (H : map windowKey (windows getTime es)
              = distinct (map (fun e => keyOf getTime e
                                          (Detection.ANALYSIS_WINDOW DETECTION_CONFIG)) es)).
  { rewrite <- groupByIPAndTime_keys, windows_eq, map_map.
    apply map_ext_in. intros kg Hin.
    destruct (groupByIPAndTime_GroupsOf getTime (Detection.ANALYSIS_WINDOW DETECTION_CONFIG) es)
      as (_ & HF & _).
    rewrite Forall_forall in HF.
    destruct (GroupOf_identity getTime _ es kg (HF _ Hin)) as [Hk _].
    symmetry. exact Hk. }
  split; [exact H|].
  rewrite <- (length_map windowKey), H.
  etransitivity; [apply distinct_length_le | now rewrite length_map].
Qed.

Section ContentFacts.

Lemma get_set {V : Type} (o : list (string * V)) k v k' :
  JS.get (JS.set o k v) k' = if String.eqb k' k then Some v else JS.get o k'.
Proof.
  induction o as [|[k0 v0] o IH]; simpl.
  - reflexivity.
  - destruct (String.eqb k k0) eqn:E; simpl.
    + apply String.eqb_eq in E. subst k0.
      now destruct (String.eqb k' k).
    + rewrite IH. destruct (String.eqb k' k0) eqn:E0; [|reflexivity].
      apply String.eqb_eq in E0. subst k0.
      rewrite String.eqb_sym in E. now rewrite E.
Qed.

Lemma orNumber_0 x : JS.orNumber x 0 = match x with Some v => v | None => 0 end.
Proof. now destruct x as [[| |]|]. Qed.

Lemma fold_left_map {X Y S : Type} (f : S -> Y -> S) (h : X -> Y) (l : list X) (a : S) :
  fold_left f (map h l) a = fold_left (fun a x => f a (h x)) l a.
Proof. revert a. induction l as [|x l IH]; intros a; simpl; [reflexivity | apply IH]. Qed.

Lemma addEntry_uniquePaths es g :
  Group.uniquePaths (fold_left addEntry es g)
  = fold_left (fun s x => JS.Set_add x s) (map path es) (Group.uniquePaths g).
Proof.
  revert g. induction es as [|e es IH]; intros g; simpl; [reflexivity | now rewrite IH].
Qed.

Lemma addEntry_uniqueUserAgents es g :
  Group.uniqueUserAgents (fold_left addEntry es g)
  = fold_left (fun s x => JS.Set_add x s) (map userAgent es) (Group.uniqueUserAgents g).
Proof.
  revert g. induction es as [|e es IH]; intros g; simpl; [reflexivity | now rewrite IH].
Qed.

Lemma addEntry_labels es g :
  Group.labels (fold_left addEntry es g)
  = fold_left (fun s x => JS.Set_add x s) (filter present (map label es)) (Group.labels g).
Proof.
  revert g. induction es as [|e es IH]; intros g; simpl; [reflexivity|].
  rewrite IH. simpl. now destruct (present (label e)).
Qed.

Lemma present_known l : present l && isKnownDDoSAttack l = isKnownDDoSAttack l.
Proof.
  destruct (isKnownDDoSAttack l) eqn:E; [|apply andb_false_r].
  now rewrite (isKnownDDoSAttack_present _ E).
Qed.

Lemma addEntry_hasKnownDDoSAttack es g :
  Group.hasKnownDDoSAttack (fold_left addEntry es g)
  = Group.hasKnownDDoSAttack g || existsb (fun e => isKnownDDoSAttack (label e)) es.
Proof.
  revert g. induction es as [|e es IH]; intros g; simpl; [now rewrite orb_false_r|].
  rewrite IH. simpl. rewrite present_known.
  destruct (isKnownDDoSAttack (label e)); simpl; [now rewrite orb_true_r | reflexivity].
Qed.

Lemma requestsWith_none field value es :
  holds field value es = false -> requestsWith field value es = 0.
Proof.
  unfold holds, requestsWith. induction es as [|e es IH]; simpl; [reflexivity|].
  destruct (present (field e) && String.eqb (field e) value); simpl; [discriminate | exact IH].
Qed.

(** The tally an object holds after the entries [es], for one field, when
    the counts stay safe integers. *)
Lemma tally_fold (field : LogEntry -> string) es : forall o value,
  Z.abs (JS.orNumber (JS.get o value) 0) + magnitude es <= JS.MAX_SAFE_INTEGER ->
  JS.get (fold_left (fun o e => if present (field e)
                                then addCount o (field e) (requestCount e) else o) es o)
         value
  = if holds field value es
    then Some (JS.orNumber (JS.get o value) 0 + requestsWith field value es)
    else JS.get o value.
Proof.
  induction es as [|e es IH]; intros o value Hb; [reflexivity|].
  rewrite magnitude_cons in Hb. pose proof (magnitude_nonneg es) as Hm.
  cbn [fold_left].
  unfold holds, requestsWith. cbn [existsb filter].
  fold (holds field value es). fold (requestsWith field value es).
  destruct (present (field e)) eqn:Hp; cbn [andb].
  - destruct (String.eqb (field e) value) eqn:E.
    + apply String.eqb_eq in E. subst value.
      assert (Hget : JS.get (addCount o (field e) (requestCount e)) (field e)
                     = Some (JS.orNumber (JS.get o (field e)) 0 + requestCount e)).
      { unfold addCount. rewrite get_set, String.eqb_refl. unfold JS.add.
        rewrite toDouble_exact by lia. reflexivity. }
      rewrite IH by (rewrite Hget, orNumber_0; lia).
      rewrite Hget, orNumber_0.
      cbn [orb sumRequestCounts fold_right].
      fold (sumRequestCounts (filter (fun e0 => present (field e0)
                                               && String.eqb (field e0) (field e)) es)).
      fold (requestsWith field (field e) es).
      destruct (holds field (field e) es) eqn:H.
      * f_equal. lia.
      * rewrite (requestsWith_none _ _ _ H). f_equal. lia.
    + assert (Hget : JS.get (addCount o (field e) (requestCount e)) value = JS.get o value).
      { unfold addCount. rewrite get_set, String.eqb_sym, E. reflexivity. }
      rewrite IH by (rewrite Hget; lia). now rewrite Hget.
  - rewrite IH by lia. reflexivity.
Qed.

Lemma addEntry_responseCodes es g :
  Group.responseCodes (fold_left addEntry es g)
  = fold_left (fun o e => if present (responseCode e)
                          then addCount o (responseCode e) (requestCount e) else o)
              es (Group.responseCodes g).
Proof.
  revert g. induction es as [|e es IH]; intros g; simpl; [reflexivity | now rewrite IH].
Qed.

Lemma addEntry_methods es g :
  Group.methods (fold_left addEntry es g)
  = fold_left (fun o e => if present (method e)
                          then addCount o (method e) (requestCount e) else o)
              es (Group.methods g).
Proof.
  revert g. induction es as [|e es IH]; intros g; simpl; [reflexivity | now rewrite IH].
Qed.

End ContentFacts.

Lemma distinct_In l x : In x (distinct l) <-> In x l.
Proof.
  induction l as [|y l IH] using rev_ind; [reflexivity|].
  rewrite distinct_snoc, JSFacts.Set_add_In, IH, in_app_iff. simpl. intuition.
Qed.

Lemma distinct_NoDup l : NoDup (distinct l).
Proof.
  induction l as [|y l IH] using rev_ind; [constructor|].
  rewrite distinct_snoc. now apply JSFacts.Set_add_NoDup.
Qed.

(** The labels and the flag of an aggregate, from its entries. *)
Lemma GroupOf_labels getTime windowMinutes es kg :
  GroupOf getTime windowMinutes es kg ->
  Group.labels (snd kg) = distinct (filter present (map label (Group.entries (snd kg)))) /\
  Group.hasKnownDDoSAttack (snd kg)
  = existsb (fun e => isKnownDDoSAttack (label e)) (Group.entries (snd kg)).
Proof.
  intros [_ (e0 & rest & Hent & Hfold)].
  rewrite Hent. rewrite Hfold at 1 2.
  now rewrite addEntry_labels, addEntry_hasKnownDDoSAttack.
Qed.

(** X3. Every aggregate is determined by its entries: its paths, user agents
    and labels are the distinct values of its entries in order of first
    occurrence (labels without the sentinel and the empty label), and its
    known-attack flag says that one of its entries has a known-attack label.
    When the request counts of its entries add up in magnitude to a safe
    integer at most and their response codes (methods) are no names of
    [Object.prototype], its response-code (method) tally gives, for each
    such value other than the sentinel, the sum of the request counts of the
    entries with that value, not their number. *)
Theorem aggregate_fields_from_entries
    (getTime : string -> option Z) (windowMinutes : positive) (es : list LogEntry) :
  Forall (fun kg =>
            let g := snd kg in
            Group.uniquePaths g = distinct (map path (Group.entries g)) /\
            Group.uniqueUserAgents g = distinct (map userAgent (Group.entries g)) /\
            Group.labels g = distinct (filter present (map label (Group.entries g))) /\
            Group.hasKnownDDoSAttack g
            = existsb (fun e => isKnownDDoSAttack (label e)) (Group.entries g) /\
            (safeCounts (Group.entries g) ->
             Forall (fun e => JS.ownName (responseCode e) = true) (Group.entries g) ->
             forall code, JS.ownName code = true ->
                          JS.get (Group.responseCodes g) code
                          = if holds responseCode code (Group.entries g)
                            then Some (requestsWith responseCode code (Group.entries g))
                            else None) /\
            (safeCounts (Group.entries g) ->
             Forall (fun e => JS.ownName (method e) = true) (Group.entries g) ->
             forall m, JS.ownName m = true ->
                       JS.get (Group.methods g) m
                       = if holds method m (Group.entries g)
                         then Some (requestsWith method m (Group.entries g))
                         else None))
         (groupByIPAndTime getTime es windowMinutes).
Proof.
  destruct (groupByIPAndTime_GroupsOf getTime windowMinutes es) as (_ & HF & _).
  eapply Forall_impl; [|exact HF].
  intros [k g] [_ (e0 & rest & Hent & Hfold)]. cbn [snd] in *. cbv zeta.
  rewrite Hent. clear Hent. subst g.
  rewrite addEntry_uniquePaths, addEntry_uniqueUserAgents, addEntry_labels,
    addEntry_hasKnownDDoSAttack, addEntry_responseCodes, addEntry_methods.
  unfold safeCounts.
  repeat split.
  - intros Hs _ code _. rewrite tally_fold by (cbn [JS.get newGroup Group.responseCodes
                                                     JS.orNumber Z.abs]; lia).
    simpl JS.get. now rewrite orNumber_0.
  - intros Hs _ m _. rewrite tally_fold by (cbn [JS.get newGroup Group.methods
                                                  JS.orNumber Z.abs]; lia).
    simpl JS.get. now rewrite orNumber_0.
Qed.

(** A window of three records of the response code 404, of 5, 7 and 9
    requests: its tally holds 21 for the code. *)
Lemma aggregate_fields_from_entries_witness :
  let entry count := {|
    timestamp := "2024-01-15T10:30:00Z"; sourceIP := "203.0.113.5";
    destinationIP := "10.0.0.1"; requestCount := count; duration := 0.5; bytes := 1024;
    label := "BENIGN"; userAgent := "Mozilla/5.0"; responseCode := "404"; method := "GET";
    path := "/" |} in
  let es := [entry 5; entry 7; entry 9] in
  Forall (fun kg =>
            safeCounts (Group.entries (snd kg)) /\
            Forall (fun e => JS.ownName (responseCode e) = true) (Group.entries (snd kg)) /\
            JS.get (Group.responseCodes (snd kg)) "404" = Some 21)
         (groupByIPAndTime IsoDate.getTime es 5).
Proof.
  cbv zeta.
  pose proof (aggregate_fields_from_entries IsoDate.getTime 5
    [ {| timestamp := "2024-01-15T10:30:00Z"; sourceIP := "203.0.113.5";
         destinationIP := "10.0.0.1"; requestCount := 5; duration := 0.5; bytes := 1024;
         label := "BENIGN"; userAgent := "Mozilla/5.0"; responseCode := "404"; method := "GET";
         path := "/" |};
      {| timestamp := "2024-01-15T10:30:00Z"; sourceIP := "203.0.113.5";
         destinationIP := "10.0.0.1"; requestCount := 7; duration := 0.5; bytes := 1024;
         label := "BENIGN"; userAgent := "Mozilla/5.0"; responseCode := "404"; method := "GET";
         path := "/" |};
      {| timestamp := "2024-01-15T10:30:00Z"; sourceIP := "203.0.113.5";
         destinationIP := "10.0.0.1"; requestCount := 9; duration := 0.5; bytes := 1024;
         label := "BENIGN"; userAgent := "Mozilla/5.0"; responseCode := "404"; method := "GET";
         path := "/" |} ]) as H.
  remember (groupByIPAndTime IsoDate.getTime _ 5) as G eqn:EG in *.
  vm_compute in EG. subst G.
  inversion H as [|kg l (_ & _ & _ & _ & Hc & _) _]; subst.
  constructor; [|constructor].
  cbn [snd] in *.
  match type of Hc with
  | ?S -> ?O -> _ =>
      assert (Hs : S) by (vm_compute; discriminate);
      assert (Ho : O) by (repeat constructor)
  end.
  split; [exact Hs|]. split; [exact Ho|].
  rewrite (Hc Hs Ho "404" eq_refl). vm_compute. reflexivity.
Defined.

(** ** The score, the indicators and the flag of a window *)

Section ScoreFacts.

Lemma applyRule_groupHasDrDoSDNS g q rules sc :
  groupHasDrDoSDNS (fold_left (applyRule g q) rules sc) = groupHasDrDoSDNS sc.
Proof.
  revert sc. induction rules as [|rule rules IH]; intros sc; simpl; [reflexivity|].
  rewrite IH. unfold applyRule. now destruct (Rule.check rule g q).
Qed.

Lemma applyLabel_groupHasDrDoSDNS labels sc :
  groupHasDrDoSDNS (fold_left applyLabel labels sc)
  = groupHasDrDoSDNS sc || existsb (fun label => JS.includes label "DrDoS_DNS") labels.
Proof.
  revert sc. induction labels as [|l labels IH]; intros sc.
  - simpl. now rewrite orb_false_r.
  - cbn [fold_left existsb]. rewrite IH. unfold applyLabel.
    destruct (JS.includes l "DrDoS_DNS");
      destruct (negb (String.eqb (JS.toUpperCase (JS.trim l)) "BENIGN"));
      cbn [groupHasDrDoSDNS orb]; rewrite ?orb_true_r; reflexivity.
Qed.

(** The two frequency rules never fire together, so at most six rules fire
    and their weights come to 9 at most. *)
Lemma ruleWeight_bounds g :
  0 <= ruleWeight g <= 9 /\ (List.length (firedRules g) <= 6)%nat.
Proof.
  unfold ruleWeight, firedRules, indicatorRules. cbn [filter Rule.check].
  destruct (Qle_bool (inject_Z (Detection.HIGH_FREQUENCY_THRESHOLD DETECTION_CONFIG))
                     (frequencyOf g));
    destruct (Qle_bool (inject_Z (Detection.MEDIUM_FREQUENCY_THRESHOLD DETECTION_CONFIG))
                       (frequencyOf g));
    cbn [andb negb];
    repeat match goal with
           | |- context [if ?b then _ else _] => destruct b
           end;
    cbn [map fold_right Rule.risk List.length]; lia.
Qed.

Lemma filter_length_le {X : Type} (p : X -> bool) (l : list X) :
  (List.length (filter p l) <= List.length l)%nat.
Proof. induction l as [|x l IH]; simpl; [lia|]. destruct (p x); simpl; lia. Qed.

End ScoreFacts.

(** X4. The weights are bounded: the high- and medium-frequency rules never
    fire for the same window, so at most six of the seven rules fire and the
    rules contribute between 0 and 9; the labels add 5 for each marked label.
    Every flagged entry has a score of at least 2 and at most 9 plus five
    times the number of its labels. *)
Theorem risk_score_bounds
    (getTime : string -> option Z) (clock : nat -> string) (es : list LogEntry) :
  (forall g q, map (fun rule => Rule.check rule g q) (firstn 2 indicatorRules)
               <> [true; true]) /\
  (forall g, 0 <= ruleWeight g <= 9 /\ (List.length (firedRules g) <= 6)%nat) /\
  (forall g, totalRisk g <= 9 + 5 * Z.of_nat (List.length (Group.labels g))) /\
  Forall (fun f => 2 <= Flagged.riskScore f
                   <= 9 + 5 * Z.of_nat (List.length (Flagged.labels f)))
         (flaggedEntries (analyzeLogsForDDoS getTime clock es)).
Proof.
  assert (HT : forall g, totalRisk g <= 9 + 5 * Z.of_nat (List.length (Group.labels g))).
  { intros g. unfold totalRisk, labelWeight, markedLabels.
    pose proof (ruleWeight_bounds g) as [H _].
    pose proof (filter_length_le (fun label => JS.includes label "DrDoS_DNS")
                                 (Group.labels g)).
    lia. }
  split; [|split; [exact ruleWeight_bounds|split; [exact HT|]]].
  - intros g q. cbn [firstn indicatorRules map Rule.check].
    destruct (Qle_bool (inject_Z (Detection.HIGH_FREQUENCY_THRESHOLD DETECTION_CONFIG)) q);
      cbn [negb andb]; [rewrite andb_false_r|]; discriminate.
  - apply (Permutation_Forall (Permutation_sym (flaggedEntries_reported getTime clock es))).
    apply Forall_forall. intros f Hf.
    destruct (stamp_In _ _ _ _ Hf) as (g & now & Hg & ->).
    rewrite flaggedOf_riskScore. cbn [flaggedOf flaggedEntry Flagged.labels].
    unfold reported in Hg. apply filter_In in Hg. destruct Hg as [_ Hg].
    apply Z.leb_le in Hg. split; [assumption | apply HT].
Qed.

(** X5. The indicators of a window are the messages of the rules that fire,
    in the order of the registry, followed by one label message for each
    marked label; there are as many as rules and labels that fire, the score
    is at most five times their number, and every flagged entry has at least
    one. *)
Theorem indicators_of_fired_rules_and_labels
    (getTime : string -> option Z) (clock : nat -> string) (es : list LogEntry) :
  (forall g now,
      Flagged.suspiciousIndicators (flaggedOf g now)
      = (map (fun rule => Rule.message rule g (frequencyOf g)) (firedRules g)
         ++ repeat markerMessage (List.length (markedLabels g)))%list) /\
  Forall (fun f => Flagged.suspiciousIndicators f <> []
                   /\ Flagged.riskScore f
                      <= 5 * Z.of_nat (List.length (Flagged.suspiciousIndicators f)))
         (flaggedEntries (analyzeLogsForDDoS getTime clock es)).
Proof.
  assert (HI : forall g now,
             Flagged.suspiciousIndicators (flaggedOf g now)
             = (map (fun rule => Rule.message rule g (frequencyOf g)) (firedRules g)
                ++ repeat markerMessage (List.length (markedLabels g)))%list).
  { intros g now. unfold flaggedOf, scoreWindow. cbn [flaggedEntry Flagged.suspiciousIndicators].
    now rewrite applyLabel_indicators, applyRule_indicators. }
  split; [exact HI|].
  apply (Permutation_Forall (Permutation_sym (flaggedEntries_reported getTime clock es))).
  apply Forall_forall. intros f Hf.
  destruct (stamp_In _ _ _ _ Hf) as (g & now & Hg & ->).
  unfold reported in Hg. apply filter_In in Hg. destruct Hg as [_ Hg].
  apply Z.leb_le in Hg.
  rewrite flaggedOf_riskScore, HI, length_app, length_map, repeat_length.
  assert (Hw : ruleWeight g <= 5 * Z.of_nat (List.length (firedRules g))).
  { unfold ruleWeight, firedRules, indicatorRules. cbn [filter Rule.check].
    repeat match goal with
           | |- context [if ?b then _ else _] => destruct b
           end;
      cbn [map fold_right Rule.risk List.length]; lia. }
  unfold totalRisk, labelWeight in *. split; [|lia].
  intros Hnil. apply (f_equal (@List.length string)) in Hnil.
  rewrite length_app, length_map, repeat_length in Hnil. simpl in Hnil. lia.
Qed.


(** ** The statistics *)

Section StatsFacts.

Lemma applyLabel_stats labels sc :
  stats (fold_left applyLabel labels sc)
  = {| Stats.totalEntries := Stats.totalEntries (stats sc);
       Stats.uniqueIPs := Stats.uniqueIPs (stats sc);
       Stats.suspiciousIPs := Stats.suspiciousIPs (stats sc);
       Stats.highFrequencyIPs := Stats.highFrequencyIPs (stats sc);
       Stats.suspiciousUserAgents := Stats.suspiciousUserAgents (stats sc);
       Stats.knownDDoSAttacks :=
         (Stats.knownDDoSAttacks (stats sc)
          + List.length (filter (fun label => JS.includes label "DrDoS_DNS") labels))%nat;
       Stats.labeledAttacks :=
         (Stats.labeledAttacks (stats sc)
          + List.length
              (filter (fun label => negb (String.eqb (JS.toUpperCase (JS.trim label)) "BENIGN"))
                      labels))%nat |}.
Proof.
  revert sc. induction labels as [|l labels IH]; intros sc.
  - simpl. rewrite !Nat.add_0_r. now destruct (stats sc).
  - cbn [fold_left filter]. rewrite IH. unfold applyLabel.
    destruct (JS.includes l "DrDoS_DNS");
      destruct (negb (String.eqb (JS.toUpperCase (JS.trim l)) "BENIGN"));
      cbn [stats Stats.incrKnownDDoSAttacks Stats.incrLabeledAttacks List.length
           Stats.totalEntries Stats.uniqueIPs Stats.suspiciousIPs Stats.highFrequencyIPs
           Stats.suspiciousUserAgents Stats.knownDDoSAttacks Stats.labeledAttacks];
      f_equal; lia.
Qed.

Lemma applyRule_stats_keys g q rules sc :
  stats (fold_left (applyRule g q) rules sc)
  = fold_left (fun s rule => match Rule.statKey rule with
                             | Some k => Stats.incr k s
                             | None => s
                             end)
              (filter (fun rule => Rule.check rule g q) rules) (stats sc).
Proof.
  revert sc. induction rules as [|rule rules IH]; intros sc; simpl; [reflexivity|].
  rewrite IH. unfold applyRule. now destruct (Rule.check rule g q).
Qed.

Lemma applyRule_stats g s :
  stats (fold_left (applyRule g (frequencyOf g)) indicatorRules
           {| suspiciousIndicators := []; riskScore := 0; stats := s;
              groupHasDrDoSDNS := false; groupHasLabeledAttack := false |})
  = {| Stats.totalEntries := Stats.totalEntries s;
       Stats.uniqueIPs := Stats.uniqueIPs s;
       Stats.suspiciousIPs := (Stats.suspiciousIPs s + Nat.b2n (hasSuspiciousIP g))%nat;
       Stats.highFrequencyIPs := (Stats.highFrequencyIPs s + Nat.b2n (highFrequency g))%nat;
       Stats.suspiciousUserAgents :=
         (Stats.suspiciousUserAgents s + Nat.b2n (hasSuspiciousAgent g))%nat;
       Stats.knownDDoSAttacks := Stats.knownDDoSAttacks s;
       Stats.labeledAttacks := Stats.labeledAttacks s |}.
Proof.
  rewrite applyRule_stats_keys. cbn [stats].
  unfold indicatorRules, hasSuspiciousIP, highFrequency, hasSuspiciousAgent.
  cbn [filter Rule.check].
  destruct s as [t u i h a k l].
  destruct (Qle_bool (inject_Z (Detection.HIGH_FREQUENCY_THRESHOLD DETECTION_CONFIG))
                     (frequencyOf g));
    destruct (Qle_bool (inject_Z (Detection.MEDIUM_FREQUENCY_THRESHOLD DETECTION_CONFIG))
                       (frequencyOf g));
    destruct (0 <? List.length (filter isSuspiciousUserAgent (Group.uniqueUserAgents g)))%nat;
    destruct (isSuspiciousIP (Group.sourceIP g));
    cbn [andb negb];
    repeat match goal with
           | |- context [if ?b then _ else _] => destruct b
           end;
    cbn [fold_left Rule.statKey Stats.incr Nat.b2n
         Stats.totalEntries Stats.uniqueIPs Stats.suspiciousIPs Stats.highFrequencyIPs
         Stats.suspiciousUserAgents Stats.knownDDoSAttacks Stats.labeledAttacks];
    f_equal; lia.
Qed.

Lemma statsStep_statsAfter s g : statsStep s g = statsAfter s g.
Proof.
  unfold statsStep, scoreWindow. fold (frequencyOf g).
  rewrite applyLabel_stats, applyRule_stats. reflexivity.
Qed.

Lemma count_cons {X : Type} (p : X -> bool) x l :
  count p (x :: l) = (Nat.b2n (p x) + count p l)%nat.
Proof. unfold count. simpl. now destruct (p x). Qed.

Lemma statsAfter_fold ws s :
  fold_left statsAfter ws s
  = {| Stats.totalEntries := Stats.totalEntries s;
       Stats.uniqueIPs := Stats.uniqueIPs s;
       Stats.suspiciousIPs := (Stats.suspiciousIPs s + count hasSuspiciousIP ws)%nat;
       Stats.highFrequencyIPs := (Stats.highFrequencyIPs s + count highFrequency ws)%nat;
       Stats.suspiciousUserAgents :=
         (Stats.suspiciousUserAgents s + count hasSuspiciousAgent ws)%nat;
       Stats.knownDDoSAttacks :=
         (Stats.knownDDoSAttacks s
          + list_sum (map (fun g => List.length (markedLabels g)) ws))%nat;
       Stats.labeledAttacks :=
         (Stats.labeledAttacks s
          + list_sum (map (fun g => List.length (attackLabels g)) ws))%nat |}.
Proof.
  revert s. induction ws as [|g ws IH]; intros s.
  - unfold count. simpl. rewrite !Nat.add_0_r. now destruct s.
  - cbn [fold_left]. rewrite IH, !count_cons. cbn [map list_sum].
    unfold statsAfter at 1 2 3 4 5 6 7.
    cbn [Stats.totalEntries Stats.uniqueIPs Stats.suspiciousIPs Stats.highFrequencyIPs
         Stats.suspiciousUserAgents Stats.knownDDoSAttacks Stats.labeledAttacks].
    f_equal; try lia; unfold list_sum; cbn [fold_right]; lia.
Qed.

Lemma analysisStats_statsOf getTime clock es :
  analysisStats (analyzeLogsForDDoS getTime clock es) = statsOf es (windows getTime es).
Proof.
  unfold analyzeLogsForDDoS, analyzeLoop. cbn [analysisStats].
  destruct (analyzeLoop_fold clock (windows getTime es)
              {| flagged := []; loopStats := initialStats es; reads := 0 |})
    as (_ & _ & H).
  rewrite H. cbn [loopStats].
  assert (E : forall ws s, fold_left statsStep ws s = fold_left statsAfter ws s).
  { induction ws as [|g ws IH]; intros s; simpl; [reflexivity|].
    now rewrite statsStep_statsAfter, IH. }
  now rewrite E, statsAfter_fold.
Qed.

End StatsFacts.

Section EntryWindow.

Variable getTime : string -> option Z.

(** The entries of an aggregate have its source address and window index. *)
Lemma GroupOf_entry wm es kg e :
  GroupOf getTime wm es kg -> In e (Group.entries (snd kg)) ->
  sourceIP e = Group.sourceIP (snd kg)
  /\ timeKeyOf getTime e wm = Group.timeWindow (snd kg).
Proof.
  intros Hkg He.
  destruct (GroupOf_identity getTime wm es kg Hkg) as [Hk _].
  destruct Hkg as [Hent _]. rewrite Hent in He.
  apply filter_In in He. destruct He as [_ He]. apply String.eqb_eq in He.
  rewrite Hk in He. apply KeyFacts.key_split in He;
    try apply KeyFacts.toString_no_underscore.
  destruct He as [H1 H2]. split; [assumption|]. now apply KeyFacts.toString_inj.
Qed.

(** Every entry is in a window, which has its source address. *)
Lemma entry_window es e :
  In e es ->
  exists g, In g (windows getTime es) /\ In e (Group.entries g)
            /\ Group.sourceIP g = sourceIP e.
Proof.
  intros He.
  destruct (groupByIPAndTime_GroupsOf getTime (Detection.ANALYSIS_WINDOW DETECTION_CONFIG) es)
    as (_ & HF & HP).
  apply (Permutation_in _ (Permutation_sym HP)) in He.
  unfold allEntries in He. apply in_flat_map in He. destruct He as ([k g] & Hin & He).
  rewrite Forall_forall in HF.
  destruct (GroupOf_entry _ _ _ _ (HF _ Hin) He) as [H1 _]. cbn [snd] in *.
  exists g. rewrite windows_eq. repeat split; [|assumption | now symmetry].
  now apply (in_map snd _ (k, g)).
Qed.

Lemma In_firstn {X : Type} (n : nat) (l : list X) (x : X) : In x (firstn n l) -> In x l.
Proof.
  intros H. rewrite <- (firstn_skipn n l). apply in_or_app. now left.
Qed.

End EntryWindow.

(** X7. The statistics of a run count windows, not addresses: the three rule
    counters are the numbers of windows for which the source-pattern, the
    high-frequency and the user-agent rule fire, [knownDDoSAttacks] and
    [labeledAttacks] add up, over the windows, the marked labels and the
    labels other than [BENIGN], and [totalEntries] and [uniqueIPs] count the
    entries and the distinct addresses of the input, flagged or not.  There
    are at least as many windows as distinct addresses and as flagged
    entries. *)
Theorem statistics_count_windows
    (getTime : string -> option Z) (clock : nat -> string) (es : list LogEntry) :
  let out := analyzeLogsForDDoS getTime clock es in
  analysisStats out = statsOf es (windows getTime es) /\
  (Stats.uniqueIPs (analysisStats out) <= List.length (windows getTime es))%nat /\
  (List.length (flaggedEntries out) <= List.length (windows getTime es))%nat.
Proof.
  cbv zeta. rewrite analysisStats_statsOf. split; [reflexivity|]. split.
  - cbn [statsOf Stats.uniqueIPs].
    rewrite <- (length_map Group.sourceIP (windows getTime es)).
    apply NoDup_incl_length; [apply distinct_NoDup|].
    intros ip Hip. apply (proj1 (distinct_In _ _)) in Hip.
    apply in_map_iff in Hip. destruct Hip as (e & <- & He).
    destruct (entry_window getTime es e He) as (g & Hg & _ & Hs).
    rewrite <- Hs. now apply in_map.
  - rewrite (Permutation_length (flaggedEntries_reported getTime clock es)), stamp_length.
    apply filter_length_le.
Qed.

(** X8. A flagged entry reports the whole of its window and samples its
    start: its request count is the running total of the request counts of
    all the entries of the window, which is their sum when they add up in
    magnitude to a safe integer at most, its cardinalities are the numbers of distinct
    paths and user agents of these entries, and its sample is the first five
    of them in input order, so it is never empty, and every entry of the
    sample has the source address of the flagged entry. *)
Theorem flagged_entry_reports_its_window
    (getTime : string -> option Z) (clock : nat -> string) (es : list LogEntry) :
  Forall (fun f =>
            exists g,
              In g (windows getTime es) /\
              Flagged.sourceIP f = Group.sourceIP g /\
              Flagged.requestCount f = runningTotal 0 (Group.entries g) /\
              (safeCounts (Group.entries g) ->
               Flagged.requestCount f = sumRequestCounts (Group.entries g)) /\
              (safeCounts es -> safeCounts (Group.entries g)) /\
              Flagged.uniquePaths f = List.length (distinct (map path (Group.entries g))) /\
              Flagged.uniqueUserAgents f
              = List.length (distinct (map userAgent (Group.entries g))) /\
              Flagged.entries f = firstn 5 (Group.entries g) /\
              (1 <= List.length (Flagged.entries f) <= 5)%nat /\
              Forall (fun e => In e es /\ sourceIP e = Flagged.sourceIP f)
                     (Flagged.entries f))
         (flaggedEntries (analyzeLogsForDDoS getTime clock es)).
Proof.
  apply (Permutation_Forall (Permutation_sym (flaggedEntries_reported getTime clock es))).
  apply Forall_forall. intros f Hf.
  destruct (stamp_In _ _ _ _ Hf) as (g & now & Hg & ->).
  unfold reported in Hg. apply filter_In in Hg. destruct Hg as [Hg _].
  exists g. split; [assumption|].
  destruct (windows_In _ _ _ Hg) as [k Hk].
  destruct (groupByIPAndTime_GroupsOf getTime (Detection.ANALYSIS_WINDOW DETECTION_CONFIG) es)
    as (_ & HF & _).
  rewrite Forall_forall in HF. pose proof (HF _ Hk) as Hkg.
  pose proof Hkg as [Hent (e0 & rest & He0 & Hfold)]. cbn [snd fst] in *.
  cbn [flaggedOf flaggedEntry Flagged.sourceIP Flagged.requestCount Flagged.uniquePaths
       Flagged.uniqueUserAgents Flagged.entries].
  destruct (GroupOf_totalRequests getTime _ es (k, g) Hkg) as (T1 & T2 & T3). cbn [snd] in *.
  split; [reflexivity|]. split; [exact T1|]. split; [exact T2|]. split; [exact T3|].
  split.
  { rewrite He0. rewrite Hfold at 1. now rewrite addEntry_uniquePaths. }
  split.
  { rewrite He0. rewrite Hfold at 1. now rewrite addEntry_uniqueUserAgents. }
  split; [reflexivity|]. split.
  { rewrite length_firstn, He0. simpl List.length. lia. }
  apply Forall_forall. intros e He. apply In_firstn in He.
  split.
  - apply (GroupOf_entries_In getTime _ _ (k, g) e Hkg He).
  - now destruct (GroupOf_entry getTime _ _ (k, g) e Hkg He).
Qed.

(** ** The normalized records *)

Module TrimFacts.
Import JS.

Lemma trimStart_headed s : headed (trimStart s).
Proof.
  induction s as [|c s IH]; simpl; [exact I|].
  destruct (isWhiteSpace c) eqn:E; [exact IH | exact E].
Qed.

Lemma trimStart_id s : headed s -> trimStart s = s.
Proof. destruct s as [|c s]; simpl; [reflexivity|]. now intros ->. Qed.

Lemma trimEnd_headed s : headed s -> headed (trimEnd s).
Proof.
  destruct s as [|c s]; simpl; [trivial|]. intros H.
  destruct (trimEnd s); [now rewrite H | exact H].
Qed.

Lemma trimEnd_cons c s :
  trimEnd (String c s)
  = match trimEnd s with
    | EmptyString => if isWhiteSpace c then EmptyString else String c EmptyString
    | t => String c t
    end.
Proof. reflexivity. Qed.

Lemma trimEnd_idempotent s : trimEnd (trimEnd s) = trimEnd s.
Proof.
  induction s as [|c s IH]; [reflexivity|].
  rewrite (trimEnd_cons c s).
  destruct (trimEnd s) as [|d t] eqn:E.
  - destruct (isWhiteSpace c) eqn:Ec; [reflexivity|].
    rewrite trimEnd_cons. simpl. now rewrite Ec.
  - rewrite trimEnd_cons, IH. reflexivity.
Qed.

(** [trim] removes all the white space at both ends. *)
Lemma trim_idempotent s : trim (trim s) = trim s.
Proof.
  unfold trim.
  rewrite (trimStart_id (trimEnd (trimStart s))).
  - apply trimEnd_idempotent.
  - apply trimEnd_headed, trimStart_headed.
Qed.

Lemma trimOr_trimmed v d : trim d = d -> trim (trimOr v d) = trimOr v d.
Proof.
  intros Hd. unfold trimOr. destruct v as [s|]; simpl; [|exact Hd].
  destruct (trim s) eqn:E; [exact Hd|]. rewrite <- E. apply trim_idempotent.
Qed.

Lemma trimOr_nonempty v d : d <> "" -> trimOr v d <> "".
Proof.
  intros Hd. unfold trimOr. destruct v as [s|]; simpl; [|exact Hd].
  destruct (trim s); [exact Hd | discriminate].
Qed.

End TrimFacts.

(** X9. Every record a normalizer accepts has a timestamp, a source address
    and a destination address that are neither empty nor the sentinel, and a
    label that is not empty; all four are trimmed, with no white space left
    at either end. *)
Theorem accepted_entries_well_formed
    (parseFloat : option string -> float) (rows : list RawRow) :
  Forall (fun e =>
            (timestamp e <> "" /\ timestamp e <> "N/A") /\
            (sourceIP e <> "" /\ sourceIP e <> "UNKNOWN") /\
            (destinationIP e <> "" /\ destinationIP e <> "UNKNOWN") /\
            label e <> "" /\
            JS.trim (timestamp e) = timestamp e /\
            JS.trim (sourceIP e) = sourceIP e /\
            JS.trim (destinationIP e) = destinationIP e /\
            JS.trim (label e) = label e)
         (acceptedEntries parseFloat rows).
Proof.
  apply Forall_forall. intros e He.
  destruct (acceptedEntries_In parseFloat rows e He) as (data & _ & Hok & ->).
  rewrite <- (rejected_requiredFieldMissing parseFloat) in Hok.
  apply orb_false_iff in Hok. destruct Hok as [Hok Hd].
  apply orb_false_iff in Hok. destruct Hok as [Ht Hs].
  apply String.eqb_neq in Ht, Hs, Hd.
  cbn [timestamp sourceIP destinationIP label normalizedLogEntry] in *.
  repeat split; try assumption;
    try (apply TrimFacts.trimOr_nonempty; discriminate);
    apply TrimFacts.trimOr_trimmed; reflexivity.
Qed.

(** ** The batches of the streaming processor *)

Section BatchFacts.

Variable parseFloat : option string -> float.

(** One row. *)
Lemma process_data_step st data :
  Z.of_nat (List.length (Processor.currentBatch (this st))) < fullBatch (this st) ->
  let st' := process_data parseFloat st data in
  Processor.batchSize (this st') = Processor.batchSize (this st) /\
  Processor.isProcessing (this st') = Processor.isProcessing (this st) /\
  Z.of_nat (List.length (Processor.currentBatch (this st'))) < fullBatch (this st) /\
  exists newB,
    emitted st' = (emitted st ++ map batch newB)%list /\
    Forall (fun b => Z.of_nat (List.length b) = fullBatch (this st)) newB /\
    Processor.totalProcessed (this st')
    = Processor.totalProcessed (this st) + Z.of_nat (List.length (List.concat newB)).
Proof.
  intros Hlt. cbv zeta. unfold process_data. rewrite normalizeLogEntry_cases.
  destruct (requiredFieldMissing data).
  - cbn [this emitted]. repeat split; [assumption|].
    exists []. simpl. rewrite app_nil_r. repeat split; [constructor | lia].
  - set (cur := (Processor.currentBatch (this st) ++ [normalizedLogEntry parseFloat data])%list).
    assert (Hcur : Z.of_nat (List.length cur)
                   = Z.of_nat (List.length (Processor.currentBatch (this st))) + 1).
    { unfold cur. rewrite length_app. simpl. lia. }
    unfold fullBatch in *.
    destruct (Z.of_nat (List.length cur) >=? Processor.batchSize (this st)) eqn:E;
      cbn [this emitted setBatch Processor.batchSize Processor.isProcessing
           Processor.currentBatch Processor.totalProcessed].
    + rewrite Z.geb_leb in E. apply Z.leb_le in E.
      repeat split; [simpl; lia|].
      exists [cur]. simpl. rewrite app_nil_r. repeat split.
      constructor; [lia | constructor].
    + rewrite Z.geb_leb in E. apply Z.leb_gt in E.
      repeat split; [lia|].
      exists []. simpl. rewrite app_nil_r. repeat split; [constructor | lia].
Qed.

Lemma process_data_sizes rows st :
  Z.of_nat (List.length (Processor.currentBatch (this st))) < fullBatch (this st) ->
  let st' := fold_left (process_data parseFloat) rows st in
  Processor.batchSize (this st') = Processor.batchSize (this st) /\
  Processor.isProcessing (this st') = Processor.isProcessing (this st) /\
  Z.of_nat (List.length (Processor.currentBatch (this st'))) < fullBatch (this st) /\
  exists newB,
    emitted st' = (emitted st ++ map batch newB)%list /\
    Forall (fun b => Z.of_nat (List.length b) = fullBatch (this st)) newB /\
    Processor.totalProcessed (this st')
    = Processor.totalProcessed (this st) + Z.of_nat (List.length (List.concat newB)).
Proof.
  revert st. induction rows as [|data rows IH]; intros st Hlt; cbv zeta.
  - simpl. repeat split; [assumption|].
    exists []. simpl. rewrite app_nil_r. repeat split; [constructor | lia].
  - cbn [fold_left].
    destruct (process_data_step st data Hlt) as (B1 & P1 & L1 & b1 & E1 & F1 & T1).
    assert (Hf : fullBatch (this (process_data parseFloat st data)) = fullBatch (this st)).
    { unfold fullBatch. now rewrite B1. }
    destruct (IH (process_data parseFloat st data)) as (B2 & P2 & L2 & b2 & E2 & F2 & T2).
    { now rewrite Hf. }
    rewrite Hf in *.
    repeat split; [congruence | congruence | assumption |].
    exists (b1 ++ b2)%list. rewrite E2, E1, map_app, <- app_assoc.
    repeat split.
    + apply Forall_app. now split.
    + rewrite T2, T1, concat_app, length_app. lia.
Qed.

Lemma batches_map_batch bs : batches (map batch bs) = bs.
Proof. induction bs as [|b bs IH]; simpl; [reflexivity | now rewrite IH]. Qed.

(** A run of a processor that is not running, to the end of the file. *)
Lemma process_run p rows :
  Processor.isProcessing p = false ->
  Z.of_nat (List.length (Processor.currentBatch p)) < fullBatch p ->
  exists p' bs,
    process parseFloat p rows EndOfFile
    = (p', (map batch bs ++ [complete (Processor.totalProcessed p')])%list,
       skipWarnings 1 rows, inr (Processor.totalProcessed p')) /\
    List.concat bs = (Processor.currentBatch p ++ acceptedEntries parseFloat rows)%list /\
    Forall (fun b => 1 <= Z.of_nat (List.length b) <= fullBatch p) bs /\
    Forall (fun b => Z.of_nat (List.length b) = fullBatch p) (removelast bs) /\
    Processor.totalProcessed p'
    = Processor.totalProcessed p + Z.of_nat (List.length (List.concat bs)) /\
    Processor.isProcessing p' = true.
Proof.
  intros Hp Hlt. unfold process. rewrite Hp.
  set (st0 := {| this := setProcessing p true; procRow := 1; emitted := []; procLog := [] |}).
  destruct (process_data_fold parseFloat rows st0) as [C L].
  destruct (process_data_sizes rows st0) as (B & P & Lt & newB & E & F & T); [exact Hlt|].
  set (st := fold_left (process_data parseFloat) rows st0) in *.
  cbn [st0 this emitted procLog procRow setProcessing Processor.batchSize
       Processor.isProcessing Processor.currentBatch Processor.totalProcessed
       batches flat_map List.concat app] in C, L, B, P, Lt, E, T.
  change (fullBatch (this st0)) with (fullBatch p) in *.
  change (fullBatch (setProcessing p true)) with (fullBatch p) in *.
  rewrite E, batches_map_batch in C.
  unfold process_end.
  destruct (Processor.currentBatch (this st)) as [|e cur] eqn:Ecur.
  - eexists. exists newB. cbn [this emitted procLog]. rewrite E, L.
    split; [reflexivity|]. rewrite app_nil_r in C.
    repeat split; try assumption.
    + eapply Forall_impl; [|exact F]. intros b Hb. unfold fullBatch in *. lia.
    + clear - F. induction newB as [|b [|b' bs] IH]; simpl; [constructor | constructor |].
      apply Forall_cons_iff in F. destruct F as [Hb F]. constructor; [assumption|].
      now apply IH.
  - exists (setBatch (this st) (e :: cur)
              (Processor.totalProcessed (this st) + Z.of_nat (List.length (e :: cur)))).
    exists (newB ++ [e :: cur])%list.
    cbn [this emitted procLog setBatch Processor.totalProcessed Processor.isProcessing].
    rewrite E, L, map_app. split; [reflexivity|].
    rewrite concat_app. cbn [List.concat]. rewrite app_nil_r.
    repeat split; try assumption.
    + apply Forall_app. split.
      * eapply Forall_impl; [|exact F]. intros b Hb. unfold fullBatch in *. lia.
      * constructor; [|constructor]. simpl List.length in *. lia.
    + rewrite removelast_last. exact F.
    + rewrite T, length_app. lia.
Qed.

(** The processor after such a run: the entries of the last batch, when it
    is not full, are still its current batch. *)
Lemma process_run_remaining p rows :
  Processor.isProcessing p = false ->
  Z.of_nat (List.length (Processor.currentBatch p)) < fullBatch p ->
  let '(p', evs, _, _) := process parseFloat p rows EndOfFile in
  Processor.isProcessing p' = true /\
  Processor.batchSize p' = Processor.batchSize p /\
  Z.of_nat (List.length (Processor.currentBatch p')) < fullBatch p /\
  exists full,
    Forall (fun b => Z.of_nat (List.length b) = fullBatch p) full /\
    batches evs = (full ++ remaining (Processor.currentBatch p'))%list /\
    (List.concat full ++ Processor.currentBatch p')%list
    = (Processor.currentBatch p ++ acceptedEntries parseFloat rows)%list /\
    Processor.totalProcessed p'
    = Processor.totalProcessed p + Z.of_nat (List.length (List.concat full))
      + Z.of_nat (List.length (Processor.currentBatch p')).
Proof.
  intros Hp Hlt. unfold process. rewrite Hp.
  set (st0 := {| this := setProcessing p true; procRow := 1; emitted := []; procLog := [] |}).
  destruct (process_data_fold parseFloat rows st0) as [C L].
  destruct (process_data_sizes rows st0) as (B & P & Lt & newB & E & F & T); [exact Hlt|].
  set (st := fold_left (process_data parseFloat) rows st0) in *.
  cbn [st0 this emitted procLog procRow setProcessing Processor.batchSize
       Processor.isProcessing Processor.currentBatch Processor.totalProcessed
       batches flat_map List.concat app] in C, L, B, P, Lt, E, T.
  change (fullBatch (this st0)) with (fullBatch p) in *.
  change (fullBatch (setProcessing p true)) with (fullBatch p) in *.
  rewrite E, batches_map_batch in C.
  unfold process_end.
  destruct (Processor.currentBatch (this st)) as [|e cur] eqn:Ecur.
  - cbn [this emitted]. rewrite Ecur.
    split; [exact P|]. split; [exact B|].
    split; [cbn [List.length]; unfold fullBatch; lia|].
    exists newB. rewrite E, batches_app, batches_map_batch.
    cbn [batches flat_map remaining app List.length].
    split; [exact F|]. split; [reflexivity|]. split; [exact C|]. lia.
  - cbn [this emitted setBatch Processor.isProcessing Processor.batchSize
         Processor.currentBatch Processor.totalProcessed].
    split; [exact P|]. split; [exact B|]. split; [exact Lt|].
    exists newB. rewrite E, !batches_app, batches_map_batch.
    cbn [batches flat_map remaining app].
    split; [exact F|]. split; [now rewrite app_nil_r|]. split; [exact C|]. lia.
Qed.

End BatchFacts.

Section WarningFacts.

Lemma length_append a b :
  String.length (a ++ b) = (String.length a + String.length b)%nat.
Proof. induction a as [|c a IH]; simpl; [reflexivity | now rewrite IH]. Qed.

Lemma append_cancel_r a b s : a ++ s = b ++ s -> a = b.
Proof.
  revert b. induction a as [|c a IH]; intros [|d b] H; simpl in H.
  - reflexivity.
  - exfalso. apply (f_equal String.length) in H. simpl in H.
    rewrite length_append in H. lia.
  - exfalso. apply (f_equal String.length) in H. simpl in H.
    rewrite length_append in H. lia.
  - injection H as -> H. f_equal. now apply IH.
Qed.

Lemma append_cancel_l s a b : s ++ a = s ++ b -> a = b.
Proof. induction s as [|c s IH]; simpl; [trivial|]. intros [= H]. now apply IH. Qed.

(** A warning names one row. *)
Lemma skipMessage_inj n m : skipMessage n = skipMessage m -> n = m.
Proof.
  unfold skipMessage. intros H.
  apply append_cancel_l, append_cancel_r, KeyFacts.Number_toString_inj in H. lia.
Qed.

Lemma skipWarnings_In k rows n :
  In (warn, skipMessage n) (skipWarnings k rows)
  <-> exists data, (k <= n)%nat /\ nth_error rows (n - k) = Some data
                   /\ requiredFieldMissing data = true.
Proof.
  revert k. induction rows as [|data rows IH]; intros k; cbn [skipWarnings].
  - split; [intros [] | intros (d & _ & H & _)]. now destruct (n - k)%nat.
  - rewrite in_app_iff, IH. split.
    + intros [H | (d & Hk & Hn & Hd)].
      * destruct (requiredFieldMissing data) eqn:E; [|destruct H].
        destruct H as [H | []]. pose proof (skipMessage_inj _ _ (f_equal snd H)) as Hk.
        subst k.
        exists data. rewrite Nat.sub_diag. repeat split; [lia | assumption].
      * exists d. split; [lia|]. split; [|assumption].
        replace (n - k)%nat with (S (n - S k)) by lia. exact Hn.
    + intros (d & Hk & Hn & Hd).
      destruct (Nat.eq_dec n k) as [-> | Hne].
      * rewrite Nat.sub_diag in Hn. injection Hn as ->. left. rewrite Hd. now left.
      * right. exists d. split; [lia|]. split; [|assumption].
        replace (n - k)%nat with (S (n - S k)) in Hn by lia. exact Hn.
Qed.

Lemma accepted_skipped_length parseFloat k rows :
  (List.length (acceptedEntries parseFloat rows) + List.length (skipWarnings k rows)
   = List.length rows)%nat.
Proof.
  revert k. induction rows as [|data rows IH]; intros k; [reflexivity|].
  rewrite acceptedEntries_cons. cbn [skipWarnings]. rewrite !length_app.
  specialize (IH (S k)). unfold LogLine in *.
  destruct (requiredFieldMissing data); cbn [List.length]; lia.
Qed.

End WarningFacts.

(** X10. [parseCSVLogs] accounts for every row: a row is either among the
    parsed entries or answered by one warning, and the log holds the warning
    with the row number [n] exactly when the [n]-th row of the file, counted
    from 1, is rejected.  The last line of the log reports the number of
    parsed entries. *)
Theorem parseCSVLogs_accounts_for_every_row
    (parseFloat : option string -> float) (filePath : string) (rows : list RawRow) :
  exists parsed warnings,
    parseCSVLogs parseFloat filePath rows EndOfFile
    = (inr parsed, (warnings ++ [(info, parsedMessage (List.length parsed) filePath)])%list) /\
    (List.length parsed + List.length warnings = List.length rows)%nat /\
    forall n, In (warn, skipMessage n) warnings
              <-> exists data, (1 <= n)%nat /\ nth_error rows (n - 1) = Some data
                               /\ requiredFieldMissing data = true.
Proof.
  exists (acceptedEntries parseFloat rows), (skipWarnings 1 rows).
  split; [apply parseCSVLogs_EndOfFile|]. split.
  - apply accepted_skipped_length.
  - intros n. apply skipWarnings_In.
Qed.

(** X11. The streaming processor cuts the accepted entries, in order, into
    batches of [batchSize] entries (1000 when no size or the size 0 is given,
    one entry for a negative size): every batch but the last is full, the
    last holds between one entry and a full batch, no batch is empty, and
    the one ['complete'] event comes last and carries the number of accepted
    entries, which is also what the promise is fulfilled with. *)
Theorem process_emits_full_batches
    (parseFloat : option string -> float) (filePath : string) (batchSize : option Z)
    (rows : list RawRow) :
  let size := Z.max 1 (JS.orNumber batchSize 1000) in
  let total := Z.of_nat (List.length (acceptedEntries parseFloat rows)) in
  exists p' bs,
    process parseFloat (new_StreamingCSVProcessor filePath batchSize) rows EndOfFile
    = (p', (map batch bs ++ [complete total])%list, skipWarnings 1 rows, inr total) /\
    List.concat bs = acceptedEntries parseFloat rows /\
    Forall (fun b => 1 <= Z.of_nat (List.length b) <= size) bs /\
    Forall (fun b => Z.of_nat (List.length b) = size) (removelast bs).
Proof.
  cbv zeta.
  destruct (process_run parseFloat (new_StreamingCSVProcessor filePath batchSize) rows)
    as (p' & bs & E & C & F1 & F2 & T & _).
  { reflexivity. }
  { unfold fullBatch. simpl. lia. }
  cbn [new_StreamingCSVProcessor Processor.currentBatch Processor.totalProcessed app] in C, T.
  exists p', bs. rewrite E, T, C. repeat split; assumption.
Qed.

(** X12. A processor that has run to the end of the file stays marked as
    running: until [stop] is called, a call of [process] is rejected with no
    row read, no event emitted and the processor unchanged.  [stop] resets
    the flag and nothing else: the entries of the last batch, when it was
    not full, are still the current batch, and the count is kept, so the
    next run emits those entries a second time, ahead of its own, and counts
    them twice.  A run that ends in an error of the parser resets the flag
    itself and keeps the entries of its unfinished batch, which it has not
    emitted: the next run emits them ahead of its own, so that the batches of
    the two runs hold the accepted entries of both inputs, each once and in
    order. *)
Theorem processor_reuse
    (parseFloat : option string -> float) (filePath : string) (batchSize : option Z)
    (rows rows' : list RawRow) (fin' : StreamEnd) (message : string) :
  let size := Z.max 1 (JS.orNumber batchSize 1000) in
  (let '(p', evs, _, _) :=
     process parseFloat (new_StreamingCSVProcessor filePath batchSize) rows EndOfFile in
   Processor.isProcessing p' = true /\
   process parseFloat p' rows' fin' = (p', [], [], inl "Processor is already running") /\
   stop p' = {| Processor.filePath := Processor.filePath p';
                Processor.batchSize := Processor.batchSize p';
                Processor.currentBatch := Processor.currentBatch p';
                Processor.totalProcessed := Processor.totalProcessed p';
                Processor.isProcessing := false |} /\
   Z.of_nat (List.length (Processor.currentBatch p')) < size /\
   Processor.totalProcessed p' = Z.of_nat (List.length (acceptedEntries parseFloat rows)) /\
   (exists full,
       Forall (fun b => Z.of_nat (List.length b) = size) full /\
       batches evs = (full ++ remaining (Processor.currentBatch p'))%list /\
       (List.concat full ++ Processor.currentBatch p')%list = acceptedEntries parseFloat rows) /\
   exists p'' bs,
     process parseFloat (stop p') rows' EndOfFile
     = (p'', (map batch bs ++ [complete (Processor.totalProcessed p'')])%list,
        skipWarnings 1 rows', inr (Processor.totalProcessed p'')) /\
     List.concat bs = (Processor.currentBatch p' ++ acceptedEntries parseFloat rows')%list /\
     Processor.totalProcessed p''
     = Z.of_nat (List.length (acceptedEntries parseFloat rows))
       + Z.of_nat (List.length (Processor.currentBatch p'))
       + Z.of_nat (List.length (acceptedEntries parseFloat rows'))) /\
  (let '(p', evs, _, result) :=
     process parseFloat (new_StreamingCSVProcessor filePath batchSize) rows
             (ParserError message) in
   result = inl message /\
   Processor.isProcessing p' = false /\
   (List.concat (batches evs) ++ Processor.currentBatch p')%list
   = acceptedEntries parseFloat rows /\
   exists p'' bs,
     process parseFloat p' rows' EndOfFile
     = (p'', (map batch bs ++ [complete (Processor.totalProcessed p'')])%list,
        skipWarnings 1 rows', inr (Processor.totalProcessed p'')) /\
     (List.concat (batches evs) ++ List.concat bs)%list
     = (acceptedEntries parseFloat rows ++ acceptedEntries parseFloat rows')%list /\
     Processor.totalProcessed p''
     = Z.of_nat (List.length (acceptedEntries parseFloat rows))
       + Z.of_nat (List.length (acceptedEntries parseFloat rows'))) /\
  (let a := sampleRow "1" in
   let b := sampleRow "2" in
   let c := sampleRow "3" in
   let d := sampleRow "4" in
   let '(p1, evs1, _, _) :=
     process DecimalFloat.parseFloat (new_StreamingCSVProcessor filePath (Some 2)) [a; b; c]
             EndOfFile in
   let '(p2, evs2, _, result2) := process DecimalFloat.parseFloat (stop p1) [d] EndOfFile in
   map (map requestCount) (batches evs1) = [[1; 2]; [3]] /\
   map (map requestCount) (batches evs2) = [[3; 4]] /\
   result2 = inr 5).
Proof.
  cbv zeta. split; [|split].
  - pose proof (process_run_remaining parseFloat
                  (new_StreamingCSVProcessor filePath batchSize) rows eq_refl) as H.
    destruct (process parseFloat (new_StreamingCSVProcessor filePath batchSize) rows EndOfFile)
      as [[[p' evs] log] result].
    destruct H as (P & B & Lt & full & F & Eb & C & T).
    { unfold fullBatch. simpl. lia. }
    unfold fullBatch in *.
    cbn [new_StreamingCSVProcessor Processor.batchSize Processor.currentBatch
         Processor.totalProcessed app] in *.
    assert (Tot : Processor.totalProcessed p'
                  = Z.of_nat (List.length (acceptedEntries parseFloat rows))).
    { rewrite T, <- C, length_app. lia. }
    split; [exact P|].
    split; [unfold process; now rewrite P|].
    split; [reflexivity|]. split; [exact Lt|]. split; [exact Tot|].
    split; [exists full; repeat split; assumption|].
    destruct (process_run parseFloat (stop p') rows') as (p'' & bs & E2 & C2 & _ & _ & T2 & _).
    { reflexivity. }
    { unfold fullBatch, stop. cbn [setProcessing Processor.currentBatch Processor.batchSize].
      rewrite B. exact Lt. }
    unfold stop in C2, T2.
    cbn [setProcessing Processor.currentBatch Processor.totalProcessed] in C2, T2.
    exists p'', bs. split; [exact E2|]. split; [exact C2|].
    rewrite T2, C2, length_app, Tot. lia.
  - unfold process at 1. cbn [new_StreamingCSVProcessor Processor.isProcessing].
    set (st0 := {| this := _; procRow := 1; emitted := []; procLog := [] |}).
    destruct (process_data_fold parseFloat rows st0) as [C _].
    destruct (process_data_sizes parseFloat rows st0) as (B & P & Lt & newB & E & F & T).
    { unfold fullBatch. simpl. lia. }
    set (st := fold_left (process_data parseFloat) rows st0) in *.
    cbn [st0 this emitted setProcessing Processor.batchSize Processor.currentBatch
         Processor.totalProcessed batches flat_map List.concat app
         new_StreamingCSVProcessor] in C, B, Lt, E, T.
    split; [reflexivity|]. split; [reflexivity|].
    split; [exact C|].
    destruct (process_run parseFloat (setProcessing (this st) false) rows')
      as (p'' & bs & E2 & C2 & _ & _ & T2 & _).
    { reflexivity. }
    { unfold fullBatch in *. cbn [setProcessing Processor.currentBatch Processor.batchSize].
      rewrite B. exact Lt. }
    cbn [setProcessing Processor.currentBatch Processor.totalProcessed] in C2, T2.
    exists p'', bs. split; [exact E2|]. split.
    + rewrite C2, app_assoc, C. reflexivity.
    + rewrite T2, T, C2, length_app.
      apply (f_equal (@List.length LogEntry)) in C. rewrite length_app in C.
      rewrite E, batches_map_batch in C. lia.
  - vm_compute. repeat split.
Qed.

(** ** The logger *)

Section LoggerFacts.

Lemma Logger_new_level level :
  Logger.currentLevel (Logger.new level) = 1
  \/ (JS.toUpperCase level = "INFO" /\ Logger.currentLevel (Logger.new level) = 2)
  \/ (JS.toUpperCase level = "DEBUG" /\ Logger.currentLevel (Logger.new level) = 3).
Proof.
  unfold Logger.new. cbn [Logger.currentLevel JS.get].
  destruct (String.eqb (JS.toUpperCase level) "ERROR"); [now left|].
  destruct (String.eqb (JS.toUpperCase level) "WARN"); [now left|].
  destruct (String.eqb (JS.toUpperCase level) "INFO") eqn:E1.
  { apply String.eqb_eq in E1. right. left. now split. }
  destruct (String.eqb (JS.toUpperCase level) "DEBUG") eqn:E2.
  { apply String.eqb_eq in E2. right. right. now split. }
  now left.
Qed.

Lemma skipWarnings_isWarning k rows : Forall (fun line => fst line = warn) (skipWarnings k rows).
Proof.
  revert k. induction rows as [|data rows IH]; intros k; cbn [skipWarnings]; [constructor|].
  apply Forall_app. split; [|apply IH].
  destruct (requiredFieldMissing data); repeat constructor.
Qed.

End LoggerFacts.

(** X13. Whatever [LOG_LEVEL] is set to, the logger prints errors and
    warnings: its level is never below 1, since the constructor turns the
    level 0 of [ERROR], like an unknown name, into 1, so that [ERROR]
    configures the same logger as [WARN].  Hence the warnings of the skipped
    rows of [parseCSVLogs] always reach the console, and its closing line
    does so only under [INFO] and [DEBUG]. *)
Theorem logger_prints_warnings
    (LOG_LEVEL : option string) (parseFloat : option string -> float)
    (filePath : string) (rows : list RawRow) :
  let lg := logger LOG_LEVEL in
  1 <= Logger.currentLevel lg <= 3 /\
  (forall now, Logger.log lg now "ERROR" = Some ("[" ++ now ++ "] [ERROR]")
               /\ Logger.log lg now "WARN" = Some ("[" ++ now ++ "] [WARN]")) /\
  logger (Some "ERROR") = logger (Some "WARN") /\
  filter isWarning (printed lg (snd (parseCSVLogs parseFloat filePath rows EndOfFile)))
  = skipWarnings 1 rows /\
  (Logger.currentLevel lg = 1 ->
   printed lg (snd (parseCSVLogs parseFloat filePath rows EndOfFile)) = skipWarnings 1 rows).
Proof.
  cbv zeta. unfold logger.
  set (level := match LOG_LEVEL with
                | None => "INFO" | Some "" => "INFO" | Some level => level end).
  assert (HL : 1 <= Logger.currentLevel (Logger.new level) <= 3).
  { destruct (Logger_new_level level) as [H | [[_ H] | [_ H]]]; rewrite H; lia. }
  assert (HW : forall k rs, printed (Logger.new level) (skipWarnings k rs) = skipWarnings k rs).
  { intros k rs. unfold printed. apply forallb_filter_id. apply forallb_forall.
    intros line Hin. pose proof (skipWarnings_isWarning k rs) as HF.
    rewrite Forall_forall in HF. rewrite (HF _ Hin).
    unfold Logger.log. cbn [levelName Logger.new Logger.levels JS.get String.eqb Ascii.eqb
                            Bool.eqb andb].
    destruct (1 <=? Logger.currentLevel (Logger.new level)) eqn:E; [reflexivity|].
    apply Z.leb_gt in E. unfold Logger.new in *. cbn [Logger.currentLevel] in *. lia. }
  split; [exact HL|]. split; [|split; [reflexivity|]].
  - intros now. unfold Logger.log.
    cbn [Logger.new Logger.levels JS.get String.eqb Ascii.eqb Bool.eqb andb].
    destruct (0 <=? Logger.currentLevel (Logger.new level)) eqn:E0;
      destruct (1 <=? Logger.currentLevel (Logger.new level)) eqn:E1;
      try (apply Z.leb_gt in E0); try (apply Z.leb_gt in E1);
      unfold Logger.new in *; cbn [Logger.currentLevel] in *; try lia.
    now split.
  - rewrite parseCSVLogs_EndOfFile. cbn [snd]. unfold printed in *.
    rewrite !filter_app, HW. cbn [filter fst levelName isWarning].
    assert (Hw : filter isWarning (skipWarnings 1 rows) = skipWarnings 1 rows).
    { apply forallb_filter_id. apply forallb_forall. intros line Hin.
      pose proof (skipWarnings_isWarning 1 rows) as HF. rewrite Forall_forall in HF.
      unfold isWarning. now rewrite (HF _ Hin). }
    split.
    + rewrite Hw. destruct (Logger.log _ _ _); simpl; now rewrite app_nil_r.
    + intros H1. unfold Logger.log.
      cbn [Logger.new Logger.levels JS.get String.eqb Ascii.eqb Bool.eqb andb].
      unfold Logger.new in H1. cbn [Logger.currentLevel] in H1.
      unfold Logger.new. cbn [Logger.currentLevel]. rewrite H1. simpl.
      now rewrite app_nil_r.
Qed.

(** ** The summary report *)

Section ReportFacts.

Lemma reportEntry_unstamped r n f1 f2 :
  unstamped f1 = unstamped f2 -> reportEntry r (n, f1) = reportEntry r (n, f2).
Proof.
  unfold unstamped. intros H. injection H as H1 H2 H3 H4 H5 _ _ _ _ _ _ _.
  unfold reportEntry. now rewrite H1, H2, H3, H4, H5.
Qed.

Lemma reportEntry_fold_unstamped l1 l2 n r :
  map unstamped l1 = map unstamped l2 ->
  fold_left reportEntry (combine (seq n (List.length l1)) l1) r
  = fold_left reportEntry (combine (seq n (List.length l2)) l2) r.
Proof.
  revert l2 n r. induction l1 as [|f1 l1 IH]; intros [|f2 l2] n r H; try discriminate.
  - reflexivity.
  - cbn [map] in H.
    pose proof (f_equal (hd (unstamped f1)) H) as Hf.
    pose proof (f_equal (@tl Flagged.t) H) as Hl. cbn [hd tl] in Hf, Hl.
    cbn [List.length seq combine fold_left].
    rewrite (reportEntry_unstamped r n f1 f2 Hf). now apply IH.
Qed.

(** The report reads no generation timestamp. *)
Lemma generateSummaryReport_unstamped o1 o2 :
  map unstamped (flaggedEntries o1) = map unstamped (flaggedEntries o2) ->
  analysisStats o1 = analysisStats o2 ->
  generateSummaryReport o1 = generateSummaryReport o2.
Proof.
  intros Hf Hs. unfold generateSummaryReport. cbv zeta. rewrite Hs.
  assert (Hl : List.length (flaggedEntries o1) = List.length (flaggedEntries o2)).
  { now rewrite <- (length_map unstamped), Hf, length_map. }
  rewrite Hl. destruct (List.length (flaggedEntries o2) =? 0)%nat; [reflexivity|].
  rewrite <- Hl at 1. now apply reportEntry_fold_unstamped.
Qed.

(** The output of two runs at different times, timestamps apart. *)
Lemma analyzeLogsForDDoS_unstamped getTime clock1 clock2 es :
  map unstamped (flaggedEntries (analyzeLogsForDDoS getTime clock1 es))
  = map unstamped (flaggedEntries (analyzeLogsForDDoS getTime clock2 es))
  /\ analysisStats (analyzeLogsForDDoS getTime clock1 es)
     = analysisStats (analyzeLogsForDDoS getTime clock2 es).
Proof.
  split; [|now rewrite !analysisStats_statsOf].
  unfold analyzeLogsForDDoS. cbn [flaggedEntries]. rewrite !analyzeLoop_flagged.
  rewrite !(JSFacts.sort_map byRiskDescending byRiskDescending unstamped) by reflexivity.
  now rewrite !stamp_unstamped.
Qed.

End ReportFacts.

(** X14. The summary report of a run does not depend on when the run is
    made: it shows the statistics and, for each flagged entry in rank order,
    the address, the score, the request count, the frequency and the
    indicators, and none of the generation timestamps, so two runs on the
    same records give the same report, character for character. *)
Theorem summary_report_independent_of_clock
    (getTime : string -> option Z) (clock1 clock2 : nat -> string) (es : list LogEntry) :
  generateSummaryReport (analyzeLogsForDDoS getTime clock1 es)
  = generateSummaryReport (analyzeLogsForDDoS getTime clock2 es).
Proof.
  destruct (analyzeLogsForDDoS_unstamped getTime clock1 clock2 es) as [Hf Hs].
  now apply generateSummaryReport_unstamped.
Qed.

(** ** The queries to the language model *)

Section QueryFacts.

Variable typeError : string -> string.
Variable agents : option (list LLM.Agent).
Variable world : Z -> LLM.FetchResult.
Variable promptText : string.

(** The loop from [attempt] on, when the last attempt is [maxRetries]. *)
Lemma queryLoop_spec maxRetries remaining attempt index :
  maxRetries = attempt + Z.of_nat remaining - 1 ->
  let run := LLM.queryLoop typeError agents world promptText maxRetries remaining attempt index in
  map fst (LLM.warned run)
  = map (fun i => attempt + Z.of_nat i) (seq 0 (List.length (LLM.warned run))) /\
  LLM.slept run
  = map (fun i => 2 ^ (attempt + Z.of_nat i) * 1000) (seq 0 (List.length (LLM.slept run))) /\
  (List.length (LLM.requests run) <= List.length (LLM.warned run) + 1)%nat /\
  match LLM.settled run with
  | inr (Some text) =>
      (List.length (LLM.warned run) < remaining)%nat /\
      List.length (LLM.slept run) = List.length (LLM.warned run) /\
      LLM.readResponse (world (attempt + Z.of_nat (List.length (LLM.warned run)))) = inr text
  | inr None => remaining = O /\ LLM.warned run = [] /\ LLM.requests run = []
  | inl message =>
      List.length (LLM.warned run) = remaining /\
      S (List.length (LLM.slept run)) = remaining /\
      exists m, last (LLM.warned run) (0, "") = (maxRetries, m)
                /\ message = "LLM query failed after " ++ JS.Number_toString maxRetries
                             ++ " attempts: " ++ m
  end.
Proof.
  revert attempt index. induction remaining as [|remaining IH]; intros attempt index Hmax.
  - simpl. repeat split; lia.
  - cbn [LLM.queryLoop]. cbv zeta.
    destruct (LLM.attemptOnce typeError agents world promptText attempt index)
      as [[outcome index'] sent] eqn:Eo.
    assert (Hsent : (List.length sent <= 1)%nat).
    { unfold LLM.attemptOnce in Eo. destruct agents as [l|].
      - destruct (LLM.selectNextAgent l index) as [[a|] i'];
          injection Eo as _ _ <-; simpl; lia.
      - injection Eo as _ _ <-. simpl. lia. }
    destruct outcome as [message | text].
    + destruct (attempt =? maxRetries) eqn:E.
      * apply Z.eqb_eq in E. cbn [LLM.settled LLM.warned LLM.slept LLM.requests
                                  List.length map seq fst last].
        rewrite Z.add_0_r. repeat split; try lia.
        exists message. split; [now rewrite E | reflexivity].
      * apply Z.eqb_neq in E.
        specialize (IH (attempt + 1) index' ltac:(lia)). cbv zeta in IH.
        destruct IH as (W & S & R & M).
        cbn [LLM.settled LLM.warned LLM.slept LLM.requests List.length map seq fst].
        rewrite <- !seq_shift, !map_map, Z.add_0_r.
        split; [|split; [|split]].
        -- f_equal. rewrite W. apply map_ext. intros i. lia.
        -- f_equal. rewrite S at 1. apply map_ext. intros i. f_equal. f_equal. lia.
        -- rewrite length_app. lia.
        -- destruct (LLM.settled (LLM.queryLoop typeError agents world promptText maxRetries remaining (attempt + 1) index'))
             as [msg | [text|]].
           ++ destruct M as (M1 & M2 & m & M3 & M4).
              repeat split; try lia. exists m. split; [|assumption].
              destruct (LLM.warned (LLM.queryLoop typeError agents world promptText maxRetries remaining (attempt + 1) index'));
                [simpl in M1; lia | exact M3].
           ++ destruct M as (M1 & M2 & M3). repeat split; try lia.
              rewrite <- M3. do 2 f_equal. lia.
           ++ destruct M as (M1 & _). lia.
    + unfold LLM.attemptOnce in Eo. destruct agents as [l|]; [|discriminate].
      destruct (LLM.selectNextAgent l index) as [[a|] i']; [|discriminate].
      injection Eo as Eo _ _.
      cbn [LLM.settled LLM.warned LLM.slept LLM.requests List.length map seq].
      rewrite Z.add_0_r. repeat split; try lia. assumption.
Qed.

Lemma backoffs_sum k : fold_right Z.add 0 (backoffs k) = (2 ^ (Z.of_nat k + 1) - 2) * 1000.
Proof.
  unfold backoffs. induction k as [|k IH]; [reflexivity|].
  rewrite seq_S, map_app, fold_right_app. cbn [map fold_right plus].
  assert (G : forall l a, fold_right Z.add a l = fold_right Z.add 0 l + a).
  { induction l as [|x l IHl]; intros a; simpl; [lia | rewrite IHl; lia]. }
  rewrite G, IH.
  replace (Z.of_nat (S k) + 1) with (Z.succ (Z.of_nat (S k))) by lia.
  rewrite Z.pow_succ_r by lia.
  replace (Z.of_nat k + 1) with (Z.of_nat (S k)) by lia. lia.
Qed.

End QueryFacts.

(** X15. [queryLLM] makes at most [maxRetries] attempts (3 when the option
    is missing or 0), numbered from 1, and returns the text of the first
    response that is acceptable.  After a failed attempt [a] other than the
    last it sleeps [2^a] seconds, so a query that fails throughout sleeps
    [2^maxRetries - 2] seconds in all and then throws the message of the
    last failure behind ['LLM query failed after N attempts: ']; it does not
    sleep after the last failure.  With a negative [maxRetries] it makes no
    attempt and returns [undefined]. *)
Theorem queryLLM_retries_with_backoff
    (typeError : string -> string) (agents : option (list LLM.Agent)) (world : Z -> LLM.FetchResult)
    (promptText : string) (maxRetries : option Z) (index : option nat) :
  let N := JS.orNumber maxRetries 3 in
  let run := LLM.queryLLM typeError agents world promptText maxRetries index in
  let failures := List.length (LLM.warned run) in
  map fst (LLM.warned run) = map Z.of_nat (seq 1 failures) /\
  (List.length (LLM.requests run) <= failures + 1)%nat /\
  match LLM.settled run with
  | inr (Some text) =>
      Z.of_nat failures < N /\ LLM.slept run = backoffs failures /\
      LLM.readResponse (world (Z.of_nat failures + 1)) = inr text
  | inr None => N <= 0 /\ LLM.warned run = [] /\ LLM.requests run = [] /\ LLM.slept run = []
  | inl message =>
      1 <= N /\ Z.of_nat failures = N /\
      LLM.slept run = backoffs (failures - 1) /\
      fold_right Z.add 0 (LLM.slept run) = (2 ^ N - 2) * 1000 /\
      exists m, last (LLM.warned run) (0, "") = (N, m)
                /\ message = "LLM query failed after " ++ JS.Number_toString N
                             ++ " attempts: " ++ m
  end.
Proof.
  cbv zeta. unfold LLM.queryLLM.
  set (N := JS.orNumber maxRetries 3).
  destruct (Z_le_gt_dec N 0) as [Hn | Hn].
  - replace (Z.to_nat N) with O by lia.
    cbn [LLM.queryLoop LLM.settled LLM.warned LLM.slept LLM.requests List.length map seq].
    repeat split; try reflexivity; try lia.
  - pose proof (queryLoop_spec typeError agents world promptText N (Z.to_nat N) 1 index
                  ltac:(lia)) as H.
    cbv zeta in H. destruct H as (W & S & R & M).
    set (run := LLM.queryLoop typeError agents world promptText N (Z.to_nat N) 1 index) in *.
    assert (Hseq : forall k, map (fun i => 1 + Z.of_nat i) (seq 0 k) = map Z.of_nat (seq 1 k)).
    { intros k. rewrite <- seq_shift, map_map. apply map_ext. intros; lia. }
    assert (Hback : forall k, map (fun i => 2 ^ (1 + Z.of_nat i) * 1000) (seq 0 k) = backoffs k).
    { intros k. unfold backoffs. rewrite <- seq_shift, map_map. apply map_ext.
      intros i. f_equal. f_equal. lia. }
    rewrite Hseq in W. rewrite Hback in S.
    split; [exact W|]. split; [exact R|].
    destruct (LLM.settled run) as [message | [text|]].
    + destruct M as (M1 & M2 & m & M3 & M4).
      assert (Hl : List.length (LLM.slept run) = (List.length (LLM.warned run) - 1)%nat) by lia.
      rewrite Hl in S.
      repeat split; try lia; [exact S | | exists m; now split].
      rewrite S, backoffs_sum.
      replace (Z.of_nat (List.length (LLM.warned run) - 1) + 1) with N by lia. reflexivity.
    + destruct M as (M1 & M2 & M3). rewrite M2 in S.
      repeat split; [lia | exact S |].
      rewrite <- M3. do 2 f_equal. lia.
    + destruct M as (M1 & _). lia.
Qed.

Lemma map_seq_cons {A} (f g : nat -> A) (k : nat) (x : A) :
  x = g O -> (forall i, f i = g (S i)) -> x :: map f (seq 0 k) = map g (seq 0 (S k)).
Proof.
  intros -> H. cbn [seq map]. f_equal. rewrite <- seq_shift, map_map.
  apply map_ext. exact H.
Qed.

Section AgentFacts.

Variable typeError : string -> string.
Variable world : Z -> LLM.FetchResult.
Variable promptText : string.

(** Without agents no attempt sends a request or moves the index, and each
    fails with the same [TypeError]. *)
Lemma queryLoop_no_agents maxRetries remaining attempt index :
  maxRetries = attempt + Z.of_nat remaining - 1 ->
  let run := LLM.queryLoop typeError None world promptText maxRetries remaining attempt index in
  LLM.requests run = [] /\ LLM.agentIndex run = index /\
  LLM.warned run
  = map (fun i => (attempt + Z.of_nat i, typeError (LLM.propertyName index))) (seq 0 remaining) /\
  LLM.slept run = map (fun i => 2 ^ (attempt + Z.of_nat i) * 1000) (seq 0 (remaining - 1)) /\
  (remaining <> O ->
   LLM.settled run = inl ("LLM query failed after " ++ JS.Number_toString maxRetries
                          ++ " attempts: " ++ typeError (LLM.propertyName index))).
Proof.
  revert attempt. induction remaining as [|remaining IH]; intros attempt Hmax.
  - cbv zeta. cbn. repeat split. intros []; reflexivity.
  - cbv zeta. cbn [LLM.queryLoop LLM.attemptOnce].
    destruct (attempt =? maxRetries) eqn:E.
    + apply Z.eqb_eq in E. assert (remaining = O) by lia. subst remaining.
      cbn [LLM.requests LLM.agentIndex LLM.warned LLM.slept LLM.settled map seq Nat.sub].
      rewrite Z.add_0_r. repeat split.
    + apply Z.eqb_neq in E.
      destruct (IH (attempt + 1) ltac:(lia)) as (R & I & W & D & Hs).
      destruct remaining as [|remaining']; [lia|].
      cbn [LLM.requests LLM.agentIndex LLM.warned LLM.slept LLM.settled app].
      rewrite W, D.
      replace (S (S remaining') - 1)%nat with (S remaining') by lia.
      replace (S remaining' - 1)%nat with remaining' by lia.
      repeat split; try assumption.
      * apply map_seq_cons; [|intros i]; f_equal; lia.
      * apply map_seq_cons; [|intros i]; do 2 f_equal; lia.
      * intros _. apply Hs. lia.
Qed.

Variable agents : list LLM.Agent.

(** With agents, every attempt sends the prompt to the agent under the
    index and moves the index one on, round the list. *)
Lemma queryLoop_rotation maxRetries remaining attempt i :
  (i < List.length agents)%nat ->
  let n := List.length agents in
  let run := LLM.queryLoop typeError (Some agents) world promptText maxRetries remaining
               attempt (Some i) in
  let k := List.length (LLM.requests run) in
  map Some (LLM.requests run)
  = map (fun j => option_map (fun a => (a, promptText)) (nth_error agents ((i + j) mod n)))
        (seq 0 k) /\
  LLM.agentIndex run = Some ((i + k) mod n)%nat /\
  k = (List.length (LLM.warned run)
       + match LLM.settled run with inr (Some _) => 1 | _ => 0 end)%nat.
Proof.
  cbv zeta. revert attempt i. induction remaining as [|remaining IH]; intros attempt i Hi.
  - cbn. rewrite Nat.add_0_r, Nat.mod_small by assumption. repeat split.
  - cbn [LLM.queryLoop LLM.attemptOnce LLM.selectNextAgent].
    destruct (nth_error agents i) as [a|] eqn:Ea;
      [|apply nth_error_None in Ea; lia].
    destruct (List.length agents) as [|n'] eqn:En; [lia|].
    assert (Hnext : ((i + 1) mod S n' < S n')%nat) by (apply Nat.mod_upper_bound; lia).
    assert (Hhead : option_map (fun a => (a, promptText)) (nth_error agents ((i + 0) mod S n'))
                    = Some (a, promptText)).
    { rewrite Nat.add_0_r, Nat.mod_small, Ea by assumption. reflexivity. }
    destruct (LLM.readResponse (world attempt)) as [message | text].
    + destruct (attempt =? maxRetries).
      * cbn [LLM.requests LLM.agentIndex LLM.warned LLM.settled List.length map seq].
        rewrite Hhead. repeat split.
      * destruct (IH (attempt + 1) ((i + 1) mod S n')%nat Hnext) as (R & I & K).
        cbn [LLM.requests LLM.agentIndex LLM.warned LLM.settled List.length map seq app].
        rewrite Hhead, <- seq_shift, map_map.
        split; [|split].
        -- f_equal. rewrite R. apply map_ext. intros j. do 2 f_equal.
           rewrite Nat.Div0.add_mod_idemp_l. f_equal. lia.
        -- rewrite I. f_equal. rewrite Nat.Div0.add_mod_idemp_l. f_equal. lia.
        -- rewrite K at 1. reflexivity.
    + cbn [LLM.requests LLM.agentIndex LLM.warned LLM.settled List.length map seq].
      rewrite Hhead. repeat split.
Qed.

End AgentFacts.

(** X16. As shipped, [CONFIG] has no [LLM_AGENTS], so the read of
    [CONFIG.LLM_AGENTS[currentAgentIndex]] throws inside the [try] block of
    every attempt: whatever the prompt, the options and the server,
    [queryLLM] sends no request and leaves the agent index alone; when
    [maxRetries] is at least 1 every attempt is logged as failed with the
    same [TypeError], the back-off delays are slept all the same, and the
    query throws that error behind ['LLM query failed after N attempts: ']. *)
Theorem queryLLM_fails_without_agents
    (typeError : string -> string) (world : Z -> LLM.FetchResult)
    (promptText : string) (maxRetries : option Z) (index : option nat) :
  let N := JS.orNumber maxRetries 3 in
  let run := LLM.queryLLM typeError LLM.LLM_AGENTS world promptText maxRetries index in
  LLM.requests run = [] /\ LLM.agentIndex run = index /\
  LLM.warned run
  = map (fun a => (Z.of_nat a, typeError (LLM.propertyName index))) (seq 1 (Z.to_nat N)) /\
  (1 <= N ->
   LLM.slept run = backoffs (Z.to_nat N - 1) /\
   LLM.settled run = inl ("LLM query failed after " ++ JS.Number_toString N
                          ++ " attempts: " ++ typeError (LLM.propertyName index))).
Proof.
  cbv zeta. set (N := JS.orNumber maxRetries 3).
  unfold LLM.queryLLM, LLM.LLM_AGENTS. fold N.
  destruct (Z_le_gt_dec N 0) as [Hn | Hn].
  - replace (Z.to_nat N) with O by lia. cbn. repeat split. lia.
  - destruct (queryLoop_no_agents typeError world promptText N (Z.to_nat N) 1 index
                ltac:(lia)) as (R & I & W & D & Hs).
    split; [exact R|]. split; [exact I|]. split.
    + rewrite W, <- seq_shift, map_map. apply map_ext. intros i. f_equal. lia.
    + intros _. split; [|apply Hs; lia].
      rewrite D. unfold backoffs. rewrite <- seq_shift, map_map. apply map_ext.
      intros i. do 2 f_equal. lia.
Qed.

(** X17. With a list of agents and the index inside it, [queryLLM] sends
    one request per attempt, each with the prompt, to the agents in turn,
    starting from the agent under the index and going round the list; the
    index it leaves behind is the old one moved on by the number of requests,
    so the next query goes on where this one stopped, whether this one
    succeeded or not. *)
Theorem queryLLM_round_robin
    (typeError : string -> string) (agents : list LLM.Agent) (world : Z -> LLM.FetchResult)
    (promptText : string) (maxRetries : option Z) (i : nat) :
  (i < List.length agents)%nat ->
  let n := List.length agents in
  let run := LLM.queryLLM typeError (Some agents) world promptText maxRetries (Some i) in
  let k := List.length (LLM.requests run) in
  map Some (LLM.requests run)
  = map (fun j => option_map (fun a => (a, promptText)) (nth_error agents ((i + j) mod n)))
        (seq 0 k) /\
  LLM.agentIndex run = Some ((i + k) mod n)%nat /\
  k = (List.length (LLM.warned run)
       + match LLM.settled run with inr (Some _) => 1 | _ => 0 end)%nat.
Proof.
  intros Hi. unfold LLM.queryLLM. now apply queryLoop_rotation.
Qed.

Lemma queryLLM_round_robin_witness :
  let agents := [ {| LLM.endpoint := "http://a"; LLM.model := "m1" |};
                  {| LLM.endpoint := "http://b"; LLM.model := "m2" |} ] in
  let down := fun _ : Z => LLM.rejected "connect ECONNREFUSED" in
  let run := LLM.queryLLM (fun name => name) (Some agents) down "p" None (Some 1%nat) in
  map (fun r => LLM.endpoint (fst r)) (LLM.requests run) = ["http://b"; "http://a"; "http://b"]
  /\ LLM.agentIndex run = Some 0%nat.
Proof.
  cbv zeta.
  destruct (queryLLM_round_robin (fun name => name)
              [ {| LLM.endpoint := "http://a"; LLM.model := "m1" |};
                {| LLM.endpoint := "http://b"; LLM.model := "m2" |} ]
              (fun _ : Z => LLM.rejected "connect ECONNREFUSED") "p" None 1%nat
              ltac:(simpl; lia)) as (_ & I & _).
  split; [vm_compute; reflexivity|].
  rewrite I. vm_compute. reflexivity.
Defined.

(** ** The order of the input *)

Section OrderFacts.

Lemma Permutation_filter {A : Type} (p : A -> bool) l l' :
  Permutation l l' -> Permutation (filter p l) (filter p l').
Proof.
  induction 1 as [|x l l' _ IH|x y l|l l' l'' _ IH1 _ IH2]; cbn [filter].
  - constructor.
  - destruct (p x); [now constructor | assumption].
  - destruct (p x), (p y); try reflexivity. apply perm_swap.
  - now transitivity (filter p l').
Qed.

Lemma existsb_perm {A : Type} (p : A -> bool) l l' :
  Permutation l l' -> existsb p l = existsb p l'.
Proof.
  induction 1 as [|x l l' _ IH|x y l|l l' l'' _ IH1 _ IH2]; cbn [existsb].
  - reflexivity.
  - now rewrite IH.
  - now destruct (p x), (p y).
  - congruence.
Qed.

Lemma sumRequestCounts_perm l l' :
  Permutation l l' -> sumRequestCounts l = sumRequestCounts l'.
Proof.
  unfold sumRequestCounts.
  induction 1 as [|x l l' _ IH|x y l|l l' l'' _ IH1 _ IH2]; cbn [fold_right]; lia.
Qed.

Lemma distinct_perm l l' : Permutation l l' -> Permutation (distinct l) (distinct l').
Proof.
  intros H. apply NoDup_Permutation; try apply distinct_NoDup.
  intros x. rewrite !distinct_In. split; apply Permutation_in; [|symmetry]; assumption.
Qed.

Variable getTime : string -> option Z.
Variable windowMinutes : positive.

(** The fields of an aggregate, from its entries, when their counts are
    safe. *)
Lemma GroupOf_fields es kg :
  GroupOf getTime windowMinutes es kg ->
  safeCounts (Group.entries (snd kg)) ->
  let g := snd kg in
  Group.totalRequests g = sumRequestCounts (Group.entries g) /\
  Group.uniquePaths g = distinct (map path (Group.entries g)) /\
  Group.uniqueUserAgents g = distinct (map userAgent (Group.entries g)) /\
  (forall code, JS.get (Group.responseCodes g) code
                = if holds responseCode code (Group.entries g)
                  then Some (requestsWith responseCode code (Group.entries g))
                  else None) /\
  (forall m, JS.get (Group.methods g) m
             = if holds method m (Group.entries g)
               then Some (requestsWith method m (Group.entries g))
               else None).
Proof.
  intros H Hs.
  destruct (GroupOf_totalRequests getTime windowMinutes es kg H) as (_ & T & _).
  specialize (T Hs). revert Hs T.
  destruct kg as [k g]. destruct H as [_ (e0 & rest & Hent & Hfold)]. cbn [snd] in *. cbv zeta.
  rewrite Hent. clear Hent. intros Hs T. split; [exact T|]. clear T. subst g.
  rewrite addEntry_uniquePaths, addEntry_uniqueUserAgents,
    addEntry_responseCodes, addEntry_methods.
  unfold safeCounts in Hs.
  repeat split.
  - intros code. rewrite tally_fold by (cbn [JS.get newGroup Group.responseCodes
                                               JS.orNumber Z.abs]; lia).
    simpl JS.get. now rewrite orNumber_0.
  - intros m. rewrite tally_fold by (cbn [JS.get newGroup Group.methods
                                            JS.orNumber Z.abs]; lia).
    simpl JS.get. now rewrite orNumber_0.
Qed.

(** The aggregates of a key in two orders of the input. *)
Lemma GroupOf_alike es es' kg kg' :
  Permutation es es' -> safeCounts es ->
  GroupOf getTime windowMinutes es kg -> GroupOf getTime windowMinutes es' kg' ->
  fst kg = fst kg' ->
  alike (snd kg) (snd kg').
Proof.
  intros HP Hs H H' Hk.
  assert (Hs' : safeCounts es') by (unfold safeCounts; now rewrite <- (magnitude_perm _ _ HP)).
  destruct (GroupOf_totalRequests getTime windowMinutes es kg H) as (_ & _ & S).
  destruct (GroupOf_totalRequests getTime windowMinutes es' kg' H') as (_ & _ & S').
  specialize (S Hs). specialize (S' Hs').
  assert (HE : Permutation (Group.entries (snd kg)) (Group.entries (snd kg'))).
  { destruct H as [-> _], H' as [-> _]. rewrite Hk. now apply Permutation_filter. }
  destruct (GroupOf_identity getTime windowMinutes es kg H) as [K _].
  destruct (GroupOf_identity getTime windowMinutes es' kg' H') as [K' _].
  rewrite Hk, K' in K.
  apply KeyFacts.key_split in K; try apply KeyFacts.toString_no_underscore.
  destruct K as [Kip Ktw]. apply KeyFacts.toString_inj in Ktw.
  destruct (GroupOf_fields es kg H S) as (T & P & U & R & M).
  destruct (GroupOf_fields es' kg' H' S') as (T' & P' & U' & R' & M').
  destruct (GroupOf_labels _ _ _ _ H) as [L N].
  destruct (GroupOf_labels _ _ _ _ H') as [L' N'].
  cbv zeta in *. unfold alike.
  rewrite T, T', P, P', U, U', L, L', N, N'.
  repeat split; auto using sumRequestCounts_perm, distinct_perm, Permutation_map,
                    Permutation_filter, existsb_perm.
  - intros code. rewrite R, R'. unfold holds, requestsWith.
    rewrite (existsb_perm _ _ _ HE).
    now rewrite (sumRequestCounts_perm _ _ (Permutation_filter _ _ _ HE)).
  - intros m. rewrite M, M'. unfold holds, requestsWith.
    rewrite (existsb_perm _ _ _ HE).
    now rewrite (sumRequestCounts_perm _ _ (Permutation_filter _ _ _ HE)).
Qed.

End OrderFacts.

Section VerdictFacts.

Lemma filter_nonempty {A : Type} (p : A -> bool) l :
  (0 <? List.length (filter p l))%nat = existsb p l.
Proof.
  induction l as [|x l IH]; cbn [filter existsb]; [reflexivity|].
  destruct (p x); [reflexivity | exact IH].
Qed.

Lemma insertIndex_perm {V : Type} n (e : string * V) l :
  Permutation (JS.insertIndex n e l) ((n, e) :: l).
Proof.
  induction l as [|[m e'] l IH]; cbn [JS.insertIndex]; [reflexivity|].
  destruct (n <? m); [reflexivity|].
  rewrite IH. apply perm_swap.
Qed.

Lemma Object_entries_perm {V : Type} (o : list (string * V)) :
  Permutation (JS.Object_entries o) o.
Proof.
  unfold JS.Object_entries.
  induction o as [|e o IH]; cbn [fold_right filter]; [reflexivity|].
  destruct (JS.arrayIndex (fst e)) as [n|].
  - rewrite insertIndex_perm. cbn [map snd app]. now constructor.
  - rewrite <- Permutation_middle. now constructor.
Qed.

Lemma get_Some_In {V : Type} (o : list (string * V)) k v :
  JS.get o k = Some v -> In (k, v) o.
Proof.
  induction o as [|[k' v'] o IH]; cbn [JS.get]; [discriminate|].
  destruct (String.eqb k k') eqn:E.
  - apply String.eqb_eq in E. intros [= ->]. subst. now left.
  - intros H. right. now apply IH.
Qed.

(** A list of suspicious properties is not empty exactly when the object
    has one of the suspicious names. *)
Lemma suspiciousEntries_some suspicious o :
  (0 <? List.length (suspiciousEntries suspicious o))%nat
  = existsb (fun k => match JS.get o k with Some _ => true | None => false end) suspicious.
Proof.
  unfold suspiciousEntries.
  rewrite filter_nonempty, (existsb_perm _ _ _ (Object_entries_perm o)).
  apply eq_true_iff_eq. rewrite !existsb_exists. split.
  - intros ([k v] & Hin & Hk). apply existsb_exists in Hk.
    destruct Hk as (k' & Hk' & E). apply String.eqb_eq in E. cbn [fst] in E. subst k'.
    exists k. split; [assumption|].
    destruct (JS.get o k) eqn:G; [reflexivity|].
    exfalso. apply (JSFacts.get_None_notin _ _ G). now apply (in_map fst _ (k, v)).
  - intros (k & Hk & G). destruct (JS.get o k) as [v|] eqn:Gv; [|discriminate].
    exists (k, v). split; [now apply get_Some_In|].
    apply existsb_exists. exists k. split; [assumption | apply String.eqb_refl].
Qed.

Lemma existsb_same {A : Type} (p q : A -> bool) l :
  (forall x, p x = q x) -> existsb p l = existsb q l.
Proof.
  intros H. induction l as [|x l IH]; cbn [existsb]; [reflexivity|]. now rewrite H, IH.
Qed.

Lemma alike_frequencyOf g g' : alike g g' -> frequencyOf g = frequencyOf g'.
Proof. intros (_ & _ & _ & T & _). unfold frequencyOf. now rewrite T. Qed.

(** The same rules fire for two aggregates of the same entries. *)
Lemma alike_firedRules g g' : alike g g' -> firedRules g = firedRules g'.
Proof.
  intros H. pose proof (alike_frequencyOf g g' H) as F.
  destruct H as (I & _ & _ & _ & P & U & _ & _ & R & M).
  unfold firedRules. rewrite <- F. apply filter_ext_in. intros rule Hin.
  unfold indicatorRules in Hin. cbn [In] in Hin.
  destruct Hin as [<-|[<-|[<-|[<-|[<-|[<-|[<-|[]]]]]]]]; cbn [Rule.check];
    try reflexivity.
  - rewrite !filter_nonempty. apply existsb_perm, U.
  - now rewrite I.
  - rewrite !suspiciousEntries_some. apply existsb_same. intros k. now rewrite R.
  - now rewrite (Permutation_length P).
  - rewrite !suspiciousEntries_some. apply existsb_same. intros k. now rewrite M.
Qed.

Lemma alike_markedLabels g g' :
  alike g g' -> List.length (markedLabels g) = List.length (markedLabels g').
Proof.
  intros (_ & _ & _ & _ & _ & _ & L & _). unfold markedLabels.
  now apply Permutation_length, Permutation_filter.
Qed.

Lemma alike_attackLabels g g' :
  alike g g' -> List.length (attackLabels g) = List.length (attackLabels g').
Proof.
  intros (_ & _ & _ & _ & _ & _ & L & _). unfold attackLabels.
  now apply Permutation_length, Permutation_filter.
Qed.

Lemma alike_totalRisk g g' : alike g g' -> totalRisk g = totalRisk g'.
Proof.
  intros H. unfold totalRisk, ruleWeight, labelWeight.
  now rewrite (alike_firedRules g g' H), (alike_markedLabels g g' H).
Qed.

Lemma alike_verdict g g' now now' :
  alike g g' -> verdict (flaggedOf g now) = verdict (flaggedOf g' now').
Proof.
  intros H. unfold verdict. rewrite !flaggedOf_riskScore, (alike_totalRisk g g' H).
  unfold flaggedOf.
  cbn [flaggedEntry Flagged.sourceIP Flagged.requestCount Flagged.requestFrequency
       Flagged.uniquePaths Flagged.uniqueUserAgents Flagged.hasKnownDDoSAttack].
  unfold scoreWindow.
  rewrite !applyLabel_groupHasDrDoSDNS, !applyRule_groupHasDrDoSDNS.
  destruct H as (I & _ & _ & T & P & U & L & K & _).
  rewrite I, T, K, (Permutation_length P), (Permutation_length U),
    (existsb_perm _ _ _ L).
  reflexivity.
Qed.

End VerdictFacts.

Section OrderIndependence.

Variable getTime : string -> option Z.

Lemma get_In_NoDup {V : Type} (o : list (string * V)) k v :
  NoDup (map fst o) -> In (k, v) o -> JS.get o k = Some v.
Proof.
  induction o as [|[k' v'] o IH]; cbn [map fst JS.get In]; [tauto|].
  intros HN [E | Hin].
  - injection E as -> ->. now rewrite String.eqb_refl.
  - inversion HN as [|? ? Hk HN']; subst.
    destruct (String.eqb k k') eqn:E; [|now apply IH].
    apply String.eqb_eq in E. subst k'. exfalso. apply Hk.
    now apply (in_map fst _ (k, v)).
Qed.

(** The windows of two orders of the input correspond key by key: what
    depends on the entries of a window only up to their order has the same
    values over the windows of both. *)
Lemma windows_alike {X : Type} (F : Group.t -> X) es es' :
  Permutation es es' -> safeCounts es ->
  (forall g g', alike g g' -> F g = F g') ->
  Permutation (map F (windows getTime es)) (map F (windows getTime es')).
Proof.
  intros HP Hs HF. rewrite !windows_eq.
  set (wm := Detection.ANALYSIS_WINDOW DETECTION_CONFIG).
  destruct (groupByIPAndTime_GroupsOf getTime wm es) as (ND & GO & _).
  destruct (groupByIPAndTime_GroupsOf getTime wm es') as (ND' & GO' & _).
  rewrite Forall_forall in GO, GO'.
  set (G := groupByIPAndTime getTime es wm) in *.
  set (G' := groupByIPAndTime getTime es' wm) in *.
  set (at_key := fun k => match JS.get G k with Some g => [F g] | None => [] end).
  assert (HK : Permutation (map fst G) (map fst G')).
  { unfold G, G'. rewrite !groupByIPAndTime_keys.
    now apply distinct_perm, Permutation_map. }
  assert (H1 : forall l, incl l G -> map F (map snd l) = flat_map at_key (map fst l)).
  { induction l as [|[k g] l IH]; intros Hl; cbn [map flat_map fst snd]; [reflexivity|].
    unfold at_key at 1.
    rewrite (get_In_NoDup G k g ND) by (apply Hl; now left).
    cbn [app]. f_equal. apply IH. intros x Hx. apply Hl. now right. }
  assert (H2 : forall l, incl l G' -> map F (map snd l) = flat_map at_key (map fst l)).
  { induction l as [|[k g'] l IH]; intros Hl; cbn [map flat_map fst snd]; [reflexivity|].
    assert (Hin' : In (k, g') G') by (apply Hl; now left).
    assert (Hk : In k (map fst G)).
    { apply (Permutation_in _ (Permutation_sym HK)). now apply (in_map fst _ (k, g')). }
    apply in_map_iff in Hk. destruct Hk as ([k0 g] & E & Hin). cbn [fst] in E. subst k0.
    unfold at_key at 1. rewrite (get_In_NoDup G k g ND Hin).
    cbn [app]. f_equal.
    - symmetry. apply HF.
      exact (GroupOf_alike getTime wm es es' (k, g) (k, g') HP Hs (GO _ Hin) (GO' _ Hin')
                           eq_refl).
    - apply IH. intros x Hx. apply Hl. now right. }
  rewrite (H1 G (incl_refl _)), (H2 G' (incl_refl _)).
  now apply Permutation_flat_map.
Qed.

Lemma stamp_verdict clock n gs :
  map verdict (stamp clock n gs) = map (fun g => verdict (flaggedOf g "")) gs.
Proof.
  revert n. induction gs as [|g gs IH]; intros n; cbn [stamp map]; [reflexivity|].
  now rewrite IH.
Qed.

Lemma map_filter_flat_map {A B : Type} (f : A -> B) (p : A -> bool) l :
  map f (filter p l) = flat_map (fun x => x) (map (fun a => if p a then [f a] else []) l).
Proof.
  induction l as [|a l IH]; cbn [filter map flat_map]; [reflexivity|].
  destruct (p a); cbn [map app]; now rewrite IH.
Qed.

Lemma count_b2n {X : Type} (p : X -> bool) l :
  count p l = list_sum (map (fun x => Nat.b2n (p x)) l).
Proof.
  induction l as [|x l IH]; [reflexivity|].
  rewrite count_cons, IH. reflexivity.
Qed.

(** Two lists in descending order with the same elements are the same. *)
Lemma descending_perm_eq (l l' : list Z) :
  descending (fun z => z) l -> descending (fun z => z) l' -> Permutation l l' -> l = l'.
Proof.
  unfold descending. revert l'. induction l as [|x l IH]; intros l' S S' P.
  - apply Permutation_nil in P. now subst.
  - destruct l' as [|y l']; [apply Permutation_sym, Permutation_nil in P; discriminate|].
    inversion S as [|? ? Sl Fx]; subst. inversion S' as [|? ? Sl' Fy]; subst.
    rewrite Forall_forall in Fx, Fy.
    assert (E : x = y).
    { assert (Hy : In y (x :: l)) by (apply (Permutation_in _ (Permutation_sym P)); now left).
      assert (Hx : In x (y :: l')) by (apply (Permutation_in _ P); now left).
      destruct Hy as [Hy | Hy]; [assumption|].
      destruct Hx as [Hx | Hx]; [now symmetry|].
      specialize (Fx _ Hy). specialize (Fy _ Hx). lia. }
    subst y. f_equal. apply IH; try assumption. now apply Permutation_cons_inv in P.
Qed.

Lemma descending_map {A : Type} (score : A -> Z) l :
  descending score l -> descending (fun z => z) (map score l).
Proof.
  unfold descending. induction 1 as [|x l _ IH F]; cbn [map]; constructor; [assumption|].
  rewrite Forall_forall in *. intros z Hz. apply in_map_iff in Hz.
  destruct Hz as (a & <- & Ha). now apply F.
Qed.

Lemma flagged_verdicts_perm clock clock' es es' :
  Permutation es es' -> safeCounts es ->
  Permutation (map verdict (flaggedEntries (analyzeLogsForDDoS getTime clock es)))
              (map verdict (flaggedEntries (analyzeLogsForDDoS getTime clock' es'))).
Proof.
  intros HP Hs.
  rewrite (Permutation_map verdict (flaggedEntries_reported getTime clock es)),
    (Permutation_map verdict (flaggedEntries_reported getTime clock' es')),
    !stamp_verdict.
  unfold reported. rewrite !map_filter_flat_map.
  apply Permutation_flat_map, windows_alike; [assumption | assumption |].
  intros g g' H. rewrite (alike_totalRisk g g' H), (alike_verdict g g' "" "" H).
  reflexivity.
Qed.

End OrderIndependence.

(** X18. The verdict of the analysis does not depend on the order of the
    log entries, when their request counts add up in magnitude to a safe
    integer at most, so that no running total is rounded.  For two such
    inputs that hold the same entries in any two
    orders, analysed at any two times, the flagged entries are the same up
    to their order in what they say of their windows (source address,
    request count, request frequency, risk score, numbers of distinct paths
    and user agents, known-attack flag), the list of risk scores in ranking
    order is the same, and so are all the statistics. *)
Theorem analysis_order_independent
    (getTime : string -> option Z) (clock clock' : nat -> string) (es es' : list LogEntry) :
  Permutation es es' -> safeCounts es ->
  let out := analyzeLogsForDDoS getTime clock es in
  let out' := analyzeLogsForDDoS getTime clock' es' in
  Permutation (map verdict (flaggedEntries out)) (map verdict (flaggedEntries out')) /\
  map Flagged.riskScore (flaggedEntries out) = map Flagged.riskScore (flaggedEntries out') /\
  analysisStats out = analysisStats out'.
Proof.
  intros HP Hs. cbv zeta.
  pose proof (flagged_verdicts_perm getTime clock clock' es es' HP Hs) as HV.
  split; [exact HV|]. split.
  - apply descending_perm_eq.
    + apply descending_map.
      apply (JSFacts.sort_descending_stable Flagged.riskScore).
    + apply descending_map.
      apply (JSFacts.sort_descending_stable Flagged.riskScore).
    + apply (Permutation_map (fun v : string * Z * Q * Z * nat * nat * bool =>
                                match v with (_, _, _, r, _, _, _) => r end)) in HV.
      rewrite !map_map in HV. exact HV.
  - rewrite !analysisStats_statsOf. unfold statsOf.
    rewrite !count_b2n.
    rewrite (Permutation_length HP).
    rewrite (Permutation_length (distinct_perm _ _ (Permutation_map sourceIP HP))).
    rewrite (Permutation_list_sum
               (windows_alike getTime (fun g => Nat.b2n (hasSuspiciousIP g)) es es' HP Hs
                  ltac:(intros g g' (I & _); unfold hasSuspiciousIP; now rewrite I))).
    rewrite (Permutation_list_sum
               (windows_alike getTime (fun g => Nat.b2n (highFrequency g)) es es' HP Hs
                  ltac:(intros g g' H; unfold highFrequency;
                        now rewrite (alike_frequencyOf g g' H)))).
    rewrite (Permutation_list_sum
               (windows_alike getTime (fun g => Nat.b2n (hasSuspiciousAgent g)) es es' HP Hs
                  ltac:(intros g g' (_ & _ & _ & _ & _ & U & _); unfold hasSuspiciousAgent;
                        now rewrite !filter_nonempty, (existsb_perm _ _ _ U)))).
    rewrite (Permutation_list_sum
               (windows_alike getTime (fun g => List.length (markedLabels g)) es es' HP Hs
                  alike_markedLabels)).
    rewrite (Permutation_list_sum
               (windows_alike getTime (fun g => List.length (attackLabels g)) es es' HP Hs
                  alike_attackLabels)).
    reflexivity.
Qed.

Lemma analysis_order_independent_witness :
  let es := [agentEntry "10.0.0.1" 5 "curl/8.0"; agentEntry "10.0.0.2" 900 "Mozilla/5.0"] in
  safeCounts es /\
  map Flagged.riskScore
      (flaggedEntries (analyzeLogsForDDoS IsoDate.getTime clockA es))
  = map Flagged.riskScore
        (flaggedEntries (analyzeLogsForDDoS IsoDate.getTime clockB (rev es))).
Proof.
  cbv zeta.
  assert (Hs : safeCounts [agentEntry "10.0.0.1" 5 "curl/8.0";
                           agentEntry "10.0.0.2" 900 "Mozilla/5.0"])
    by (vm_compute; discriminate).
  split; [exact Hs|].
  exact (proj1 (proj2 (analysis_order_independent IsoDate.getTime clockA clockB
                         [agentEntry "10.0.0.1" 5 "curl/8.0"; agentEntry "10.0.0.2" 900 "Mozilla/5.0"]
                         (rev [agentEntry "10.0.0.1" 5 "curl/8.0";
                               agentEntry "10.0.0.2" 900 "Mozilla/5.0"])
                         (Permutation_rev _) Hs))).
Defined.

(** ** The analysis by the language model *)

Section SliceFacts.
Context {A : Type}.
Implicit Types (a : list A).

Lemma firstn_plus a p q : firstn (p + q) a = (firstn p a ++ firstn q (skipn p a))%list.
Proof.
  revert a. induction p as [|p IH]; intros a; [reflexivity|].
  destruct a as [|x a]; cbn [plus firstn skipn app].
  - now rewrite firstn_nil.
  - now rewrite IH.
Qed.

(** A slice between two indexes inside the array. *)
Lemma slice_inside a s e :
  0 <= s <= e -> e <= Z.of_nat (List.length a) ->
  System.slice a s e = firstn (Z.to_nat (e - s)) (skipn (Z.to_nat s) a).
Proof.
  intros Hs He. unfold System.slice.
  destruct (Z.ltb_spec s 0); [lia|]. destruct (Z.ltb_spec e 0); [lia|].
  now rewrite !Z.min_l by lia.
Qed.

Lemma slice_length a s e :
  0 <= s <= e -> e <= Z.of_nat (List.length a) ->
  Z.of_nat (List.length (System.slice a s e)) = e - s.
Proof.
  intros Hs He. rewrite slice_inside by assumption.
  rewrite length_firstn, length_skipn. lia.
Qed.

Lemma slice_app a s e f :
  0 <= s <= e -> e <= f -> f <= Z.of_nat (List.length a) ->
  System.slice a s f = (System.slice a s e ++ System.slice a e f)%list.
Proof.
  intros Hs He Hf. rewrite !slice_inside by lia.
  replace (Z.to_nat (f - s)) with (Z.to_nat (e - s) + Z.to_nat (f - e))%nat by lia.
  rewrite firstn_plus, skipn_skipn. do 3 f_equal. lia.
Qed.

(** A slice that starts at the end of the array or beyond is empty. *)
Lemma slice_beyond a s e :
  Z.of_nat (List.length a) <= s -> System.slice a s e = [].
Proof.
  intros Hs. unfold System.slice.
  destruct (Z.ltb_spec s 0); [lia|]. rewrite (Z.min_r s) by lia.
  replace (Z.to_nat _) with O; [reflexivity|].
  destruct (Z.ltb_spec e 0); lia.
Qed.

Lemma slice_from_0 a e :
  0 <= e <= Z.of_nat (List.length a) -> System.slice a 0 e = firstn (Z.to_nat e) a.
Proof.
  intros He. rewrite slice_inside by lia. cbn [Z.to_nat skipn]. now rewrite Z.sub_0_r.
Qed.

Lemma numbered_app k (l1 l2 : list A) :
  numbered k (l1 ++ l2) = (numbered k l1 ++ numbered (k + Z.of_nat (List.length l1)) l2)%list.
Proof.
  revert k. induction l1 as [|x l1 IH]; intros k; cbn [app numbered List.length].
  - now rewrite Z.add_0_r.
  - rewrite IH. do 3 f_equal. lia.
Qed.

End SliceFacts.

Lemma prefix_empty s : prefix "" s = true.
Proof. now destruct s. Qed.

Ltac decide_prefix :=
  unfold JS.startsWith; cbn [append prefix];
  repeat match goal with
         | |- context [ascii_dec ?a ?b] =>
             destruct (ascii_dec a b) as [E | N];
             [ first [ exfalso; vm_compute in E; discriminate E | clear E ]
             | first [ exfalso; apply N; reflexivity | clear N ] ]
         end;
  rewrite ?prefix_empty; try reflexivity.

Section PageFacts.

Variable llm : nat -> string -> string + option string.
Variable answer : nat -> string.

Lemma announced_app e1 e2 : announced (e1 ++ e2) = (announced e1 ++ announced e2)%list.
Proof. apply flat_map_app. Qed.

Lemma sections_app e1 e2 : sections (e1 ++ e2) = (sections e1 ++ sections e2)%list.
Proof. apply flat_map_app. Qed.

Lemma header_starts number total e :
  JS.startsWith (System.entryHeader number total e) "Entry " = true.
Proof. unfold System.entryHeader. decide_prefix. Qed.

Lemma header_no_section number total e :
  JS.startsWith (System.entryHeader number total e) (nl ++ "=== ") = false.
Proof. unfold System.entryHeader, nl. decide_prefix. Qed.

Lemma formatted_no_header title response :
  JS.startsWith (System.formatLLMResponse title response) "Entry " = false.
Proof. unfold System.formatLLMResponse, nl. decide_prefix. Qed.

Lemma formatted_section title response :
  JS.startsWith (System.formatLLMResponse title response) (nl ++ "=== ") = true.
Proof. unfold System.formatLLMResponse, nl. decide_prefix. Qed.

Lemma heading_no_header rest :
  JS.startsWith ("Analyzing suspicious entries " ++ rest) "Entry " = false.
Proof. decide_prefix. Qed.

Lemma heading_no_section rest :
  JS.startsWith ("Analyzing suspicious entries " ++ rest) (nl ++ "=== ") = false.
Proof. unfold nl. decide_prefix. Qed.

Ltac read_lines :=
  cbn [fst announced sections flat_map app];
  rewrite ?header_starts, ?header_no_section, ?formatted_no_header, ?formatted_section,
    ?heading_no_header, ?heading_no_section;
  cbn [app].

Lemma announced_entry startIndex total i e n :
  announced (fst (System.analyzeEntry llm startIndex total i e n))
  = [System.entryHeader (startIndex + i + 1) total e].
Proof.
  unfold System.analyzeEntry.
  destruct (llm n _) as [m | x]; [now read_lines|].
  destruct (llm (S n) _) as [m | y]; now read_lines.
Qed.

Lemma announced_entries startIndex total i entries n :
  announced (fst (System.analyzeEntries llm startIndex total i entries n))
  = map (fun ke => System.entryHeader (fst ke) total (snd ke))
        (numbered (startIndex + i + 1) entries).
Proof.
  revert i n. induction entries as [|e entries IH]; intros i n; [reflexivity|].
  cbn [System.analyzeEntries numbered map fst snd].
  pose proof (announced_entry startIndex total i e n) as He.
  destruct (System.analyzeEntry llm startIndex total i e n) as [events n'].
  specialize (IH (i + 1) n').
  destruct (System.analyzeEntries llm startIndex total (i + 1) entries n') as [events' n''].
  cbn [fst] in *. rewrite announced_app, He, IH. cbn [app]. do 3 f_equal. lia.
Qed.

Lemma announced_batch entries n : announced (fst (System.assessBatch llm entries n)) = [].
Proof.
  unfold System.assessBatch. destruct (1 <? List.length entries)%nat; [|reflexivity].
  destruct (llm n _); now read_lines.
Qed.

End PageFacts.

Section Pages.

Variable llm : nat -> string -> string + option string.
Variable answer : nat -> string.
Variable out : AnalysisOutput.
Variable maxLLMAnalysis : option Z.

Lemma slice_nil {A : Type} s e : System.slice (@nil A) s e = [].
Proof. unfold System.slice. now rewrite skipn_nil, firstn_nil. Qed.

(** The run from the page that starts at [s]: it comes to an end, and
    announces the entries from [s] on, page after page, as long as the
    answers are yes. *)
Lemma performLoop_pages fuel s c limit :
  1 <= JS.orNumber maxLLMAnalysis System.DEFAULT_MAX_LLM_ANALYSIS ->
  0 <= s ->
  (Z.to_nat (Z.of_nat (List.length (flaggedEntries out)) - s) < fuel)%nat ->
  (Z.to_nat (Z.of_nat (List.length (flaggedEntries out)) - s) <= limit)%nat ->
  exists events c',
    System.performLoop llm answer fuel (Some out) maxLLMAnalysis s c = Some (events, c') /\
    announced events
    = map (fun ke => System.entryHeader (fst ke) (Z.of_nat (List.length (flaggedEntries out)))
                                        (snd ke))
          (numbered (s + 1)
             (System.slice (flaggedEntries out) s
                (Z.min (Z.of_nat (List.length (flaggedEntries out)))
                       (s + JS.orNumber maxLLMAnalysis System.DEFAULT_MAX_LLM_ANALYSIS
                            * (1 + Z.of_nat (leadingYes answer (System.questions c) limit)))))) /\
    (System.questions c <= System.questions c'
     <= System.questions c + leadingYes answer (System.questions c) limit + 1)%nat.
Proof.
  intros Hb. set (b := JS.orNumber maxLLMAnalysis System.DEFAULT_MAX_LLM_ANALYSIS) in *.
  set (fl := flaggedEntries out). set (n := Z.of_nat (List.length fl)).
  revert s c limit. induction fuel as [|fuel IH]; intros s c limit Hs Hfuel Hlimit; [lia|].
  cbn [System.performLoop]. fold fl. fold n. fold b.
  destruct (List.length fl =? 0)%nat eqn:E0.
  { apply Nat.eqb_eq in E0. destruct fl; [|discriminate].
    eexists _, c. split; [reflexivity|]. rewrite slice_nil. split; [reflexivity | lia]. }
  apply Nat.eqb_neq in E0.
  set (e := Z.min (s + b) n).
  destruct (List.length (System.slice fl s e) =? 0)%nat eqn:E1.
  { apply Nat.eqb_eq in E1.
    assert (Hsn : n <= s).
    { destruct (Z_lt_le_dec s n) as [Hlt|]; [|assumption].
      pose proof (slice_length fl s e ltac:(unfold e; lia) ltac:(unfold e, n; lia)).
      unfold e in *. lia. }
    eexists _, c. split; [reflexivity|].
    rewrite slice_beyond by exact Hsn. split; [reflexivity | lia]. }
  apply Nat.eqb_neq in E1.
  assert (Hsn : s < n).
  { destruct (Z_lt_le_dec s n) as [|Hle]; [assumption|].
    rewrite (slice_beyond fl s e Hle) in E1. now elim E1. }
  pose proof (announced_entries llm s n 0 (System.slice fl s e) (System.queries c)) as HA.
  destruct (System.analyzeEntries llm s n 0 (System.slice fl s e) (System.queries c))
    as [entryEvents n1].
  pose proof (announced_batch llm (System.slice fl s e) n1) as HB.
  destruct (System.assessBatch llm (System.slice fl s e) n1) as [batchEvents n2].
  cbn [fst] in HA, HB. rewrite Z.add_0_r in HA.
  assert (Hpage : forall rest,
             announced ((System.print ("Analyzing suspicious entries "
                                       ++ JS.Number_toString (s + 1) ++ "-"
                                       ++ JS.Number_toString e ++ " of "
                                       ++ JS.Number_toString n ++ "...")
                         :: entryEvents ++ batchEvents) ++ rest)
             = (map (fun ke => System.entryHeader (fst ke) n (snd ke))
                    (numbered (s + 1) (System.slice fl s e)) ++ announced rest)%list).
  { intros rest. rewrite announced_app. f_equal.
    change (System.print ?l :: ?x) with ([System.print l] ++ x)%list.
    rewrite !announced_app, HA, HB, app_nil_r.
    cbn [announced flat_map]. now rewrite heading_no_header. }
  destruct (Z.ltb_spec e n) as [Hen | Hen].
  - assert (He : e = s + b) by (unfold e in *; lia).
    destruct limit as [|limit]; [lia|].
    cbn [leadingYes]. unfold yes.
    destruct (JS.startsWith (JS.toLowerCase (answer (System.questions c))) "y").
    + destruct (IH e {| System.queries := n2; System.questions := S (System.questions c) |}
                  limit ltac:(lia) ltac:(lia) ltac:(lia)) as (events & c' & R & HE & HQ).
      rewrite R. exists (((System.print ("Analyzing suspicious entries "
                                         ++ JS.Number_toString (s + 1) ++ "-"
                                         ++ JS.Number_toString e ++ " of "
                                         ++ JS.Number_toString n ++ "...")
                           :: entryEvents ++ batchEvents)
                          ++ System.asked (System.nextQuestion (Z.min b (n - e)))
                                          (answer (System.questions c)) :: events)%list), c'.
      split; [reflexivity|]. cbn [System.questions] in HE, HQ. split; [|lia].
      rewrite Hpage. cbn [announced flat_map app]. fold (announced events). rewrite HE.
      set (y := leadingYes answer (S (System.questions c)) limit).
      replace (s + b * (1 + Z.of_nat (S y))) with (e + b * (1 + Z.of_nat y)) by lia.
      rewrite (slice_app fl s e (Z.min n (e + b * (1 + Z.of_nat y)))) by nia.
      rewrite numbered_app, map_app. do 3 f_equal.
      pose proof (slice_length fl s e ltac:(lia) ltac:(lia)). lia.
    + eexists _, _. split; [reflexivity|]. cbn [System.questions]. split; [|lia].
      rewrite Hpage. cbn [announced flat_map app Z.of_nat].
      rewrite app_nil_r. do 3 f_equal. unfold e. lia.
  - eexists _, _. split; [reflexivity|]. cbn [System.questions]. split; [|lia].
    rewrite <- (app_nil_r (_ :: _)), Hpage. cbn [announced flat_map].
    rewrite app_nil_r. do 3 f_equal. unfold e in *. nia.
Qed.

End Pages.

(** X19. The analysis by the language model goes through the flagged
    entries in ranking order, page by page.  With a batch size of at least
    one ([maxLLMAnalysis], or 3 when it is missing or 0) the run from index 0
    comes to an end and announces, as [Entry k/n], exactly the first
    [min n (batchSize * (1 + y))] flagged entries, numbered from 1, each
    once, where [y] is the number of questions answered with a yes before
    the first other answer; it asks at most [y + 1] questions.  So it covers
    every flagged entry when all the answers are yes, and only the first
    page when the first answer is not. *)
Theorem llm_analysis_pages
    (llm : nat -> string -> string + option string) (answer : nat -> string)
    (out : AnalysisOutput) (maxLLMAnalysis : option Z) (c : System.Counters)
    (Hsize : 1 <= JS.orNumber maxLLMAnalysis System.DEFAULT_MAX_LLM_ANALYSIS) :
  let flagged := flaggedEntries out in
  let n := List.length flagged in
  let batchSize := JS.orNumber maxLLMAnalysis System.DEFAULT_MAX_LLM_ANALYSIS in
  let y := leadingYes answer (System.questions c) n in
  let m := Z.to_nat (Z.min (Z.of_nat n) (batchSize * (1 + Z.of_nat y))) in
  exists events c',
    System.performLLMAnalysis llm answer (Some out) maxLLMAnalysis 0 c = Some (events, c') /\
    announced events
    = map (fun ke => System.entryHeader (fst ke) (Z.of_nat n) (snd ke))
          (numbered 1 (firstn m flagged)) /\
    (System.questions c <= System.questions c' <= System.questions c + y + 1)%nat /\
    ((forall q, yes (answer q) = true) -> m = n) /\
    (yes (answer (System.questions c)) = false ->
     m = Z.to_nat (Z.min (Z.of_nat n) batchSize)).
Proof.
  cbv zeta. unfold System.performLLMAnalysis.
  destruct (performLoop_pages llm answer out maxLLMAnalysis
              (List.length (flaggedEntries out) + 2) 0 c (List.length (flaggedEntries out))
              Hsize ltac:(lia) ltac:(lia) ltac:(lia)) as (events & c' & R & HA & HQ).
  exists events, c'. split; [exact R|].
  set (b := JS.orNumber maxLLMAnalysis System.DEFAULT_MAX_LLM_ANALYSIS) in *.
  set (n := List.length (flaggedEntries out)) in *.
  set (y := leadingYes answer (System.questions c) n) in *.
  split; [|split; [exact HQ|split]].
  - rewrite HA, !Z.add_0_l.
    rewrite slice_from_0 by (unfold n; nia). reflexivity.
  - intros Hyes.
    assert (Hy : forall limit q, leadingYes answer q limit = limit).
    { induction limit as [|limit IH]; intros q; cbn [leadingYes]; [reflexivity|].
      now rewrite Hyes, IH. }
    unfold y. rewrite Hy. nia.
  - intros Hno. unfold y. destruct n as [|n']; cbn [leadingYes]; [lia|].
    rewrite Hno. f_equal. lia.
Qed.

Lemma llm_analysis_pages_witness :
  let out := analyzeLogsForDDoS IsoDate.getTime clockA
               [agentEntry "10.0.0.1" 5 "curl/8.0"; agentEntry "10.0.0.2" 900 "Mozilla/5.0"] in
  exists events c',
    System.performLLMAnalysis (fun _ _ => inl "down") (fun _ => "Yes") (Some out) (Some 1) 0
      {| System.queries := 0; System.questions := 0 |} = Some (events, c') /\
    announced events
    = ["Entry 1/2: IP 10.0.0.2 (Risk Score: 4)"; "Entry 2/2: IP 10.0.0.1 (Risk Score: 3)"].
Proof.
  cbv zeta.
  destruct (llm_analysis_pages (fun _ _ => inl "down") (fun _ => "Yes")
              (analyzeLogsForDDoS IsoDate.getTime clockA
                 [agentEntry "10.0.0.1" 5 "curl/8.0"; agentEntry "10.0.0.2" 900 "Mozilla/5.0"])
              (Some 1) {| System.queries := 0; System.questions := 0 |}
              ltac:(vm_compute; discriminate))
    as (events & c' & R & HA & _).
  exists events, c'. split; [exact R|]. rewrite HA. vm_compute. reflexivity.
Defined.

Section Fruitless.

Variable llm : nat -> string -> string + option string.
Variable answer : nat -> string.
Variable failure : string.
Hypothesis llm_fails : forall n promptText, llm n promptText = inl failure.

Lemma analyzeEntries_fruitless startIndex total i entries n :
  Forall (fruitless failure) (fst (System.analyzeEntries llm startIndex total i entries n)).
Proof.
  revert i n. induction entries as [|e entries IH]; intros i n; [constructor|].
  cbn [System.analyzeEntries]. unfold System.analyzeEntry. rewrite llm_fails.
  specialize (IH (i + 1) (S n)).
  destruct (System.analyzeEntries llm startIndex total (i + 1) entries (S n)) as [events n'].
  cbn [fst app] in *.
  constructor; [apply header_no_section|].
  constructor; [reflexivity|].
  constructor; [|exact IH].
  exists ("Error analyzing entry " ++ JS.Number_toString (startIndex + i + 1)).
  reflexivity.
Qed.

Lemma assessBatch_fruitless entries n :
  Forall (fruitless failure) (fst (System.assessBatch llm entries n)).
Proof.
  unfold System.assessBatch. destruct (1 <? List.length entries)%nat; [|constructor].
  rewrite llm_fails. cbn [fst].
  constructor; [reflexivity|]. constructor; [|constructor].
  now exists "Error getting summary analysis".
Qed.

Lemma performLoop_fruitless fuel out maxLLMAnalysis s c events c' :
  System.performLoop llm answer fuel out maxLLMAnalysis s c = Some (events, c') ->
  Forall (fruitless failure) events.
Proof.
  revert s c events c'. induction fuel as [|fuel IH]; intros s c events c'; [discriminate|].
  cbn [System.performLoop].
  destruct out as [out|]; [|intros [= <- _]; repeat constructor].
  destruct (List.length (flaggedEntries out) =? 0)%nat; [intros [= <- _]; repeat constructor|].
  destruct (List.length (System.slice _ _ _) =? 0)%nat; [intros [= <- _]; repeat constructor|].
  match goal with
  | |- context [System.analyzeEntries llm ?a ?b ?c ?d ?e] =>
      pose proof (analyzeEntries_fruitless a b c d e) as HA;
      destruct (System.analyzeEntries llm a b c d e) as [entryEvents n1]
  end.
  match goal with
  | |- context [System.assessBatch llm ?a ?b] =>
      pose proof (assessBatch_fruitless a b) as HB;
      destruct (System.assessBatch llm a b) as [batchEvents n2]
  end.
  cbn [fst] in HA, HB.
  assert (Hpage : forall line rest,
             Forall (fruitless failure) rest ->
             Forall (fruitless failure)
               ((System.print ("Analyzing suspicious entries " ++ line)
                 :: entryEvents ++ batchEvents) ++ rest)).
  { intros line rest Hrest. apply Forall_app. split; [|exact Hrest].
    constructor; [apply heading_no_section|]. apply Forall_app. now split. }
  destruct (_ <? _).
  - destruct (JS.startsWith _ "y").
    + match goal with
      | |- context [System.performLoop llm answer fuel ?o ?m ?s' ?c0] =>
          specialize (IH s' c0);
          destruct (System.performLoop llm answer fuel o m s' c0) as [[events' c'']|];
          [|discriminate]
      end.
      intros H. apply (f_equal (option_map fst)) in H. cbn [option_map fst] in H.
      apply (f_equal (fun o => match o with Some l => l | None => [] end)) in H.
      rewrite <- H. apply Hpage. constructor; [exact I|]. now apply (IH events' c'').
    + intros H. apply (f_equal (option_map fst)) in H. cbn [option_map fst] in H.
      apply (f_equal (fun o => match o with Some l => l | None => [] end)) in H.
      rewrite <- H. apply Hpage. repeat constructor.
  - intros H. apply (f_equal (option_map fst)) in H. cbn [option_map fst] in H.
    apply (f_equal (fun o => match o with Some l => l | None => [] end)) in H.
    rewrite <- H, <- (app_nil_r (_ :: _)). apply Hpage. constructor.
Qed.

End Fruitless.

(** X20. As shipped, the analysis by the language model gives nothing.
    [CONFIG] has no [LLM_AGENTS], so every query fails after three attempts
    with the same [TypeError], whatever the server would answer: for any
    flagged entries, answers and batch size of at least one the run comes to
    an end, prints no response section ([=== AI Analysis ===] and the like),
    and each of its queries is answered by an error line that ends with the
    message of that failure. *)
Theorem llm_analysis_as_shipped
    (typeError : string -> string) (world : nat -> Z -> LLM.FetchResult) (index : option nat)
    (answer : nat -> string) (out : AnalysisOutput) (maxLLMAnalysis : option Z)
    (c : System.Counters)
    (Hsize : 1 <= JS.orNumber maxLLMAnalysis System.DEFAULT_MAX_LLM_ANALYSIS) :
  exists events c',
    System.performLLMAnalysis (shippedLLM typeError world index) answer (Some out)
      maxLLMAnalysis 0 c = Some (events, c') /\
    Forall (fruitless (shippedFailure typeError index)) events /\
    sections events = [].
Proof.
  unfold System.performLLMAnalysis.
  destruct (performLoop_pages (shippedLLM typeError world index) answer out maxLLMAnalysis
              (List.length (flaggedEntries out) + 2) 0 c (List.length (flaggedEntries out))
              Hsize ltac:(lia) ltac:(lia) ltac:(lia)) as (events & c' & R & _).
  exists events, c'. split; [exact R|].
  assert (HF : Forall (fruitless (shippedFailure typeError index)) events).
  { apply (performLoop_fruitless (shippedLLM typeError world index) answer
             (shippedFailure typeError index)) in R; [exact R|].
    intros n promptText. unfold shippedLLM, LLM.queryLLM, LLM.LLM_AGENTS.
    destruct (queryLoop_no_agents typeError (world n) promptText 3 3 1 index eq_refl)
      as (_ & _ & _ & _ & Hs).
    apply Hs. discriminate. }
  split; [exact HF|].
  clear R. induction HF as [|event events He _ IH]; [reflexivity|].
  cbn [sections flat_map]. fold (sections events). rewrite IH, app_nil_r.
  destruct event as [line| | |]; try reflexivity.
  cbn [fruitless] in He. now rewrite He.
Qed.

Lemma llm_analysis_as_shipped_witness :
  let out := analyzeLogsForDDoS IsoDate.getTime clockA
               [agentEntry "10.0.0.1" 5 "curl/8.0"; agentEntry "10.0.0.2" 900 "Mozilla/5.0"] in
  let answering := fun _ : nat => fun _ : Z =>
                     LLM.responded true 200 (LLM.json (Some "An attack.")) in
  exists events c',
    System.performLLMAnalysis (shippedLLM (fun name => name) answering (Some 0%nat))
      (fun _ => "y") (Some out) None 0 {| System.queries := 0; System.questions := 0 |}
    = Some (events, c') /\
    sections events = [].
Proof.
  cbv zeta.
  destruct (llm_analysis_as_shipped (fun name => name)
              (fun _ : nat => fun _ : Z => LLM.responded true 200 (LLM.json (Some "An attack.")))
              (Some 0%nat) (fun _ => "y")
              (analyzeLogsForDDoS IsoDate.getTime clockA
                 [agentEntry "10.0.0.1" 5 "curl/8.0"; agentEntry "10.0.0.2" 900 "Mozilla/5.0"])
              None {| System.queries := 0; System.questions := 0 |}
              ltac:(vm_compute; discriminate))
    as (events & c' & R & _ & HS).
  exists events, c'. split; [exact R | exact HS].
Defined.

(** ** The command line *)

Section CommandLine.

Import App.

Variable sampleError : option string.

Lemma parsedFrom_cons arg args o p o1 p1 o' p' :
  parsedFrom [arg] o p o1 p1 -> parsedFrom args o1 p1 o' p' ->
  parsedFrom (arg :: args) o p o' p'.
Proof.
  intros (M1 & L1 & S1 & F1 & P1) (M2 & L2 & S2 & F2 & P2). unfold parsedFrom.
  repeat split.
  - auto.
  - intros H. destruct (L2 H) as [H'|H']; [|right; now right].
    destruct (L1 H') as [|[<-|[]]]; [now left | right; now left].
  - intros H. destruct (S2 H) as [H'|H']; [|right; now right].
    destruct (S1 H') as [|[<-|[]]]; [now left | right; now left].
  - intros f H. destruct (F2 f H) as [H'|[Ha Hb]]; [|right; split; now right].
    destruct (F1 f H') as [|[[<-|[]] [<-|[]]]]; [now left|].
    right. split; now left.
  - intros x H. destruct (P2 x H) as [H'|[Ha Hb]]; [|right; split; [now right | assumption]].
    destruct (P1 x H') as [|[[<-|[]] Hb]]; [now left|].
    right. split; [now left | assumption].
Qed.

Lemma parseArgs_parsed n : forall args o p o' p',
  (List.length args <= n)%nat ->
  parseArgs sampleError args o p = parsed o' p' -> parsedFrom args o p o' p'.
Proof.
  induction n as [|n IH]; intros args o p o' p' Hn.
  - destruct args; [|simpl in Hn; lia]. intros [= <- <-]. unfold parsedFrom. tauto.
  - destruct args as [|arg rest]; [intros [= <- <-]; unfold parsedFrom; tauto|].
    cbn [List.length] in Hn. cbn [parseArgs].
    destruct (String.eqb arg "--help" || String.eqb arg "-h"); [discriminate|].
    destruct (String.eqb arg "--test-llm"); [discriminate|].
    destruct (String.eqb arg "--generate-sample").
    { destruct (JS.parseInt (nth_error rest 1)) as [k|]; [|discriminate].
      destruct (k <=? 0); [discriminate|]. destruct sampleError; discriminate. }
    destruct (String.eqb arg "--no-llm") eqn:E1.
    { apply String.eqb_eq in E1. subst arg. intros H.
      apply IH in H; [|lia].
      refine (parsedFrom_cons _ _ _ _ _ _ _ _ _ H).
      unfold parsedFrom. cbn. intuition auto. }
    destruct (String.eqb arg "--no-save") eqn:E2.
    { apply String.eqb_eq in E2. subst arg. intros H.
      apply IH in H; [|lia].
      refine (parsedFrom_cons _ _ _ _ _ _ _ _ _ H).
      unfold parsedFrom. cbn. intuition auto. }
    destruct (String.eqb arg "--max-llm") eqn:E3.
    { destruct (JS.parseInt (nth_error rest 0)) as [k|]; [|discriminate].
      destruct (Z.leb_spec k 0) as [|Hk]; [discriminate|].
      assert (H1 : parsedFrom [arg] o p
                     {| useLLM := useLLM o; saveResults := saveResults o;
                        maxLLMAnalysis := k; outputFile := outputFile o |} p).
      { unfold parsedFrom. cbn. intuition auto. lia. }
      destruct rest as [|v rest'].
      - intros [= <- <-]. exact H1.
      - intros H. cbn [List.length] in Hn.
        apply IH in H; [|lia]. rename H into H2.
        apply (parsedFrom_cons _ _ _ _ _ _ _ _ H1).
        destruct H2 as (M2 & L2 & S2 & F2 & P2). unfold parsedFrom. repeat split.
        + assumption.
        + intros Hx. destruct (L2 Hx); [now left | right; now right].
        + intros Hx. destruct (S2 Hx); [now left | right; now right].
        + intros f Hx. destruct (F2 f Hx) as [|[Ha Hb]]; [now left | right; split; now right].
        + intros x Hx. destruct (P2 x Hx) as [|[Ha Hb]];
            [now left | right; split; [now right | assumption]]. }
    destruct (String.eqb arg "--output") eqn:E4.
    { apply String.eqb_eq in E4. subst arg.
      destruct rest as [|v rest'].
      - intros [= <- <-]. unfold parsedFrom. cbn. intuition (auto; discriminate).
      - intros H. cbn [List.length] in Hn.
        apply IH in H; [|lia]. destruct H as (M2 & L2 & S2 & F2 & P2).
        cbn [useLLM saveResults maxLLMAnalysis outputFile nth_error] in *.
        unfold parsedFrom. repeat split.
        + assumption.
        + intros Hx. destruct (L2 Hx); [now left | right; right; now right].
        + intros Hx. destruct (S2 Hx); [now left | right; right; now right].
        + intros f Hx. destruct (F2 f Hx) as [[= ->]|[Ha Hb]].
          * right. split; [now left | right; now left].
          * right. split; right; now right.
        + intros x Hx. destruct (P2 x Hx) as [|[Ha Hb]];
            [now left | right; split; [right; now right | assumption]]. }
    intros H. apply IH in H; [|lia].
    refine (parsedFrom_cons _ _ _ _ _ _ _ _ _ H).
    unfold parsedFrom. repeat split; auto.
    intros x Hx. destruct (noPath p && negb (JS.startsWith arg "--")) eqn:E; [|now left].
    injection Hx as <-. apply andb_true_iff in E. destruct E as [_ E].
    apply negb_true_iff in E. right. split; [now left | assumption].
Qed.

Lemma substring_all s : substring 0 (String.length s) s = s.
Proof. induction s as [|c s IH]; [reflexivity|]. cbn [String.length substring]. now rewrite IH. Qed.

Lemma endsWith_append s suffix : endsWith (s ++ suffix) suffix = true.
Proof.
  unfold endsWith. rewrite length_append.
  replace (String.length s + String.length suffix - String.length suffix)%nat
    with (String.length s) by lia.
  apply andb_true_iff. split; [apply Nat.leb_le; lia|].
  apply String.eqb_eq.
  induction s as [|c s IH]; cbn [String.length append substring]; [apply substring_all | exact IH].
Qed.

Lemma mapString_append f a b : JS.mapString f (a ++ b) = JS.mapString f a ++ JS.mapString f b.
Proof. induction a as [|c a IH]; [reflexivity|]. cbn [append JS.mapString]. now rewrite IH. Qed.

(** The ways the loop over the arguments ends [main]. *)
Lemma parseArgs_stopped n : forall args o p actions,
  (List.length args <= n)%nat ->
  parseArgs sampleError args o p = stopped actions ->
  actions = [consoleError invalidMaxLLM] \/
  actions = [consoleError invalidSample; close; exit 1] \/
  actions = [showHelp; close; exit 0] \/
  actions = [testLLMConnection; close; exit 0] \/
  exists file count,
    actions = generateSampleData file count
              :: match sampleError with
                 | None => [close; exit 0]
                 | Some message => [rejected message]
                 end /\
    1 <= count /\ endsWith (JS.toLowerCase file) ".csv" = true.
Proof.
  induction n as [|n IH]; intros args o p actions Hn.
  - destruct args; [discriminate | simpl in Hn; lia].
  - destruct args as [|arg rest]; [discriminate|].
    cbn [List.length] in Hn. cbn [parseArgs].
    destruct (String.eqb arg "--help" || String.eqb arg "-h"); [intros [= <-]; tauto|].
    destruct (String.eqb arg "--test-llm"); [intros [= <-]; tauto|].
    destruct (String.eqb arg "--generate-sample").
    { destruct (JS.parseInt (nth_error rest 1)) as [k|]; [|intros [= <-]; tauto].
      destruct (Z.leb_spec k 0) as [|Hk]; [intros [= <-]; tauto|].
      intros H. do 4 right. eexists _, k.
      split; [destruct sampleError; injection H as <-; reflexivity|]. split; [lia|].
      match goal with
      | |- context [if ?c then _ else _] => destruct c eqn:E
      end.
      - unfold JS.toLowerCase. rewrite mapString_append. apply endsWith_append.
      - apply andb_false_iff in E. destruct E as [E | E].
        + apply negb_false_iff in E.
          destruct rest as [|[|c name] rest']; try discriminate E; reflexivity.
        + now apply negb_false_iff in E. }
    destruct (String.eqb arg "--no-llm"); [apply IH; lia|].
    destruct (String.eqb arg "--no-save"); [apply IH; lia|].
    destruct (String.eqb arg "--max-llm").
    { destruct (JS.parseInt (nth_error rest 0)) as [k|]; [|intros [= <-]; tauto].
      destruct (k <=? 0); [intros [= <-]; tauto|].
      destruct rest as [|v rest']; [discriminate|]. cbn [List.length] in Hn. apply IH. lia. }
    destruct (String.eqb arg "--output").
    { destruct rest as [|v rest']; [discriminate|]. cbn [List.length] in Hn. apply IH. lia. }
    apply IH. lia.
Qed.

End CommandLine.

(** All the ways [main] goes. *)
Lemma main_cases sampleError existsSync outcome args :
  let actions := App.main sampleError existsSync outcome args in
  actions = [App.consoleError App.invalidMaxLLM] \/
  actions = [App.consoleError App.invalidSample; App.close; App.exit 1] \/
  actions = [App.showHelp; App.close; App.exit 0] \/
  actions = [App.testLLMConnection; App.close; App.exit 0] \/
  (exists file count,
      actions = App.generateSampleData file count
                :: match sampleError with
                   | None => [App.close; App.exit 0]
                   | Some message => [App.rejected message]
                   end /\
      1 <= count /\ App.endsWith (JS.toLowerCase file) ".csv" = true) \/
  (exists line1 line2 line3,
      actions = [App.consoleError line1; App.consoleError line2; App.consoleError line3;
                 App.close; App.exit 1]) \/
  (exists line1 line2,
      actions = [App.consoleError line1; App.consoleError line2; App.close; App.exit 1]) \/
  (exists path o tail,
      actions = App.runAnalysis path o :: tail /\
      tail = match outcome with
             | App.completed => [App.close]
             | App.thrown message =>
                 [App.consoleError ("Fatal error during analysis: " ++ message); App.exit 1]
             | App.uncaught => [App.crash]
             end /\
      existsSync path = true /\ path <> "" /\
      parsedFrom args
        {| App.useLLM := true; App.saveResults := true;
           App.maxLLMAnalysis := System.DEFAULT_MAX_LLM_ANALYSIS; App.outputFile := None |}
        None o (Some path)).
Proof.
  cbv zeta. unfold App.main.
  destruct (App.parseArgs sampleError args _ None) as [actions | o p] eqn:E.
  - destruct (parseArgs_stopped _ _ _ _ _ _ (le_n _) E) as [H|[H|[H|[H|H]]]]; tauto.
  - apply (parseArgs_parsed _ _ _ _ _ _ _ (le_n _)) in E.
    destruct p as [path|]; [|do 5 right; left; eauto].
    destruct (String.eqb path "") eqn:Ep; [do 5 right; left; eauto|].
    apply String.eqb_neq in Ep.
    destruct (existsSync path) eqn:Ex; cbn [negb]; [|do 6 right; left; eauto].
    do 7 right. exists path, o.
    destruct outcome as [|message|]; eexists; (split; [reflexivity|]);
      (split; [reflexivity|]); (split; [assumption|]); (split; [assumption|]); exact E.
Qed.

(** X21. [main] starts the analysis only on a log file that exists: when it
    calls [runAnalysis], the path is a non-empty command-line argument that
    does not start with [--] and names an existing file, and the options it
    passes hold a positive [maxLLMAnalysis] (the default 3 or the value of a
    [--max-llm]), so that the batch size of the analysis by the language model
    is that number and at least one; [useLLM] and [saveResults] are off only
    if [--no-llm] and [--no-save] are among the arguments, and an output
    file is an argument given with [--output]. *)
Theorem main_starts_analysis_safely
    (sampleError : option string) (existsSync : string -> bool) (outcome : App.Outcome)
    (args : list string) (path : string) (o : App.Options) :
  In (App.runAnalysis path o) (App.main sampleError existsSync outcome args) ->
  existsSync path = true /\ path <> "" /\ In path args /\ JS.startsWith path "--" = false /\
  1 <= App.maxLLMAnalysis o /\
  JS.orNumber (Some (App.maxLLMAnalysis o)) System.DEFAULT_MAX_LLM_ANALYSIS
  = App.maxLLMAnalysis o /\
  (App.useLLM o = false -> In "--no-llm" args) /\
  (App.saveResults o = false -> In "--no-save" args) /\
  (forall f, App.outputFile o = Some f -> In "--output" args /\ In f args).
Proof.
  intros Hin.
  destruct (main_cases sampleError existsSync outcome args)
    as [H|[H|[H|[H|[(f & k & H & _)|[(l1 & l2 & l3 & H)|[(l1 & l2 & H)|H]]]]]]];
    cbv zeta in H;
    try (rewrite H in Hin; try destruct sampleError; cbn [In] in Hin; intuition discriminate).
  destruct H as (path' & o' & tail & H & Ht & Hex & Hne & (M & L & S & F & P)).
  rewrite H in Hin. destruct Hin as [Hin | Hin].
  - injection Hin as -> ->.
    cbn [App.useLLM App.saveResults App.maxLLMAnalysis App.outputFile] in *.
    destruct (P path eq_refl) as [|[Hp1 Hp2]]; [discriminate|].
    assert (Hm : 1 <= App.maxLLMAnalysis o) by (apply M; unfold System.DEFAULT_MAX_LLM_ANALYSIS; lia).
    repeat split; try assumption.
    + unfold JS.orNumber. destruct (App.maxLLMAnalysis o); try reflexivity; lia.
    + intros Hx. destruct (L Hx); [discriminate | assumption].
    + intros Hx. destruct (S Hx); [discriminate | assumption].
    + destruct (F f H0) as [|[]]; [discriminate | assumption].
    + destruct (F f H0) as [|[]]; [discriminate | assumption].
  - exfalso. subst tail. destruct outcome; cbn [In] in Hin; intuition discriminate.
Qed.

Lemma main_starts_analysis_safely_witness :
  let args := ["logs.csv"; "--max-llm"; "5"; "--no-save"] in
  let o := {| App.useLLM := true; App.saveResults := false;
              App.maxLLMAnalysis := 5; App.outputFile := None |} in
  In (App.runAnalysis "logs.csv" o) (App.main None (fun _ => true) App.completed args) /\
  In "logs.csv" args /\ 1 <= App.maxLLMAnalysis o.
Proof.
  cbv zeta.
  assert (H : In (App.runAnalysis "logs.csv"
                    {| App.useLLM := true; App.saveResults := false;
                       App.maxLLMAnalysis := 5; App.outputFile := None |})
                 (App.main None (fun _ => true) App.completed
                    ["logs.csv"; "--max-llm"; "5"; "--no-save"])).
  { vm_compute. left. reflexivity. }
  split; [exact H|].
  destruct (main_starts_analysis_safely None (fun _ => true) App.completed
              ["logs.csv"; "--max-llm"; "5"; "--no-save"] "logs.csv" _ H)
    as (_ & _ & Hi & _ & Hm & _).
  split; [exact Hi | exact Hm].
Defined.

(** X22. [main] does one thing.  A sample is generated only with a count of
    at least one in the second argument after [--generate-sample], into a
    file whose name ends in [.csv] in any case, and nothing else is done
    then: [main] closes the system and leaves with the code 0, or, when the
    generation throws, ends with that error.  [process.exit(0)] is called
    only after the help, the connection test or the generation of a sample,
    never after an analysis.  What follows the call of [runAnalysis] is set
    by how it ends: when it returns, [main] closes the system and returns,
    with no call of [process.exit]; when it throws, [main] prints the fatal
    error and calls [process.exit(1)], the system not closed; when an error
    without a handler ends the process, nothing follows.  So [main] ends
    with the system neither closed nor the process left by [process.exit]
    in three cases and no other: an invalid value of [--max-llm], after
    which [main] returns with the one error line; a generation of the sample
    that throws; and an analysis that ends the process itself. *)
Theorem main_ends
    (sampleError : option string) (existsSync : string -> bool) (outcome : App.Outcome)
    (args : list string) :
  let actions := App.main sampleError existsSync outcome args in
  (forall file count,
      In (App.generateSampleData file count) actions ->
      1 <= count /\ App.endsWith (JS.toLowerCase file) ".csv" = true /\
      actions
      = App.generateSampleData file count
        :: match sampleError with
           | None => [App.close; App.exit 0]
           | Some message => [App.rejected message]
           end) /\
  (In (App.exit 0) actions ->
   (forall path o, ~ In (App.runAnalysis path o) actions) /\
   (actions = [App.showHelp; App.close; App.exit 0] \/
    actions = [App.testLLMConnection; App.close; App.exit 0] \/
    exists file count, actions = [App.generateSampleData file count; App.close; App.exit 0])) /\
  (forall path o,
      In (App.runAnalysis path o) actions ->
      actions
      = App.runAnalysis path o
        :: match outcome with
           | App.completed => [App.close]
           | App.thrown message =>
               [App.consoleError ("Fatal error during analysis: " ++ message); App.exit 1]
           | App.uncaught => [App.crash]
           end) /\
  (In App.crash actions ->
   outcome = App.uncaught /\ exists path o, actions = [App.runAnalysis path o; App.crash]) /\
  (forall message,
      In (App.rejected message) actions ->
      sampleError = Some message /\
      exists file count, actions = [App.generateSampleData file count; App.rejected message]) /\
  ((~ In App.close actions /\ forall code, ~ In (App.exit code) actions)
   <-> actions = [App.consoleError App.invalidMaxLLM] \/
       (exists file count message,
           actions = [App.generateSampleData file count; App.rejected message]) \/
       exists path o, actions = [App.runAnalysis path o; App.crash]).
Proof.
  cbv zeta. pose proof (main_cases sampleError existsSync outcome args) as C. cbv zeta in C.
  set (actions := App.main sampleError existsSync outcome args) in *. clearbody actions.
  split; [|split; [|split; [|split; [|split; [|split]]]]].
  - intros file count Hin.
    destruct C as [->|[->|[->|[->|[(f & k & -> & Hk & Hf)|[(l1 & l2 & l3 & ->)
                  |[(l1 & l2 & ->)|(path & o & tail & -> & Ht & _)]]]]]]];
      try (subst tail; destruct outcome);
      try (cbn [In] in Hin; exfalso; intuition discriminate).
    destruct Hin as [Hin | Hin];
      [|exfalso; destruct sampleError; cbn [In] in Hin; intuition discriminate].
    injection Hin as <- <-. tauto.
  - intros Hin.
    destruct C as [->|[->|[->|[->|[(f & k & -> & Hk & Hf)|[(l1 & l2 & l3 & ->)
                  |[(l1 & l2 & ->)|(path' & o' & tail & -> & Ht & _)]]]]]]];
      try (subst tail; destruct outcome);
      try destruct sampleError;
      cbn [In] in Hin; try (exfalso; intuition discriminate);
      (split; [intros path o Hr; cbn [In] in Hr; intuition discriminate|]);
      eauto.
  - intros path o Hr.
    destruct C as [->|[->|[->|[->|[(f & k & -> & Hk & Hf)|[(l1 & l2 & l3 & ->)
                  |[(l1 & l2 & ->)|(path' & o' & tail & -> & -> & _)]]]]]]];
      try (try destruct sampleError; cbn [In] in Hr; exfalso; intuition discriminate).
    destruct Hr as [Hr | Hr].
    + injection Hr as -> ->. reflexivity.
    + exfalso. destruct outcome; cbn [In] in Hr; intuition discriminate.
  - intros Hin.
    destruct C as [->|[->|[->|[->|[(f & k & -> & Hk & Hf)|[(l1 & l2 & l3 & ->)
                  |[(l1 & l2 & ->)|(path' & o' & tail & -> & -> & _)]]]]]]];
      try (try destruct sampleError; cbn [In] in Hin; exfalso; intuition discriminate).
    destruct outcome; try (cbn [In] in Hin; exfalso; intuition discriminate).
    split; [reflexivity|]. eauto.
  - intros message Hin.
    destruct C as [->|[->|[->|[->|[(f & k & -> & Hk & Hf)|[(l1 & l2 & l3 & ->)
                  |[(l1 & l2 & ->)|(path' & o' & tail & -> & Ht & _)]]]]]]];
      try (subst tail; destruct outcome);
      try (cbn [In] in Hin; exfalso; intuition discriminate).
    destruct sampleError as [message'|]; cbn [In] in Hin;
      [|exfalso; intuition discriminate].
    destruct Hin as [Hin | [Hin | []]]; [discriminate|].
    injection Hin as ->. split; [reflexivity|]. eauto.
  - intros [Hc He].
    destruct C as [->|[->|[->|[->|[(f & k & -> & Hk & Hf)|[(l1 & l2 & l3 & ->)
                  |[(l1 & l2 & ->)|(path & o & tail & -> & Ht & _)]]]]]]];
      try (subst tail; destruct outcome);
      try destruct sampleError;
      try (left; reflexivity); try (right; left; eauto; fail);
      try (right; right; eauto; fail); exfalso;
      first [ apply Hc; cbn [In]; tauto | apply (He 1); cbn [In]; tauto
            | apply (He 0); cbn [In]; tauto ].
  - intros [-> | [(file & count & message & ->) | (path & o & ->)]];
      (split; [|intros code]); cbn [In]; intuition discriminate.
Qed.

(** ** The layout of a response *)

Section LayoutFacts.

Lemma collapseLF_spaced s : forall written,
  (written <= 2)%nat -> spaced written (System.collapseLF written s) = true.
Proof.
  induction s as [|c s IH]; intros w Hw; [reflexivity|].
  cbn [System.collapseLF]. destruct (Ascii.eqb c System.LF) eqn:E.
  - destruct (Nat.ltb_spec w 2) as [Hlt | Hge].
    + cbn [spaced]. rewrite Ascii.eqb_refl. apply andb_true_iff.
      split; [now apply Nat.ltb_lt|]. apply IH. lia.
    + now apply IH.
  - cbn [spaced]. rewrite E. apply IH. lia.
Qed.

Lemma collapseLF_inked s : forall written, inked (System.collapseLF written s) = inked s.
Proof.
  induction s as [|c s IH]; intros w; [reflexivity|].
  cbn [System.collapseLF inked]. destruct (Ascii.eqb c System.LF) eqn:E.
  - cbn [orb]. destruct (w <? 2)%nat; [|apply IH].
    cbn [inked]. rewrite Ascii.eqb_refl. apply IH.
  - cbn [inked]. rewrite E. cbn [orb]. destruct (Ascii.eqb c System.CR); now rewrite IH.
Qed.

Lemma collapseLF_id s : forall written,
  spaced written s = true -> System.collapseLF written s = s.
Proof.
  induction s as [|c s IH]; intros w H; [reflexivity|].
  cbn [System.collapseLF spaced] in *. destruct (Ascii.eqb c System.LF) eqn:E.
  - apply andb_true_iff in H. destruct H as [Hw H]. rewrite Hw.
    apply Ascii.eqb_eq in E. subst c. f_equal. now apply IH.
  - f_equal. now apply IH.
Qed.

Lemma replaceCRLF_cons c d r :
  System.replaceCRLF (String c (String d r))
  = if Ascii.eqb c System.CR && Ascii.eqb d System.LF
    then String System.LF (System.replaceCRLF r)
    else String c (System.replaceCRLF (String d r)).
Proof. reflexivity. Qed.

Lemma replaceCRLF_inked s :
  inked (System.replaceCRLF s) = inked s
  /\ forall c, inked (System.replaceCRLF (String c s)) = inked (String c s).
Proof.
  induction s as [|d r [IH1 IH2]].
  - split; [reflexivity|]. intros c. reflexivity.
  - split; [apply IH2|]. intros c.
    rewrite replaceCRLF_cons.
    destruct (Ascii.eqb c System.CR && Ascii.eqb d System.LF) eqn:E.
    + apply andb_true_iff in E. destruct E as [Ec Ed].
      cbn [inked]. rewrite Ec, Ed, Ascii.eqb_refl, orb_true_r. cbn [orb]. apply IH1.
    + cbn [inked]. rewrite IH2. reflexivity.
Qed.

Lemma replaceCRLF_id s : unixText s = true -> System.replaceCRLF s = s.
Proof.
  assert (H : (unixText s = true -> System.replaceCRLF s = s)
              /\ forall c, unixText (String c s) = true
                           -> System.replaceCRLF (String c s) = String c s);
    [|tauto].
  induction s as [|d r [IH1 IH2]].
  - split; [reflexivity|]. intros c _. reflexivity.
  - split; [apply IH2|]. intros c H.
    rewrite replaceCRLF_cons.
    cbn [unixText] in H. apply andb_true_iff in H. destruct H as [Hc H].
    apply negb_true_iff in Hc. rewrite Hc. cbn [andb]. f_equal. now apply IH2.
Qed.

End LayoutFacts.

(** X23. [formatLLMResponse] puts the response under its title and adjusts
    nothing but its white space: the text between the header line and the
    closing line feed has no two blank lines in a row, its characters other
    than line feeds and carriage returns are those of the trimmed response,
    in order, and a response without carriage returns and without two blank
    lines in a row is only trimmed.  A missing response gives an empty
    text. *)
Theorem formatLLMResponse_layout (title : string) (response : option string) :
  let text := match response with Some r => r | None => "" end in
  exists clean,
    System.formatLLMResponse title response
    = nl ++ "=== " ++ title ++ " ===" ++ nl ++ clean ++ nl /\
    spaced 0 clean = true /\
    inked clean = inked (JS.trim text) /\
    (unixText (JS.trim text) = true -> spaced 0 (JS.trim text) = true ->
     clean = JS.trim text) /\
    (response = None -> clean = "").
Proof.
  cbv zeta. eexists. split; [reflexivity|]. split; [|split; [|split]].
  - apply collapseLF_spaced. lia.
  - rewrite collapseLF_inked. apply replaceCRLF_inked.
  - intros Hu Hs. rewrite (replaceCRLF_id _ Hu). now apply collapseLF_id.
  - intros ->. reflexivity.
Qed.

(** ** Addresses *)

Section RegexFacts.

Import Validators.

Lemma append_assoc (a b c : string) : (a ++ b) ++ c = a ++ b ++ c.
Proof. induction a as [|x a IH]; [reflexivity|]. cbn [append]. now rewrite IH. Qed.

Lemma append_empty_r (a : string) : a ++ "" = a.
Proof. induction a as [|x a IH]; [reflexivity|]. cbn [append]. now rewrite IH. Qed.

(** The matcher finds the matches of the expression, and nothing else. *)
Lemma matches_lang re : forall s r,
  In r (matches re s) <-> exists p, s = p ++ r /\ lang re p.
Proof.
  induction re as [lo hi | a IHa b IHb | a IHa b IHb | a IHa]; intros s r; cbn [matches lang].
  - destruct s as [|c s'].
    + split; [intros []|]. intros (p & E & c & -> & _). discriminate.
    + destruct ((JS.code lo <=? JS.code c) && (JS.code c <=? JS.code hi)) eqn:E.
      * apply andb_true_iff in E. destruct E as [E1 E2].
        apply Z.leb_le in E1, E2. split.
        -- intros [<- | []]. exists (String c ""). split; [reflexivity|]. exists c. auto.
        -- intros (p & Es & c' & -> & _). injection Es as -> ->. now left.
      * split; [intros []|]. intros (p & Es & c' & -> & H1 & H2). injection Es as -> ->.
        apply Z.leb_le in H1, H2. rewrite H1, H2 in E. discriminate.
  - rewrite in_flat_map. split.
    + intros (m & Hm & Hr). apply IHa in Hm. apply IHb in Hr.
      destruct Hm as (p1 & -> & H1). destruct Hr as (p2 & -> & H2).
      exists (p1 ++ p2). split; [now rewrite append_assoc|]. now exists p1, p2.
    + intros (p & -> & p1 & p2 & -> & H1 & H2). exists (p2 ++ r). split.
      * apply IHa. exists p1. split; [apply append_assoc | assumption].
      * apply IHb. now exists p2.
  - rewrite in_app_iff, IHa, IHb. split.
    + intros [(p & E & H) | (p & E & H)]; exists p; tauto.
    + intros (p & E & [H | H]); [left | right]; now exists p.
  - rewrite in_app_iff, IHa. cbn [In]. split.
    + intros [(p & E & H) | [<- | []]]; [exists p; tauto | exists ""; tauto].
    + intros (p & E & [-> | H]); [right; left; now symmetry | left; now exists p].
Qed.

Lemma test_lang re s : test re s = true <-> lang re s.
Proof.
  unfold test. rewrite existsb_exists. split.
  - intros (r & Hr & E). apply String.eqb_eq in E. subst r.
    apply matches_lang in Hr. destruct Hr as (p & -> & H). now rewrite append_empty_r.
  - intros H. exists "". split; [|reflexivity].
    apply matches_lang. exists s. now rewrite append_empty_r.
Qed.

Lemma lang_char c p : lang (char c) p <-> p = String c "".
Proof.
  unfold char. cbn [lang]. split.
  - intros (c' & -> & H). f_equal.
    assert (E : nat_of_ascii c' = nat_of_ascii c) by (unfold JS.code in H; lia).
    now rewrite <- (ascii_nat_embedding c'), E, ascii_nat_embedding.
  - intros ->. exists c. split; [reflexivity | lia].
Qed.

Lemma isDigit_code c : JS.isDigit c = true <-> 48 <= JS.code c <= 57.
Proof. unfold JS.isDigit. rewrite andb_true_iff, !Z.leb_le. tauto. Qed.

(** The octet expression stands for the numbers up to 255, in one to three
    digits. *)
Lemma lang_octet p : lang octet p <-> octetText p.
Proof.
  unfold octet, octetText. cbn [lang]. unfold char. cbn [lang].
  change (JS.code "0") with 48. change (JS.code "1") with 49.
  change (JS.code "2") with 50. change (JS.code "4") with 52.
  change (JS.code "5") with 53. change (JS.code "9") with 57.
  split.
  - intros [(p1 & p2 & -> & (c1 & -> & H1) & q1 & q2 & -> & (c2 & -> & H2) & c3 & -> & H3)
           |[(p1 & p2 & -> & (c1 & -> & H1) & q1 & q2 & -> & (c2 & -> & H2) & c3 & -> & H3)
            |(p1 & p2 & -> & H1 & q1 & q2 & -> & (c2 & -> & H2) & H3)]].
    + cbn [append JS.allDigits String.length decimal].
      rewrite !(proj2 (isDigit_code _)) by lia. repeat split; try reflexivity; lia.
    + cbn [append JS.allDigits String.length decimal].
      rewrite !(proj2 (isDigit_code _)) by lia. repeat split; try reflexivity; lia.
    + destruct H1 as [-> | (c1 & -> & H1)]; destruct H3 as [-> | (c3 & -> & H3)];
        cbn [append JS.allDigits String.length decimal];
        rewrite !(proj2 (isDigit_code _)) by lia; repeat split; try reflexivity; lia.
  - intros (D & L & V).
    destruct p as [|c1 [|c2 [|c3 [|c4 p]]]]; cbn [String.length] in L; try lia;
      cbn [JS.allDigits decimal] in D, V;
      repeat match goal with
             | H : _ && _ = true |- _ => apply andb_true_iff in H; destruct H
             end;
      repeat match goal with
             | H : JS.isDigit _ = true |- _ => apply isDigit_code in H
             end.
    + right. right. exists "", (String c1 ""). split; [reflexivity|]. split; [now left|].
      exists (String c1 ""), "". split; [reflexivity|]. split; [|now left].
      exists c1. split; [reflexivity | lia].
    + right. right. exists "", (String c1 (String c2 "")). split; [reflexivity|].
      split; [now left|].
      exists (String c1 ""), (String c2 ""). split; [reflexivity|]. split.
      * exists c1. split; [reflexivity | lia].
      * right. exists c2. split; [reflexivity | lia].
    + destruct (Z_le_gt_dec (JS.code c1) 49) as [K1 | K1].
      * right. right. exists (String c1 ""), (String c2 (String c3 "")).
        split; [reflexivity|]. split; [right; exists c1; split; [reflexivity | lia]|].
        exists (String c2 ""), (String c3 ""). split; [reflexivity|]. split.
        -- exists c2. split; [reflexivity | lia].
        -- right. exists c3. split; [reflexivity | lia].
      * destruct (Z_le_gt_dec (JS.code c2) 52) as [K2 | K2].
        -- right. left. exists (String c1 ""), (String c2 (String c3 "")).
           split; [reflexivity|]. split; [exists c1; split; [reflexivity | lia]|].
           exists (String c2 ""), (String c3 ""). split; [reflexivity|]. split.
           ++ exists c2. split; [reflexivity | lia].
           ++ exists c3. split; [reflexivity | lia].
        -- left. exists (String c1 ""), (String c2 (String c3 "")).
           split; [reflexivity|]. split; [exists c1; split; [reflexivity | lia]|].
           exists (String c2 ""), (String c3 ""). split; [reflexivity|]. split.
           ++ exists c2. split; [reflexivity | lia].
           ++ exists c3. split; [reflexivity | lia].
Qed.

Lemma lang_ipRegex t :
  lang ipRegex t <->
  exists a b c d,
    t = a ++ "." ++ b ++ "." ++ c ++ "." ++ d /\
    octetText a /\ octetText b /\ octetText c /\ octetText d.
Proof.
  unfold ipRegex. cbn [lang]. setoid_rewrite lang_char. setoid_rewrite lang_octet. split.
  - intros (p & d & -> & (p1 & p2 & -> & (a & x & -> & Ha & ->)
                          & (q1 & q2 & -> & (b & y & -> & Hb & ->)
                             & (c & z & -> & Hc & ->))) & Hd).
    exists a, b, c, d. split; [|tauto]. now rewrite !append_assoc.
  - intros (a & b & c & d & -> & Ha & Hb & Hc & Hd).
    exists (a ++ "." ++ b ++ "." ++ c ++ "."), d. split; [now rewrite !append_assoc|].
    split; [|assumption].
    exists (a ++ "."), (b ++ "." ++ c ++ "."). split; [now rewrite !append_assoc|]. split.
    + now exists a, ".".
    + exists (b ++ "."), (c ++ "."). split; [now rewrite !append_assoc|]. split.
      * now exists b, ".".
      * now exists c, ".".
Qed.

End RegexFacts.

(** X24. [validateIPAddress] accepts exactly the dotted quads: a string is
    accepted when, once trimmed, it is four numbers between 0 and 255
    separated by dots, each written in one to three decimal digits (leading
    zeros are allowed); a value that is no string, the empty string and
    everything else is rejected. *)
Theorem validateIPAddress_dotted_quad (ip : option string) :
  Validators.validateIPAddress ip = true <->
  exists s a b c d,
    ip = Some s /\
    JS.trim s = a ++ "." ++ b ++ "." ++ c ++ "." ++ d /\
    octetText a /\ octetText b /\ octetText c /\ octetText d.
Proof.
  unfold Validators.validateIPAddress. split.
  - destruct ip as [[|x s]|]; try discriminate. intros H.
    apply test_lang, lang_ipRegex in H. destruct H as (a & b & c & d & H).
    now exists (String x s), a, b, c, d.
  - intros (s & a & b & c & d & -> & Ht & H).
    destruct s as [|x s].
    + exfalso. cbn in Ht. destruct a; discriminate.
    + apply test_lang, lang_ipRegex. now exists a, b, c, d.
Qed.

(** ** The windows on the time line *)

(** X25. The windows are aligned slots of the time line, not intervals
    around a burst: an aggregate with the window index [k] holds only
    entries whose time is in the slot from [k * W] up to [(k + 1) * W]
    milliseconds, [W] being the length of the window, so any two of its
    entries are less than a window apart; two entries of one address one
    millisecond apart, on the two sides of a multiple of [W], are in
    different aggregates; and an aggregate without index holds only entries
    whose timestamp cannot be read, all those of its address, whenever they
    were logged. *)
Theorem windows_are_aligned
    (getTime : string -> option Z) (windowMinutes : positive) (es : list LogEntry) :
  let W := Z.pos windowMinutes * 60 * 1000 in
  let groups := groupByIPAndTime getTime es windowMinutes in
  Forall (fun kg =>
            match Group.timeWindow (snd kg) with
            | Some k =>
                Forall (fun e => exists t, getTime (timestamp e) = Some t
                                           /\ k * W <= t < (k + 1) * W)
                       (Group.entries (snd kg))
            | None =>
                forall e, In e (Group.entries (snd kg))
                          <-> In e es /\ sourceIP e = Group.sourceIP (snd kg)
                              /\ getTime (timestamp e) = None
            end) groups /\
  (forall kg e1 e2 t1 t2,
      In kg groups -> In e1 (Group.entries (snd kg)) -> In e2 (Group.entries (snd kg)) ->
      getTime (timestamp e1) = Some t1 -> getTime (timestamp e2) = Some t2 ->
      Z.abs (t1 - t2) < W) /\
  (forall kg e1 e2 k,
      In kg groups -> In e1 (Group.entries (snd kg)) ->
      In e2 es -> sourceIP e2 = sourceIP e1 ->
      getTime (timestamp e1) = Some (k * W - 1) -> getTime (timestamp e2) = Some (k * W) ->
      ~ In e2 (Group.entries (snd kg))).
Proof.
  cbv zeta.
  destruct (groupByIPAndTime_GroupsOf getTime windowMinutes es) as (_ & HF & _).
  rewrite Forall_forall in HF.
  assert (HW : 0 < Z.pos windowMinutes * 60 * 1000) by lia.
  set (W := Z.pos windowMinutes * 60 * 1000) in *.
  assert (Hslot : forall kg e t,
             In kg (groupByIPAndTime getTime es windowMinutes) ->
             In e (Group.entries (snd kg)) -> getTime (timestamp e) = Some t ->
             Group.timeWindow (snd kg) = Some (t / W)).
  { intros kg e t Hkg He Ht.
    destruct (GroupOf_entry getTime windowMinutes es kg e (HF _ Hkg) He) as [_ Hk].
    rewrite <- Hk. unfold timeKeyOf. now rewrite Ht. }
  split; [|split].
  - apply Forall_forall. intros kg Hkg.
    destruct (Group.timeWindow (snd kg)) as [k|] eqn:Ek.
    + apply Forall_forall. intros e He.
      destruct (GroupOf_entry getTime windowMinutes es kg e (HF _ Hkg) He) as [_ Hk].
      rewrite Ek in Hk. unfold timeKeyOf in Hk.
      destruct (getTime (timestamp e)) as [t|]; [|discriminate].
      exists t. split; [reflexivity|]. cbn [option_map] in Hk.
      assert (Hk' : t / W = k) by (unfold W; congruence).
      pose proof (Z.mul_div_le t W HW). pose proof (Z.mul_succ_div_gt t W HW).
      rewrite Hk' in *. lia.
    + intros e. pose proof (HF _ Hkg) as Hg.
      destruct (GroupOf_identity getTime windowMinutes es kg Hg) as [Hkey _].
      rewrite Ek in Hkey. split.
      * intros He. destruct (GroupOf_entry getTime windowMinutes es kg e Hg He) as [Hip Hk].
        split; [exact (GroupOf_entries_In getTime windowMinutes es kg e Hg He)|].
        split; [assumption|]. rewrite Ek in Hk. unfold timeKeyOf in Hk.
        now destruct (getTime (timestamp e)).
      * intros (He & Hip & Ht). destruct Hg as [Hent _]. rewrite Hent.
        apply filter_In. split; [assumption|]. apply String.eqb_eq.
        rewrite Hkey. unfold keyOf, timeKeyOf. now rewrite Ht, Hip.
  - intros kg e1 e2 t1 t2 Hkg H1 H2 T1 T2.
    pose proof (Hslot kg e1 t1 Hkg H1 T1) as K1.
    pose proof (Hslot kg e2 t2 Hkg H2 T2) as K2.
    assert (K : t1 / W = t2 / W) by congruence.
    pose proof (Z.mul_div_le t1 W HW). pose proof (Z.mul_succ_div_gt t1 W HW).
    pose proof (Z.mul_div_le t2 W HW). pose proof (Z.mul_succ_div_gt t2 W HW).
    rewrite K in *. lia.
  - intros kg e1 e2 k Hkg H1 He2 Hip T1 T2 H2.
    pose proof (Hslot kg e1 _ Hkg H1 T1) as K1.
    pose proof (Hslot kg e2 _ Hkg H2 T2) as K2.
    assert (K : (k * W - 1) / W = k * W / W) by congruence.
    rewrite Z.div_mul in K by lia.
    assert (E : (k * W - 1) / W = k - 1).
    { symmetry. apply (Z.div_unique _ _ _ (W - 1)); lia. }
    lia.
Qed.
